(** * OemHikvision: the device client and the enrollment workflow

    A shallow embedding of [server/services/hikvisionService.js] (the
    Digest-authenticating client of the camera's ISAPI surface) and of the
    enrollment route of the Express server, with the properties the
    specification states about them.

    JavaScript values are modelled as follows: strings are [string] (the
    headers involved are ASCII), [undefined]/[null] fields are [None], plain
    objects used as dictionaries are [gmap string _], a [Buffer] is a
    [list Byte.byte], numbers that hold integers are [Z]. *)

From Stdlib Require Import ZArith Lia Ascii String List Bool DecimalString DecimalPos DecimalZ.
From Stdlib.Strings Require Import Byte.
From stdpp Require Import gmap strings list fin_maps.

Local Open Scope string_scope.
Local Open Scope Z_scope.

(** ** JavaScript string helpers *)

Module Js.

(** The double quote and single quote characters. *)
Definition dq : ascii := "034"%char.
Definition sq : ascii := "039"%char.

(** [quoted s] is [s] between double quotes, as the templates of
    [generateDigestAuth] write the quoted directives. *)
Definition quoted (s : string) : string :=
  String dq (s +:+ String dq "").

(** [`${v}`] for a property that may be missing: a missing property reads
    as [undefined], which a template literal renders as the word. *)
Definition template (v : option string) : string :=
  match v with
  | Some s => s
  | None => "undefined"
  end.

(** Truthiness of a possibly-undefined string: [undefined], [null] and the
    empty string are falsy. *)
Definition truthy (v : option string) : bool :=
  match v with
  | Some s => negb (String.eqb s "")
  | None => false
  end.

(** [a || b] on possibly-undefined strings. *)
Definition or_else (a b : option string) : option string :=
  if truthy a then a else b.

(** [a || d] where [d] is a string literal. *)
Definition or_default (a : option string) (d : string) : string :=
  if truthy a then template a else d.

(** [hay.includes(needle)]. *)
Fixpoint includes (needle hay : string) : bool :=
  String.prefix needle hay ||
  match hay with
  | EmptyString => false
  | String _ t => includes needle t
  end.

(** [Number.prototype.toString] on an integer (decimal, with a leading
    minus sign for negatives; exact for the integers a database key can
    hold). *)
Definition int_toString (z : Z) : string :=
  NilZero.string_of_int (Z.to_int z).

(** [s.trim()] for the blank character the server can introduce (the space
    of the template [`${nombre} ${apellido}`]) and the other ASCII blanks. *)
Definition is_blank (c : ascii) : bool :=
  let n := nat_of_ascii c in
  ((9 <=? n) && (n <=? 13))%nat || (n =? 32)%nat.

Fixpoint trim_start (s : string) : string :=
  match s with
  | String c t => if is_blank c then trim_start t else s
  | EmptyString => EmptyString
  end.

Definition rev_string (s : string) : string :=
  string_of_list_ascii (rev (list_ascii_of_string s)).

Definition trim (s : string) : string :=
  rev_string (trim_start (rev_string (trim_start s))).

End Js.

(** ** A backtracking matcher for the regular expressions of the client

    The fragment of JavaScript regular expressions that
    [parseDigestHeader] uses: literal characters, character classes, the
    greedy [+] on a class, the greedy [?], sequencing and capturing groups.
    Matching is by backtracking with a continuation, in the order the
    ECMAScript semantics prescribes: a greedy quantifier first tries the
    longest repetition and gives characters back one at a time. *)

Module Regex.

Inductive regex : Type :=
| RChar (c : ascii)
| RClass (p : ascii -> bool)
| RPlus (p : ascii -> bool)
| ROpt (r : regex)
| RSeq (r1 r2 : regex)
| RGroup (i : nat) (r : regex).

(** Captured groups, by number. *)
Abbreviation captures := (gmap nat (list ascii)).

Section Matcher.
Context {A : Type}.

(** [p*] greedy: take one more character when possible, and only when
    the rest of the pattern then fails, stop here. *)
Fixpoint star (p : ascii -> bool) (s : list ascii)
    (k : list ascii -> option A) : option A :=
  match s with
  | c :: t =>
      if p c then
        match star p t k with
        | Some a => Some a
        | None => k s
        end
      else k s
  | [] => k s
  end.

Definition plus (p : ascii -> bool) (s : list ascii)
    (k : list ascii -> option A) : option A :=
  match s with
  | c :: t => if p c then star p t k else None
  | [] => None
  end.

Fixpoint rmatch (r : regex) (s : list ascii) (caps : captures)
    (k : list ascii -> captures -> option A) : option A :=
  match r with
  | RChar c =>
      match s with
      | x :: t => if Ascii.eqb x c then k t caps else None
      | [] => None
      end
  | RClass p =>
      match s with
      | x :: t => if p x then k t caps else None
      | [] => None
      end
  | RPlus p => plus p s (fun s' => k s' caps)
  | ROpt r1 =>
      match rmatch r1 s caps k with
      | Some a => Some a
      | None => k s caps
      end
  | RSeq r1 r2 =>
      rmatch r1 s caps (fun s' caps' => rmatch r2 s' caps' k)
  | RGroup i r1 =>
      rmatch r1 s caps (fun s' caps' =>
        k s' (<[i := take (length s - length s') s]> caps'))
  end.
End Matcher.

(** One attempt of the pattern at the head of [s]: the captures and the
    text left after the match. *)
Definition match_here (r : regex) (s : list ascii)
    : option (captures * list ascii) :=
  rmatch r s ∅ (fun s' caps => Some (caps, s')).

(** A text at whose head a repetition of the class [p] cannot go on. *)
Definition stops (p : ascii -> bool) (s : list ascii) : Prop :=
  match s with
  | [] => True
  | c :: _ => p c = false
  end.

(** [\w], the class of ASCII letters, digits and the underscore. *)
Definition is_word (c : ascii) : bool :=
  let n := nat_of_ascii c in
  (((48 <=? n) && (n <=? 57)) || ((65 <=? n) && (n <=? 90)) ||
   ((97 <=? n) && (n <=? 122)) || (n =? 95))%nat.

End Regex.

(** ** The challenge parser of the device client *)

Module DigestHeader.
Import Regex.

Definition is_quote (c : ascii) : bool :=
  Ascii.eqb c Js.dq || Ascii.eqb c Js.sq.

(** The negated class of the pattern: any character but the double quote,
    the single quote and the comma. *)
Definition is_value_char (c : ascii) : bool :=
  negb (is_quote c || Ascii.eqb c ","%char).

(** The pattern of [parseDigestHeader]: group 1 is [\w+], then [=], an
    optional quote character (double or single), group 2 is one or more
    characters of the negated class, then an optional quote character. *)
Definition digest_regex : regex :=
  RSeq (RGroup 1 (RPlus is_word))
 (RSeq (RChar "="%char)
 (RSeq (ROpt (RClass is_quote))
 (RSeq (RGroup 2 (RPlus is_value_char))
       (ROpt (RClass is_quote))))).

(** [digest[match[1]] = match[2]] on the object literal [{}]: an ordinary
    key is created or overwritten; the key [__proto__] reaches the
    inherited setter, which ignores a string. *)
Definition assign (digest : gmap string string) (k v : list ascii)
    : gmap string string :=
  let key := string_of_list_ascii k in
  if String.eqb key "__proto__" then digest
  else <[key := string_of_list_ascii v]> digest.

Definition record_match (digest : gmap string string) (caps : captures)
    : gmap string string :=
  assign digest (default [] (caps !! 1%nat)) (default [] (caps !! 2%nat)).

(** The loop [while ((match = regex.exec(authHeader)) !== null)] with the
    [g] flag: the search for the next match starts where the previous
    match ended ([lastIndex]) and moves on one character at a time until
    the pattern matches or the text ends. [skip] counts the characters
    still covered by the previous match. *)
Fixpoint exec_loop (skip : nat) (s : list ascii)
    (digest : gmap string string) : gmap string string :=
  match s with
  | [] => digest
  | _ :: t =>
      match skip with
      | S n => exec_loop n t digest
      | O =>
          match match_here digest_regex s with
          | Some (caps, rest) =>
              exec_loop (length s - length rest - 1) t
                        (record_match digest caps)
          | None => exec_loop 0 t digest
          end
      end
  end.

Definition parseDigestHeader (authHeader : string) : gmap string string :=
  exec_loop 0 (list_ascii_of_string authHeader) ∅.

End DigestHeader.

(** ** Buffers, clocks and encodings of the Node runtime *)

Module Node.

(** [buf.toString('hex')]: two lower-case hexadecimal digits per byte. *)
Definition hex_digit (n : N) : ascii :=
  if (n <? 10)%N then ascii_of_N (48 + n) else ascii_of_N (87 + n).

Fixpoint toHex (bs : list byte) : string :=
  match bs with
  | [] => ""
  | b :: rest =>
      let n := Byte.to_N b in
      String (hex_digit (n / 16)) (String (hex_digit (n mod 16)) (toHex rest))
  end.

(** The reading of hexadecimal text that undoes [toHex]: the value of a
    digit is read off its character code. *)
Definition hex_value (c : ascii) : option N :=
  let n := N_of_ascii c in
  if ((48 <=? n) && (n <=? 57))%N then Some (n - 48)%N
  else if ((97 <=? n) && (n <=? 102))%N then Some (n - 87)%N
  else None.

Fixpoint fromHex (s : string) : option (list byte) :=
  match s with
  | EmptyString => Some []
  | String c1 (String c2 rest) =>
      match hex_value c1, hex_value c2, fromHex rest with
      | Some hi, Some lo, Some bs =>
          match Byte.of_N (hi * 16 + lo) with
          | Some b => Some (b :: bs)
          | None => None
          end
      | _, _, _ => None
      end
  | _ => None
  end.

(** [buf.toString('base64')]: the standard alphabet, three bytes to four
    characters, padded with [=]. *)
Definition base64_alphabet : list ascii :=
  list_ascii_of_string
    "ABCDEFGHIJKLMNOPQRSTUVWXYZabcdefghijklmnopqrstuvwxyz0123456789+/".

Definition base64_char (n : N) : ascii :=
  nth (N.to_nat n) base64_alphabet "="%char.

Fixpoint toBase64 (bs : list byte) : string :=
  match bs with
  | [] => ""
  | [a] =>
      let x := Byte.to_N a in
      String (base64_char (x / 4))
     (String (base64_char ((x mod 4) * 16)) "==")
  | [a; b] =>
      let x := Byte.to_N a in
      let y := Byte.to_N b in
      String (base64_char (x / 4))
     (String (base64_char ((x mod 4) * 16 + y / 16))
     (String (base64_char ((y mod 16) * 4)) "="))
  | a :: b :: c :: rest =>
      let x := Byte.to_N a in
      let y := Byte.to_N b in
      let z := Byte.to_N c in
      String (base64_char (x / 4))
     (String (base64_char ((x mod 4) * 16 + y / 16))
     (String (base64_char ((y mod 16) * 4 + z / 64))
     (String (base64_char (z mod 64)) (toBase64 rest))))
  end%N.

(** The value of a character in standard base64, read off its character
    code: the capital letters are 0 to 25, the small letters 26 to 51, the
    digits 52 to 61, the plus sign 62 and the slash 63. *)
Definition base64_index (c : ascii) : option N :=
  let n := N_of_ascii c in
  if ((65 <=? n) && (n <=? 90))%N then Some (n - 65)%N
  else if ((97 <=? n) && (n <=? 122))%N then Some (n - 71)%N
  else if ((48 <=? n) && (n <=? 57))%N then Some (n + 4)%N
  else if (n =? 43)%N then Some 62%N
  else if (n =? 47)%N then Some 63%N
  else None.

(** The byte of a number below 256. *)
Definition byte_of (n : N) : option byte := Byte.of_N n.

(** A lower-case hexadecimal digit; a text all of whose characters
    satisfy [p]. *)
Definition is_lower_hex (c : ascii) : bool :=
  let n := nat_of_ascii c in
  (((48 <=? n) && (n <=? 57)) || ((97 <=? n) && (n <=? 102)))%nat.

Fixpoint all_chars (p : ascii -> bool) (s : string) : bool :=
  match s with
  | EmptyString => true
  | String c t => p c && all_chars p t
  end.

(** The reading of base64 text that undoes [toBase64]. *)
Fixpoint fromBase64 (s : string) : option (list byte) :=
  match s with
  | EmptyString => Some []
  | String c1 (String c2 (String c3 (String c4 rest))) =>
      match base64_index c1, base64_index c2 with
      | Some i1, Some i2 =>
          match byte_of (i1 * 4 + i2 / 16) with
          | None => None
          | Some b1 =>
              if Ascii.eqb c3 "=" then
                if Ascii.eqb c4 "=" && String.eqb rest "" then Some [b1]
                else None
              else
                match base64_index c3 with
                | None => None
                | Some i3 =>
                    match byte_of ((i2 mod 16) * 16 + i3 / 4) with
                    | None => None
                    | Some b2 =>
                        if Ascii.eqb c4 "=" then
                          if String.eqb rest "" then Some [b1; b2] else None
                        else
                          match base64_index c4 with
                          | None => None
                          | Some i4 =>
                              match byte_of ((i3 mod 4) * 64 + i4),
                                    fromBase64 rest with
                              | Some b3, Some bs => Some (b1 :: b2 :: b3 :: bs)
                              | _, _ => None
                              end
                          end
                    end
                end
          end
      | _, _ => None
      end
  | _ => None
  end%N.

Definition base64_char_ok (n : N) : bool :=
  match base64_index (base64_char n) with
  | Some m => N.eqb m n
  | None => false
  end && negb (Ascii.eqb (base64_char n) "=").

(** A reading of the clock, in UTC, as [new Date()] holds it. *)
Record Date : Type := {
  year : Z;
  month : Z;      (* 1 .. 12 *)
  day : Z;        (* 1 .. 31 *)
  hours : Z;
  minutes : Z;
  seconds : Z;
  milliseconds : Z
}.

Definition digit (z : Z) : ascii :=
  ascii_of_N (48 + Z.to_N (z mod 10)).

(** [z] written with exactly [n] decimal digits. *)
Fixpoint pad (n : nat) (z : Z) : string :=
  match n with
  | O => ""
  | S n' => pad n' (z / 10) +:+ String (digit z) ""
  end.

(** The year of an ISO timestamp: four digits from 0 to 9999, otherwise a
    sign and six digits. *)
Definition iso_year (y : Z) : string :=
  if (0 <=? y) && (y <=? 9999) then pad 4 y
  else if y <? 0 then String "-"%char (pad 6 (- y))
  else String "+"%char (pad 6 y).

Definition iso_date (d : Date) : string :=
  iso_year (year d) +:+ "-" +:+ pad 2 (month d) +:+ "-" +:+ pad 2 (day d).

(** The date that the text [YYYY-MM-DD] writes: its three numbers, read in
    decimal, when the text has that shape. *)
Definition read_decimal (s : string) : option Z :=
  option_map Z.of_int (NilZero.int_of_string s).

Definition read_date (s : string) : option (Z * Z * Z) :=
  if (String.length s =? 10)%nat
     && String.eqb (substring 4 1 s) "-"
     && String.eqb (substring 7 1 s) "-"
  then
    match read_decimal (substring 0 4 s), read_decimal (substring 5 2 s),
          read_decimal (substring 8 2 s) with
    | Some y, Some m, Some d => Some (y, m, d)
    | _, _, _ => None
    end
  else None.

(** [d.toISOString()]. *)
Definition toISOString (d : Date) : string :=
  iso_date d +:+ "T" +:+ pad 2 (hours d) +:+ ":" +:+ pad 2 (minutes d)
    +:+ ":" +:+ pad 2 (seconds d) +:+ "." +:+ pad 3 (milliseconds d) +:+ "Z".

(** [s.split(sep)[0]] for a one-character separator: the text before its
    first occurrence, the whole text when it does not occur. *)
Fixpoint split_head (sep : ascii) (s : string) : string :=
  match s with
  | EmptyString => EmptyString
  | String c t => if Ascii.eqb c sep then EmptyString
                  else String c (split_head sep t)
  end.

(** [s] holds no occurrence of [sep]. *)
Fixpoint lacks (sep : ascii) (s : string) : bool :=
  match s with
  | EmptyString => true
  | String c t => negb (Ascii.eqb c sep) && lacks sep t
  end.

End Node.

(** ** The device client: [HikvisionService] *)

Module Hikvision.
Import Node DigestHeader.

(** What the HTTP library resolves a request to: [response.status],
    [response.headers] (names in lower case) and [response.data]. *)
Record HttpResponse : Type := {
  status : Z;
  headers : gmap string string;
  data : string
}.

(** A thrown [Error]: its [message], and the [code] and [response]
    properties the HTTP library adds to its own errors. *)
Record JsError : Type := {
  message : string;
  code : option string;
  response : option HttpResponse
}.

Definition Error (msg : string) : JsError :=
  {| message := msg; code := None; response := None |}.

Inductive Result (A : Type) : Type :=
| Ok (a : A)
| Throw (e : JsError).
Arguments Ok {A} a.
Arguments Throw {A} e.

(** The JSON object [faceData] of [enrollFace]. *)
Record FaceData : Type := {
  faceLibType : string;
  FDID : string;
  FPID : string;
  name : string;
  bornTime : string;
  sex : string;
  faceURL : string
}.

Inductive Body : Type :=
| NoBody
| JsonBody (fd : FaceData).

(** One HTTP request as it goes out on the wire. *)
Record Request : Type := {
  method : string;
  url : string;
  body : Body;
  req_headers : gmap string string
}.

(** What comes back: an HTTP response of any status, or no response at all
    (connection refused, timeout, TLS failure) with the error code and the
    message of the transport. *)
Inductive WireOutcome : Type :=
| Answer (r : HttpResponse)
| Failure (errcode : string) (msg : string).

(** The fields the constructor reads from the environment; a variable that
    is not set is [None]. *)
Record Config : Type := {
  deviceIP : option string;
  username : option string;
  password : option string;
  useHttps : bool
}.

Definition baseURL (cfg : Config) : string :=
  (if useHttps cfg then "https" else "http") +:+ "://"
    +:+ Js.template (deviceIP cfg).

Section Client.

(** [crypto.createHash('md5').update(data).digest('hex')] is the
    runtime's; the client is verified for every hash function. *)
Variable md5 : string -> string.

(** The device and the network between it and the client: a state and
    the answer to each request. *)
Variable Dev : Type.
Variable wire : Dev -> Request -> WireOutcome * Dev.

Variable cfg : Config.

(** Everything outside the client that a call reads or changes: the
    device, the requests sent so far, the entropy that
    [crypto.randomBytes] draws from with the number of bytes already
    drawn, and the clock. *)
Record World : Type := {
  dev : Dev;
  sent : list Request;
  entropy : nat -> byte;
  drawn : nat;
  clock : Date
}.

(** Asynchronous methods that may throw: a state-and-error monad. *)
Definition M (A : Type) : Type := World -> Result A * World.

Definition ret {A} (a : A) : M A := fun w => (Ok a, w).
Definition throw {A} (e : JsError) : M A := fun w => (Throw e, w).
Definition bind {A B} (m : M A) (k : A -> M B) : M B :=
  fun w =>
    match m w with
    | (Ok a, w') => k a w'
    | (Throw e, w') => (Throw e, w')
    end.
Definition try_catch {A} (m : M A) (handler : JsError -> M A) : M A :=
  fun w =>
    match m w with
    | (Ok a, w') => (Ok a, w')
    | (Throw e, w') => handler e w'
    end.

Notation "'let*' x ':=' m 'in' k" := (bind m (fun x => k))
  (at level 10, x name, m at level 100, k at level 200).

(** The world after [n] bytes of entropy are drawn, and after the request
    [req] is sent and leaves the device in state [d']. *)
Definition drawing (n : nat) (w : World) : World :=
  {| dev := dev w; sent := sent w; entropy := entropy w;
     drawn := (drawn w + n)%nat; clock := clock w |}.

Definition sending (d' : Dev) (req : Request) (w : World) : World :=
  {| dev := d'; sent := sent w ++ [req]; entropy := entropy w;
     drawn := drawn w; clock := clock w |}.

(** [crypto.randomBytes(n)]. *)
Definition randomBytes (n : nat) : M (list byte) :=
  fun w =>
    (Ok (map (fun i => entropy w (drawn w + i)%nat) (seq 0 n)), drawing n w).

(** [new Date()]. *)
Definition now : M Date := fun w => (Ok (clock w), w).

(** The default [validateStatus] of the HTTP library. *)
Definition validate_2xx (s : Z) : bool := (200 <=? s) && (s <? 300).

(** The [validateStatus] of the first request. *)
Definition validate_401_or_2xx (s : Z) : bool :=
  (s =? 401) || ((200 <=? s) && (s <? 300)).

(** The code the HTTP library gives the error of a rejected status. *)
Definition status_error_code (s : Z) : option string :=
  if s / 100 =? 4 then Some "ERR_BAD_REQUEST"
  else if s / 100 =? 5 then Some "ERR_BAD_RESPONSE"
  else None.

(** [this.client.request(config)]: the request goes out; the promise
    resolves to the response when [validateStatus] accepts its status and
    rejects otherwise, with the response attached to the error; a
    transport failure rejects with the transport's code. *)
Definition client_request (req : Request) (validateStatus : Z -> bool)
    : M HttpResponse :=
  fun w =>
    let '(out, d') := wire (dev w) req in
    let w' := sending d' req w in
    match out with
    | Answer r =>
        if validateStatus (status r) then (Ok r, w')
        else (Throw {| message := "Request failed with status code "
                                    +:+ Js.int_toString (status r);
                       code := status_error_code (status r);
                       response := Some r |}, w')
    | Failure c msg =>
        (Throw {| message := msg; code := Some c; response := None |}, w')
    end.

(** The [response] value of [generateDigestAuth]. *)
Definition digest_response (method uri : string)
    (digestParams : gmap string string) (nc cnonce : string) : string :=
  let ha1 := md5 (Js.template (username cfg) +:+ ":"
                    +:+ Js.template (digestParams !! "realm") +:+ ":"
                    +:+ Js.template (password cfg)) in
  let ha2 := md5 (method +:+ ":" +:+ uri) in
  md5 (ha1 +:+ ":" +:+ Js.template (digestParams !! "nonce") +:+ ":"
         +:+ nc +:+ ":" +:+ cnonce +:+ ":"
         +:+ Js.template (digestParams !! "qop") +:+ ":" +:+ ha2).

(** The header value that [generateDigestAuth] returns, as a function of
    the two values it fixes or draws. *)
Definition digest_header (method uri : string)
    (digestParams : gmap string string) (nc cnonce : string) : string :=
  "Digest username=" +:+ Js.quoted (Js.template (username cfg))
    +:+ ", realm=" +:+ Js.quoted (Js.template (digestParams !! "realm"))
    +:+ ", nonce=" +:+ Js.quoted (Js.template (digestParams !! "nonce"))
    +:+ ", uri=" +:+ Js.quoted uri
    +:+ ", qop=" +:+ Js.template (digestParams !! "qop")
    +:+ ", nc=" +:+ nc
    +:+ ", cnonce=" +:+ Js.quoted cnonce
    +:+ ", response="
    +:+ Js.quoted (digest_response method uri digestParams nc cnonce).

Definition generateDigestAuth (method uri : string)
    (digestParams : gmap string string) : M string :=
  let nc := "00000001" in
  let* bytes := randomBytes 16 in
  let cnonce := toHex bytes in
  ret (digest_header method uri digestParams nc cnonce).

Definition makeAuthenticatedRequest (method endpoint : string)
    (data : Body) (headers : gmap string string) : M HttpResponse :=
  let url := baseURL cfg +:+ endpoint in
  try_catch
    (let* initialResponse :=
       client_request {| method := method; url := url; body := data;
                         req_headers := headers |}
                      validate_401_or_2xx in
     if status initialResponse =? 401 then
       let authHeader := Hikvision.headers initialResponse !! "www-authenticate" in
       if negb (Js.truthy authHeader)
          || negb (Js.includes "Digest" (Js.template authHeader))
       then throw (Error "Device does not support Digest authentication")
       else
         let digestParams := parseDigestHeader (Js.template authHeader) in
         let* authHeaderValue :=
           generateDigestAuth method endpoint digestParams in
         let* authenticatedResponse :=
           client_request
             {| method := method; url := url; body := data;
                req_headers := <["Authorization" := authHeaderValue]> headers |}
             validate_2xx in
         ret authenticatedResponse
     else ret initialResponse)
    (fun error =>
       if decide (code error = Some "ECONNREFUSED") then
         throw (Error ("Cannot connect to Hikvision device at "
                         +:+ Js.template (deviceIP cfg)))
       else if decide (code error = Some "ETIMEDOUT") then
         throw (Error ("Connection timeout to Hikvision device at "
                         +:+ Js.template (deviceIP cfg)))
       else throw error).

(** The object every public operation returns; a property that the
    operation does not set is [None]. *)
Record Envelope : Type := {
  success : bool;
  env_data : option string;
  env_deviceInfo : option string;
  env_status : option Z;
  env_message : option string;
  env_error : option string;
  env_details : option string
}.

(** [error.response?.data || null] and [error.response?.status || null]. *)
Definition error_details (e : JsError) : option string :=
  match response e with
  | Some r => if String.eqb (data r) "" then None else Some (data r)
  | None => None
  end.

Definition error_status (e : JsError) : option Z :=
  match response e with
  | Some r => if status r =? 0 then None else Some (status r)
  | None => None
  end.

Definition testConnection : M Envelope :=
  try_catch
    (let* response :=
       makeAuthenticatedRequest "GET" "/ISAPI/System/deviceInfo" NoBody ∅ in
     ret {| success := true; env_data := None;
            env_deviceInfo := Some (data response);
            env_status := Some (status response);
            env_message := None; env_error := None; env_details := None |})
    (fun error =>
       ret {| success := false; env_data := None; env_deviceInfo := None;
              env_status := None; env_message := None;
              env_error := Some (message error);
              env_details := error_details error |}).

Definition getFaceDatabase : M Envelope :=
  try_catch
    (let* response :=
       makeAuthenticatedRequest "GET" "/ISAPI/Intelligent/FDLib" NoBody ∅ in
     ret {| success := true; env_data := Some (data response);
            env_deviceInfo := None; env_status := None;
            env_message := None; env_error := None; env_details := None |})
    (fun error =>
       ret {| success := false; env_data := None; env_deviceInfo := None;
              env_status := None; env_message := None;
              env_error := Some (message error);
              env_details := error_details error |}).

(** The payload that [enrollFace] builds. *)
Definition face_payload (personId : Z) (imageBuffer : list byte)
    (personName : string) (today : Date) : FaceData :=
  let imageBase64 := toBase64 imageBuffer in
  {| faceLibType := "blackFD";
     FDID := "1";
     FPID := Js.int_toString personId;
     name := if String.eqb personName "" then
               "Person_" +:+ Js.int_toString personId
             else personName;
     bornTime := split_head "T" (toISOString today);
     sex := "unknown";
     faceURL := "data:image/jpeg;base64," +:+ imageBase64 |}.

Definition enrollFace (personId : Z) (imageBuffer : list byte)
    (personName : string) : M Envelope :=
  try_catch
    (let* today := now in
     let faceData := face_payload personId imageBuffer personName today in
     let* response :=
       makeAuthenticatedRequest "POST" "/ISAPI/Intelligent/FDLib/FDSet"
         (JsonBody faceData)
         (<["Content-Type" := "application/json"]>
            (<["Accept" := "application/json"]> ∅)) in
     ret {| success := true; env_data := Some (data response);
            env_deviceInfo := None; env_status := Some (status response);
            env_message :=
              Some "Face enrolled successfully to Hikvision device";
            env_error := None; env_details := None |})
    (fun error =>
       ret {| success := false; env_data := None; env_deviceInfo := None;
              env_status := error_status error; env_message := None;
              env_error := Some (message error);
              env_details := error_details error |}).

Definition deleteFace (personId : Z) : M Envelope :=
  try_catch
    (let* response :=
       makeAuthenticatedRequest "DELETE"
         ("/ISAPI/Intelligent/FDLib/FDSet?FDID=1&FPID="
            +:+ Js.int_toString personId) NoBody ∅ in
     ret {| success := true; env_data := Some (data response);
            env_deviceInfo := None; env_status := Some (status response);
            env_message :=
              Some "Face deleted successfully from Hikvision device";
            env_error := None; env_details := None |})
    (fun error =>
       ret {| success := false; env_data := None; env_deviceInfo := None;
              env_status := error_status error; env_message := None;
              env_error := Some (message error);
              env_details := error_details error |}).

Definition getDeviceCapabilities : M Envelope :=
  try_catch
    (let* response :=
       makeAuthenticatedRequest "GET"
         "/ISAPI/Intelligent/FDLib/capabilities" NoBody ∅ in
     ret {| success := true; env_data := Some (data response);
            env_deviceInfo := None; env_status := None;
            env_message := None; env_error := None; env_details := None |})
    (fun error =>
       ret {| success := false; env_data := None; env_deviceInfo := None;
              env_status := None; env_message := None;
              env_error := Some (message error);
              env_details := error_details error |}).

End Client.

Arguments dev {Dev} w.
Arguments sent {Dev} w.
Arguments entropy {Dev} w.
Arguments drawn {Dev} w.
Arguments clock {Dev} w.

End Hikvision.

(** ** The store of record

    The three tables of the schema, as the rows the enrollment route reads
    and writes (the timestamps, which the route never reads, are left
    out), and the sequence behind the auto-incremented face key. *)

Module Store.
Import Hikvision.

Record Per : Type := {
  personaID : Z;
  nombre : option string;
  apellido : option string
}.

Record Face : Type := {
  facialID : Z;
  templateData : option (list byte);
  activo : bool
}.

Record Perface : Type := {
  pf_personaID : Z;
  pf_facialID : Z
}.

Record Store : Type := {
  per : list Per;
  face : list Face;
  perface : list Perface;
  face_seq : Z
}.

(** [prisma.per.findUnique({ where: { personaID } })]. *)
Definition per_findUnique (id : Z) (st : Store) : option Per :=
  find (fun p => personaID p =? id) (per st).

Definition face_find (id : Z) (st : Store) : option Face :=
  find (fun f => facialID f =? id) (face st).

(** [tx.perface.findMany({ where: { personaID }, include: { face: true } })]. *)
Definition perface_findMany (id : Z) (st : Store) : list Perface :=
  filter (fun pf => pf_personaID pf = id) (perface st).

(** [tx.face.updateMany({ where: { facialID: { in: faceIds } },
    data: { activo: false } })]. *)
Definition deactivate (faceIds : list Z) (f : Face) : Face :=
  if existsb (Z.eqb (facialID f)) faceIds then
    {| facialID := facialID f; templateData := templateData f;
       activo := false |}
  else f.

Definition face_updateMany (faceIds : list Z) (st : Store) : Store :=
  {| per := per st; face := map (deactivate faceIds) (face st);
     perface := perface st; face_seq := face_seq st |}.

Definition constraint_error (msg c : string) : JsError :=
  {| message := msg; code := Some c; response := None |}.

(** [tx.face.create({ data: { templateData, activo: true } })]: the key
    comes from the sequence, which moves on; the primary key rejects a
    value that a row already has. *)
Definition face_create (buf : list byte) (st : Store)
    : Result Face * Store :=
  let id := face_seq st in
  let st' := {| per := per st; face := face st; perface := perface st;
                face_seq := id + 1 |} in
  match face_find id st with
  | Some _ =>
      (Throw (constraint_error
                "Unique constraint failed on the fields: (facialID)"
                "P2002"), st')
  | None =>
      let newFace := {| facialID := id; templateData := Some buf;
                        activo := true |} in
      (Ok newFace,
       {| per := per st; face := face st ++ [newFace];
          perface := perface st; face_seq := id + 1 |})
  end.

(** [tx.perface.create({ data: { personaID, facialID } })], under the
    composite primary key and the two foreign keys of the link table. *)
Definition perface_create (pid fid : Z) (st : Store)
    : Result unit * Store :=
  if existsb (fun pf => (pf_personaID pf =? pid) && (pf_facialID pf =? fid))
             (perface st)
  then (Throw (constraint_error
                 "Unique constraint failed on the fields: (personaID,facialID)"
                 "P2002"), st)
  else
    match per_findUnique pid st, face_find fid st with
    | Some _, Some _ =>
        (Ok tt,
         {| per := per st; face := face st;
            perface := perface st
                         ++ [{| pf_personaID := pid; pf_facialID := fid |}];
            face_seq := face_seq st |})
    | _, _ =>
        (Throw (constraint_error "Foreign key constraint failed" "P2003"),
         st)
    end.

(** What a failed transaction leaves behind: the rows as they were; the
    sequence does not move back. *)
Definition rollback (before after : Store) : Store :=
  {| per := per before; face := face before; perface := perface before;
     face_seq := face_seq after |}.

(** The relation filter [face: { activo: b }] on a link row. *)
Definition linked_face_is (b : bool) (st : Store) (pf : Perface) : bool :=
  match face_find (pf_facialID pf) st with
  | Some f => Bool.eqb (activo f) b
  | None => false
  end.

(** [prisma.perface.count({ where: { personaID, face: { activo: b } } })]. *)
Definition perface_count (id : Z) (b : bool) (st : Store) : Z :=
  Z.of_nat (length (filter (fun pf => linked_face_is b st pf = true)
                           (perface_findMany id st))).

(** The constraints of the schema: the face key and the composite link key
    are unique, a link row points at an existing subject and an existing
    face, and the sequence is ahead of every face key. *)
Record wf_store (st : Store) : Prop := {
  wf_face_key : NoDup (map facialID (face st));
  wf_link_key : NoDup (map (fun pf => (pf_personaID pf, pf_facialID pf))
                           (perface st));
  wf_link_face : Forall (fun pf => is_Some (face_find (pf_facialID pf) st))
                        (perface st);
  wf_link_per : Forall (fun pf => is_Some (per_findUnique (pf_personaID pf) st))
                       (perface st);
  wf_seq : Forall (fun f => facialID f < face_seq st) (face st)
}.

End Store.

(** ** The enrollment route of the server *)

Module Server.
Import Hikvision Store.

(** The file that the upload middleware keeps in memory. *)
Record Upload : Type := {
  mimetype : string;
  buffer : list byte
}.

Definition fileFilter (file : Upload) : bool :=
  String.eqb (mimetype file) "image/jpeg"
  || String.eqb (mimetype file) "image/png".

Definition fileSize_limit : Z := 5 * 1024 * 1024.

(** The [hikvision] object of the response. *)
Record MirrorReport : Type := {
  hk_success : bool;
  hk_message : string;
  hk_error : option string
}.

Inductive ReplyBody : Type :=
| ErrorReply (error : string)
| EnrollReply (success : bool) (message : string) (faceId : Z)
              (deactivatedFaces : Z) (hikvision : MirrorReport).

Record Reply : Type := {
  reply_status : Z;
  reply_body : ReplyBody
}.

(** One call of [hikvisionService.enrollFace], as the route makes it. *)
Record MirrorCall : Type := {
  call_personId : Z;
  call_image : list byte;
  call_name : string
}.

(** The transaction of the route. *)
Definition transaction (personaID : Z) (buf : list byte) (st : Store)
    : Result Face * Store :=
  let existingFaces := perface_findMany personaID st in
  let st1 :=
    if (0 <? length existingFaces)%nat then
      let faceIds := map pf_facialID existingFaces in
      face_updateMany faceIds st
    else st in
  match face_create buf st1 with
  | (Throw e, st2) => (Throw e, rollback st st2)
  | (Ok newFace, st2) =>
      match perface_create personaID (facialID newFace) st2 with
      | (Throw e, st3) => (Throw e, rollback st st3)
      | (Ok _, st3) => (Ok newFace, st3)
      end
  end.

Section Route.

(** The device client the route calls, with whatever it acts on. *)
Variable W : Type.
Variable svc_enrollFace :
  Z -> list byte -> string -> W -> Result Envelope * W.

(** What one request leaves behind: the response, the store, the world
    of the device client and the calls made to the client. *)
Record Run : Type := {
  reply : Reply;
  store_after : Store;
  world_after : W;
  mirror_calls : list MirrorCall
}.

Definition json (code : Z) (b : ReplyBody) (st : Store) (w : W)
    (calls : list MirrorCall) : Run :=
  {| reply := {| reply_status := code; reply_body := b |};
     store_after := st; world_after := w; mirror_calls := calls |}.

(** [app.post('/api/enroll/:personaID', ...)], after the upload
    middleware: [personaID] is the parsed route parameter and [file] is
    [req.file]. *)
Definition enroll_handler (personaID : Z) (file : option Upload)
    (st : Store) (w : W) : Run :=
  match file with
  | None => json 400 (ErrorReply "No image file provided") st w []
  | Some file =>
      match per_findUnique personaID st with
      | None => json 404 (ErrorReply "Person not found") st w []
      | Some persona =>
          match transaction personaID (buffer file) st with
          | (Throw _, st') =>
              json 500 (ErrorReply "Failed to enroll face") st' w []
          | (Ok result, st') =>
              let personName :=
                Js.or_default
                  (Some (Js.trim (Js.or_default (nombre persona) "" +:+ " "
                                    +:+ Js.or_default (apellido persona) "")))
                  ("Person_" +:+ Js.int_toString personaID) in
              let '(outcome, w') :=
                svc_enrollFace personaID (buffer file) personName w in
              let hikvisionResult :=
                match outcome with
                | Ok r => Some r
                | Throw _ => None
                end in
              let hikvisionError :=
                match outcome with
                | Ok r => if Hikvision.success r then None else env_error r
                | Throw e => Some (Hikvision.message e)
                end in
              let deactivatedCount := perface_count personaID false st' in
              json 200
                (EnrollReply true "Face enrolled successfully to database"
                   (facialID result) deactivatedCount
                   {| hk_success :=
                        match hikvisionResult with
                        | Some r => Hikvision.success r
                        | None => false
                        end;
                      hk_message :=
                        Js.or_default
                          (Js.or_else
                             (match hikvisionResult with
                              | Some r => env_message r
                              | None => None
                              end)
                             hikvisionError)
                          "Device enrollment failed";
                      hk_error := hikvisionError |})
                st' w'
                [{| call_personId := personaID; call_image := buffer file;
                    call_name := personName |}]
          end
      end
  end.

(** The route with its middleware: the file filter and the size limit
    of the upload come first, and their errors go to the error-handling
    middleware. The upload is cut off, with the error of the limit, as
    soon as the file reaches [fileSize] bytes: a file of exactly that
    size is refused as a longer one is. *)
Definition post_enroll (personaID : Z) (image : option Upload)
    (st : Store) (w : W) : Run :=
  match image with
  | Some file =>
      if negb (fileFilter file) then
        json 500 (ErrorReply "Internal server error") st w []
      else if fileSize_limit <=? Z.of_nat (length (buffer file)) then
        json 400 (ErrorReply "File too large. Maximum size is 5MB.") st w []
      else enroll_handler personaID image st w
  | None => enroll_handler personaID None st w
  end.

End Route.

Arguments reply {W} r.
Arguments store_after {W} r.
Arguments world_after {W} r.
Arguments mirror_calls {W} r.

End Server.

(** ** The server wired to the device client *)

Module App.
Import Hikvision Store Server.

Section Wiring.
Variable md5 : string -> string.
Variable Dev : Type.
Variable wire : Dev -> Request -> WireOutcome * Dev.
Variable cfg : Config.

(** [const hikvisionService = new HikvisionService()] and the route that
    uses it. *)
Definition enroll_route (personaID : Z) (image : option Upload)
    (st : Store) (w : World Dev) : Run (World Dev) :=
  post_enroll (World Dev) (enrollFace md5 Dev wire cfg) personaID image st w.
End Wiring.

(** A device that plays a fixed list of outcomes, one per request, and
    refuses the connection once the list is used up. *)
Definition scripted (d : list WireOutcome) (_ : Request)
    : WireOutcome * list WireOutcome :=
  match d with
  | o :: rest => (o, rest)
  | [] => (Failure "ECONNREFUSED" "connect ECONNREFUSED", [])
  end.

(** A stand-in for the hash of the runtime, for running the client on
    concrete inputs. *)
Definition toy_hash (s : string) : string :=
  Js.int_toString (Z.of_nat (String.length s)).

Definition sample_cfg : Config :=
  {| deviceIP := Some "192.168.1.64"; username := Some "admin";
     password := Some "secret"; useHttps := false |}.

Definition sample_clock : Node.Date :=
  {| Node.year := 2024; Node.month := 3; Node.day := 7; Node.hours := 9;
     Node.minutes := 5; Node.seconds := 0; Node.milliseconds := 42 |}.

Definition sample_world (d : list WireOutcome) : World (list WireOutcome) :=
  {| dev := d; sent := []; entropy := fun _ => x2a; drawn := 0;
     clock := sample_clock |}.

Definition challenge (h : string) : WireOutcome :=
  Answer {| status := 401; headers := {[ "www-authenticate" := h ]};
            data := "" |}.

Definition digest_challenge : string :=
  "Digest realm=" +:+ Js.quoted "DS-2CD" +:+ ", nonce=" +:+ Js.quoted "abc"
    +:+ ", qop=" +:+ Js.quoted "auth".

Definition plain (code : Z) (payload : string) : WireOutcome :=
  Answer {| status := code; headers := ∅; data := payload |}.

End App.

(** ** Challenge headers in the attribute-value grammar

    A directive is a name, a value and the way the value is written (as a
    quoted string or as a bare token); a challenge is the scheme name
    followed by the directives, separated by a comma and any number of
    spaces. *)

Module Challenge.
Import Regex DigestHeader.

Record directive : Type := {
  d_name : list ascii;
  d_value : list ascii;
  d_quoted : bool;
  d_spaces : nat          (* spaces after the comma that follows *)
}.

Definition render_directive (d : directive) : list ascii :=
  d_name d ++ "="%char ::
    (if d_quoted d then Js.dq :: d_value d ++ [Js.dq] else d_value d).

Fixpoint render_directives (ds : list directive) : list ascii :=
  match ds with
  | [] => []
  | d :: rest =>
      render_directive d ++
        match rest with
        | [] => []
        | _ :: _ => ","%char :: repeat " "%char (d_spaces d)
                      ++ render_directives rest
        end
  end.

Definition render_challenge (ds : list directive) : string :=
  "Digest " +:+ string_of_list_ascii (render_directives ds).

(** A name is a non-empty token of word characters. *)
Definition name_ok (d : directive) : Prop :=
  d_name d ≠ [] ∧ Forall (fun c => is_word c = true) (d_name d).

(** The values the parser returns whole: not empty, and free of commas and
    of both quote characters. *)
Definition value_plain (d : directive) : Prop :=
  d_value d ≠ [] ∧ Forall (fun c => is_value_char c = true) (d_value d).

(** Three challenges to run the parser on: one whose names and values are
    plain, one with an empty quoted realm and a quoted list of two qop
    options, and one with an extension directive whose name has a
    hyphen. *)
Definition word (s : string) : list ascii := list_ascii_of_string s.

Definition plain_challenge : list directive :=
  [ {| d_name := word "realm"; d_value := word "DS-2CD";
       d_quoted := true; d_spaces := 1 |};
    {| d_name := word "nonce"; d_value := word "4e6a63304d6a==";
       d_quoted := true; d_spaces := 1 |};
    {| d_name := word "qop"; d_value := word "auth";
       d_quoted := false; d_spaces := 0 |} ].

Definition comma_challenge : list directive :=
  [ {| d_name := word "realm"; d_value := word "";
       d_quoted := true; d_spaces := 1 |};
    {| d_name := word "nonce"; d_value := word "4e6a63304d6a==";
       d_quoted := true; d_spaces := 1 |};
    {| d_name := word "qop"; d_value := word "auth,auth-int";
       d_quoted := true; d_spaces := 0 |} ].

Definition hyphen_challenge : list directive :=
  [ {| d_name := word "realm"; d_value := word "DS-2CD";
       d_quoted := true; d_spaces := 1 |};
    {| d_name := word "nonce"; d_value := word "4e6a63304d6a==";
       d_quoted := true; d_spaces := 1 |};
    {| d_name := word "qop"; d_value := word "auth";
       d_quoted := true; d_spaces := 1 |};
    {| d_name := word "proxy-realm"; d_value := word "gateway";
       d_quoted := true; d_spaces := 0 |} ].

(** What may follow a directive: the end of the text or a comma. *)
Definition after_ok (rest : list ascii) : Prop :=
  match rest with
  | [] => True
  | c :: _ => c = ","%char
  end.

(** The assignment a directive stands for. *)
Definition record_directive (digest : gmap string string) (d : directive)
    : gmap string string :=
  assign digest (d_name d) (d_value d).

End Challenge.

(** ** Names for the requests of one device call *)

Module Call.
Import Node DigestHeader Hikvision.

Section Requests.
Variable md5 : string -> string.
Variable Dev : Type.
Variable cfg : Config.

(** The first, unauthenticated request of a call. *)
Definition initial_request (method endpoint : string) (data : Body)
    (headers : gmap string string) : Request :=
  {| method := method; url := baseURL cfg +:+ endpoint; body := data;
     req_headers := headers |}.

(** The client nonce of the next call: sixteen bytes of the entropy, in
    hexadecimal. *)
Definition next_cnonce (w : World Dev) : string :=
  toHex (map (fun i => entropy w (drawn w + i)%nat) (seq 0 16)).

(** The request that answers the challenge [h] with client nonce
    [cnonce]. *)
Definition authenticated_request (method endpoint : string) (data : Body)
    (headers : gmap string string) (h cnonce : string) : Request :=
  {| method := method; url := baseURL cfg +:+ endpoint; body := data;
     req_headers :=
       <["Authorization" :=
           digest_header md5 cfg method endpoint (parseDigestHeader h)
                         "00000001" cnonce]> headers |}.

End Requests.

(** A 401 response that carries the Digest challenge [h]. *)
Definition digest_challenge_in (r : HttpResponse) (h : string) : Prop :=
  status r = 401
  /\ headers r !! "www-authenticate" = Some h
  /\ Js.includes "Digest" h = true.

(** A 401 response without a challenge header, or with one in which the
    text Digest occurs nowhere: the test of the client is on the text of
    the header, not on the scheme of the challenge. *)
Definition no_digest_text (r : HttpResponse) : Prop :=
  status r = 401
  /\ match headers r !! "www-authenticate" with
     | None => True
     | Some h => Js.includes "Digest" h = false
     end.

(** The authentication scheme of a challenge: the text of the header up
    to its first space. *)
Definition challenge_scheme (h : string) : string := split_head " " h.

(** A 401 response whose one challenge [h] is of another scheme than
    Digest. *)
Definition other_scheme_challenge (r : HttpResponse) (h : string) : Prop :=
  status r = 401
  /\ headers r !! "www-authenticate" = Some h
  /\ challenge_scheme h <> "Digest"
  /\ lacks "," h = true.

(** The error of the HTTP library for a response whose status the
    validation rejects. *)
Definition status_error (r : HttpResponse) : JsError :=
  {| message := "Request failed with status code "
                  +:+ Js.int_toString (status r);
     code := status_error_code (status r);
     response := Some r |}.

(** The request that [enrollFace] starts with. *)
Definition enroll_request (cfg : Config) (fd : FaceData) : Request :=
  {| method := "POST";
     url := baseURL cfg +:+ "/ISAPI/Intelligent/FDLib/FDSet";
     body := JsonBody fd;
     req_headers := <["Content-Type" := "application/json"]>
                      (<["Accept" := "application/json"]> ∅) |}.

(** The error that leaves [makeAuthenticatedRequest] when [error] reaches
    its catch block. *)
Definition rethrown (cfg : Config) (error : JsError) : JsError :=
  if decide (code error = Some "ECONNREFUSED") then
    Error ("Cannot connect to Hikvision device at "
             +:+ Js.template (deviceIP cfg))
  else if decide (code error = Some "ETIMEDOUT") then
    Error ("Connection timeout to Hikvision device at "
             +:+ Js.template (deviceIP cfg))
  else error.

Definition transport_error (c msg : string) : JsError :=
  {| message := msg; code := Some c; response := None |}.

Definition unsupported : JsError :=
  Error "Device does not support Digest authentication".

(** The errors that leave a call: the unsupported-authentication error
    of a 401 without the text Digest, the error of an answer whose status
    is not 2xx (after the challenge, or at once when it is no 401), and
    the error of a transport that gave no answer, as the catch block of
    the call passes it on. *)
Definition device_failure (cfg : Config) (e : JsError) : Prop :=
  e = unsupported
  \/ (exists r, e = status_error r /\ validate_2xx (status r) = false)
  \/ (exists c msg, e = rethrown cfg (transport_error c msg)).

(** What a public operation [op] returns of the call [call] that it makes:
    on every world the envelope is returned, not thrown, in the world that
    the call leaves. When the call returned a response, which then has a
    2xx status, [success] is true, there is no error, and the envelope
    carries the data of the response; when the call threw, which then is
    a device failure, [success] is false, the error is the message of
    what was thrown, and the envelope carries no data. *)
Definition returns_envelope {Dev} (cfg : Config)
    (call : M Dev HttpResponse) (op : M Dev Envelope) : Prop :=
  forall w : World Dev,
    exists env,
      op w = (Ok env, snd (call w))
      /\ match fst (call w) with
         | Ok r =>
             200 <= status r < 300
             /\ success env = true
             /\ env_error env = None
             /\ (env_data env = Some (data r)
                 \/ env_deviceInfo env = Some (data r))
         | Throw e =>
             device_failure cfg e
             /\ success env = false
             /\ env_error env = Some (message e)
             /\ env_data env = None
             /\ env_deviceInfo env = None
         end.

End Call.

(** ** Names for the steps and outcomes of an enrollment *)

Module Workflow.
Import Hikvision Store Server App.

(** The face keys that the subject's link rows point at. *)
Definition subject_face_ids (personaID : Z) (st : Store) : list Z :=
  map pf_facialID (perface_findMany personaID st).

(** The row that the persist step inserts, and the store it commits. *)
Definition new_face (buf : list byte) (st : Store) : Face :=
  {| facialID := face_seq st; templateData := Some buf; activo := true |}.

Definition committed (personaID : Z) (buf : list byte) (st : Store) : Store :=
  {| per := per st;
     face := map (deactivate (subject_face_ids personaID st)) (face st)
               ++ [new_face buf st];
     perface := perface st ++ [{| pf_personaID := personaID;
                                  pf_facialID := face_seq st |}];
     face_seq := face_seq st + 1 |}.

(** A face row of [st] that is active there and inactive in [st']. *)
Definition turned_off (st st' : Store) (f : Face) : bool :=
  activo f &&
  match face_find (facialID f) st' with
  | Some f' => negb (activo f')
  | None => false
  end.

Definition count_turned_off (st st' : Store) : Z :=
  Z.of_nat (length (filter (fun f => turned_off st st' f = true) (face st))).

(** The mirror step failed: the client returned an envelope whose
    [success] is false, or threw. *)
Definition mirror_failed (outcome : Result Envelope) : Prop :=
  match outcome with
  | Ok r => success r = false
  | Throw _ => True
  end.

(** The error the route records for a failed mirror step. *)
Definition mirror_error (outcome : Result Envelope) : option string :=
  match outcome with
  | Ok r => env_error r
  | Throw e => Some (message e)
  end.

(** The name under which the route enrolls a subject on the device. *)
Definition mirror_name (personaID : Z) (persona : Per) : string :=
  Js.or_default
    (Some (Js.trim (Js.or_default (nombre persona) "" +:+ " "
                      +:+ Js.or_default (apellido persona) "")))
    ("Person_" +:+ Js.int_toString personaID).

(** The [message] property of what the client returned, if any. *)
Definition mirror_message (outcome : Result Envelope) : option string :=
  match outcome with
  | Ok r => env_message r
  | Throw _ => None
  end.

(** Subject 7 with two active faces, as in the scenario of the
    specification; and the same subject after one enrollment. *)
Definition store7 : Store :=
  {| per := [ {| personaID := 7; nombre := Some "Ana";
                 apellido := Some "Ruiz" |} ];
     face := [ {| facialID := 1; templateData := None; activo := true |};
               {| facialID := 2; templateData := None; activo := true |} ];
     perface := [ {| pf_personaID := 7; pf_facialID := 1 |};
                  {| pf_personaID := 7; pf_facialID := 2 |} ];
     face_seq := 3 |}.

Definition jpeg_upload : Upload :=
  {| mimetype := "image/jpeg"; buffer := [xff; xd8; xff; xe0] |}.

Definition png_upload : Upload :=
  {| mimetype := "image/png"; buffer := [x89; x50; x4e; x47] |}.

Definition store7_enrolled : Store := committed 7 (buffer jpeg_upload) store7.

(** The route on the sample configuration, against a scripted device. *)
Definition sample_route (personaID : Z) (image : option Upload) (st : Store)
    (script : list WireOutcome) : Run (World (list WireOutcome)) :=
  enroll_route toy_hash (list WireOutcome) scripted sample_cfg
    personaID image st (sample_world script).

Definition sample_enrollFace
    : Z -> list byte -> string -> World (list WireOutcome)
      -> Result Envelope * World (list WireOutcome) :=
  enrollFace toy_hash (list WireOutcome) scripted sample_cfg.

(** Three runs of the route against a device that refuses the connection:
    the scenario of the specification, a request for a subject that does
    not exist, and a further enrollment of subject 7. *)
Definition scenario_run : Run (World (list WireOutcome)) :=
  enroll_handler _ sample_enrollFace 7 (Some jpeg_upload) store7
    (sample_world []).

Definition unknown_run : Run (World (list WireOutcome)) :=
  post_enroll _ sample_enrollFace 99 (Some jpeg_upload) store7
    (sample_world []).

Definition second_run : Run (World (list WireOutcome)) :=
  sample_route 7 (Some jpeg_upload) store7_enrolled [].

Definition persona7 : Per :=
  {| personaID := 7; nombre := Some "Ana"; apellido := Some "Ruiz" |}.

(** The answers of a device that challenges and then refuses the
    credentials, and of one that answers 401 without a challenge. *)
Definition challenge_response : HttpResponse :=
  {| status := 401;
     headers := {[ "www-authenticate" := digest_challenge ]};
     data := "" |}.

Definition bare_401 : HttpResponse :=
  {| status := 401; headers := ∅; data := "" |}.

Definition refusing_device : list WireOutcome :=
  [Answer challenge_response; Answer bare_401].

(** A device that asks for Basic authentication in a realm named Digest,
    and accepts what it is sent next. *)
Definition basic_challenge : string := "Basic realm=" +:+ Js.quoted "Digest".

Definition basic_401 : HttpResponse :=
  {| status := 401;
     headers := {[ "www-authenticate" := basic_challenge ]};
     data := "" |}.

Definition basic_device : list WireOutcome :=
  [Answer basic_401; plain 200 "ok"].

End Workflow.

(** ** The list route of the server *)

Module Listing.
Import Hikvision Store.

(** [const limit = 18]. *)
Definition limit : Z := 18.

(** [parseInt(req.query.page) || 1], on the result of [parseInt]: [None]
    is [NaN], which is falsy as zero is. *)
Definition page_of (parsed : option Z) : Z :=
  match parsed with
  | Some p => if p =? 0 then 1 else p
  | None => 1
  end.

(** The [where] of the route: no condition for an empty search text,
    otherwise the text in the first name or in the last name. The test
    [contains] with [mode: 'insensitive'] is the store's: it is given a
    column, which may be null, and the search text. *)
Definition where_matches (contains : option string -> string -> bool)
    (search : string) (p : Per) : bool :=
  if String.eqb search "" then true
  else contains (nombre p) search || contains (apellido p) search.

(** One element of [personas] in the response and the [pagination]
    object. *)
Record PersonaRow : Type := {
  row_persona : Per;
  activeFaces : Z;
  totalFaces : Z
}.

Record Pagination : Type := {
  currentPage : Z;
  totalPages : Z;
  totalItems : Z;
  hasNext : bool;
  hasPrev : bool
}.

Inductive ListReply : Type :=
| ListOk (personas : list PersonaRow) (pagination : Pagination)
| ListError (code : Z) (error : string).

(** [persona.faces] are the link rows of the subject, each with its face,
    which the foreign key of the schema guarantees to exist. *)
Definition persona_row (st : Store) (p : Per) : PersonaRow :=
  {| row_persona := p;
     activeFaces := perface_count (personaID p) true st;
     totalFaces := Z.of_nat (length (perface_findMany (personaID p) st)) |}.

Section Ordered.

(** The text test and [orderBy: [{ nombre: 'asc' }, { apellido: 'asc' }]]
    are the store's, under its collation: the route is verified for every
    test and every ordering. *)
Variable contains : option string -> string -> bool.
Variable order : list Per -> list Per.

(** [app.get('/api/personas', ...)]: [page_param] is the result of
    [parseInt] on the page parameter and [search_param] the search
    parameter. The store refuses a negative [skip], and the route answers
    any failure of its queries with the 500. [Math.ceil(total / limit)]
    is written with the integer quotient. *)
Definition get_personas (page_param : option Z) (search_param : option string)
    (st : Store) : ListReply :=
  let page := page_of page_param in
  let search := Js.or_default search_param "" in
  let skip := (page - 1) * limit in
  if skip <? 0 then ListError 500 "Internal server error"
  else
    let found :=
      filter (fun p => where_matches contains search p = true) (per st) in
    let personas :=
      take (Z.to_nat limit) (drop (Z.to_nat skip) (order found)) in
    let total := Z.of_nat (length found) in
    let totalPages := (total + limit - 1) / limit in
    ListOk (map (persona_row st) personas)
           {| currentPage := page;
              totalPages := totalPages;
              totalItems := total;
              hasNext := page <? totalPages;
              hasPrev := 1 <? page |}.

(** The rows of the pages [1 .. n], one after the other. *)
Fixpoint pages_upto (n : nat) (search_param : option string) (st : Store)
    : list PersonaRow :=
  match n with
  | O => []
  | S k =>
      pages_upto k search_param st ++
        match get_personas (Some (Z.of_nat (S k))) search_param st with
        | ListOk personas _ => personas
        | ListError _ _ => []
        end
  end.

End Ordered.

End Listing.

(** ** The device and health routes of the server *)

Module Portal.
Import Hikvision Store.

Record DeviceReply : Type := {
  dr_status : Z;
  dr_body : Envelope
}.

Record HealthReply : Type := {
  health_code : Z;
  health_status : string;
  health_database : string;
  health_configured : bool;
  health_connected : bool;
  health_device : string
}.

Section Routes.
Variable md5 : string -> string.
Variable Dev : Type.
Variable wire : Dev -> Request -> WireOutcome * Dev.
Variable cfg : Config.

(** The three routes that hand the result of a device operation to the
    caller: the envelope as the response, or the 500 with [failure] when
    the operation throws. *)
Definition device_route (op : M Dev Envelope) (failure : string)
    (w : World Dev) : DeviceReply * World Dev :=
  match op w with
  | (Ok result, w') => ({| dr_status := 200; dr_body := result |}, w')
  | (Throw e, w') =>
      ({| dr_status := 500;
          dr_body := {| success := false; env_data := None;
                        env_deviceInfo := None; env_status := None;
                        env_message := None; env_error := Some failure;
                        env_details := Some (message e) |} |}, w')
  end.

Definition get_hikvision_status : World Dev -> DeviceReply * World Dev :=
  device_route (testConnection md5 Dev wire cfg)
               "Failed to test Hikvision connection".

Definition get_hikvision_capabilities
    : World Dev -> DeviceReply * World Dev :=
  device_route (getDeviceCapabilities md5 Dev wire cfg)
               "Failed to get device capabilities".

Definition get_hikvision_database : World Dev -> DeviceReply * World Dev :=
  device_route (getFaceDatabase md5 Dev wire cfg)
               "Failed to get face database info".

(** What a device route answers of the call [call] that its operation
    makes: the 200, in the world that the call leaves, with a body that
    tells what became of the call. When the call returned a response,
    which then has a 2xx status, [success] is true, there is no error and
    the body carries the data of the response; when the call threw,
    [success] is false, the error is the message of what was thrown, and
    the body carries no data. *)
Definition hands_on (call : M Dev HttpResponse)
    (route : World Dev -> DeviceReply * World Dev) : Prop :=
  forall w : World Dev,
    let result := dr_body (fst (route w)) in
    dr_status (fst (route w)) = 200
    /\ snd (route w) = snd (call w)
    /\ match fst (call w) with
       | Ok r =>
           200 <= status r < 300
           /\ success result = true
           /\ env_error result = None
           /\ (env_data result = Some (data r)
               \/ env_deviceInfo result = Some (data r))
       | Throw e =>
           success result = false
           /\ env_error result = Some (message e)
           /\ env_data result = None
           /\ env_deviceInfo result = None
       end.

(** [!!(HIKVISION_DEVICE_IP && HIKVISION_USERNAME)] and
    [HIKVISION_DEVICE_IP || 'not configured']. *)
Definition configured : bool :=
  Js.truthy (deviceIP cfg) && Js.truthy (username cfg).

Definition device_label : string :=
  Js.or_default (deviceIP cfg) "not configured".

Definition unhealthy : HealthReply :=
  {| health_code := 500; health_status := "unhealthy";
     health_database := "disconnected"; health_configured := configured;
     health_connected := false; health_device := device_label |}.

(** [app.get('/api/health', ...)]: [db_up] tells whether the store
    answers the probe [SELECT 1]. *)
Definition get_health (db_up : bool) (w : World Dev)
    : HealthReply * World Dev :=
  if db_up then
    match testConnection md5 Dev wire cfg w with
    | (Ok hikvisionStatus, w') =>
        ({| health_code := 200; health_status := "healthy";
            health_database := "connected"; health_configured := configured;
            health_connected := success hikvisionStatus;
            health_device := device_label |}, w')
    | (Throw _, w') => (unhealthy, w')
    end
  else (unhealthy, w).

End Routes.

End Portal.

(** ** The upload handler and the page footer of the user interface *)

Module Ui.
Import Hikvision Store Server.

Inductive MessageType : Type :=
| msg_success
| msg_error
| msg_warning.

Record Message : Type := {
  msg_type : MessageType;
  msg_text : string
}.

(** [response.ok]. *)
Definition response_ok (r : Reply) : bool :=
  (200 <=? reply_status r) && (reply_status r <? 300).

(** The message that [handleUpload] shows for what [fetch] returned;
    [None] is a rejected [fetch]. A body without the [hikvision] object
    makes the handler throw, which its catch block reports. *)
Definition upload_message (fetched : option Reply) : Message :=
  match fetched with
  | None => {| msg_type := msg_error; msg_text := "Failed to upload image" |}
  | Some response =>
      if response_ok response then
        match reply_body response with
        | EnrollReply _ _ _ deactivatedFaces hikvision =>
            let message :=
              "Face enrolled to database successfully! Deactivated "
                +:+ Js.int_toString deactivatedFaces
                +:+ " previous faces." in
            if hk_success hikvision then
              {| msg_type := msg_success;
                 msg_text :=
                   message +:+ " Also enrolled to Hikvision device." |}
            else
              {| msg_type := msg_warning;
                 msg_text := message
                               +:+ " Warning: Device enrollment failed - "
                               +:+ hk_message hikvision |}
        | ErrorReply _ =>
            {| msg_type := msg_error; msg_text := "Failed to upload image" |}
        end
      else
        match reply_body response with
        | ErrorReply e =>
            {| msg_type := msg_error;
               msg_text := Js.or_default (Some e) "Upload failed" |}
        | EnrollReply _ _ _ _ _ =>
            {| msg_type := msg_error; msg_text := "Upload failed" |}
        end
  end.

(** The footer [Showing a to b of n people]: it is drawn when there is
    more than one page. *)
Definition footer_shown (pg : Listing.Pagination) : bool :=
  1 <? Listing.totalPages pg.

Definition showing_from (pg : Listing.Pagination) : Z :=
  (Listing.currentPage pg - 1) * 18 + 1.

Definition showing_to (pg : Listing.Pagination) : Z :=
  Z.min (Listing.currentPage pg * 18) (Listing.totalItems pg).

End Ui.

(** ** Names for the states of the store over several requests *)

Module Histories.
Import Hikvision Store Server Workflow.

(** The tables hold the same rows. *)
Definition same_rows (a b : Store) : Prop :=
  per a = per b /\ face a = face b /\ perface a = perface b.

(** No subject has more than one active face. *)
Definition one_active_each (st : Store) : Prop :=
  forall personaID, perface_count personaID true st <= 1.

(** The number of faces linked to a subject. *)
Definition link_count (personaID : Z) (st : Store) : Z :=
  Z.of_nat (length (perface_findMany personaID st)).

(** The [deactivatedFaces] field of a response, when it has one. *)
Definition reported_deactivated (r : Reply) : option Z :=
  match reply_body r with
  | EnrollReply _ _ _ n _ => Some n
  | ErrorReply _ => None
  end.

Section Repeated.
Variable W : Type.
Variable svc_enrollFace : Z -> list byte -> string -> W -> Result Envelope * W.

(** The uploads of a list enrolled for one subject, one request after the
    other. *)
Fixpoint enroll_many (personaID : Z) (uploads : list Upload)
    (st : Store) (w : W) : Store * W :=
  match uploads with
  | [] => (st, w)
  | file :: rest =>
      let run := enroll_handler W svc_enrollFace personaID (Some file) st w in
      enroll_many personaID rest (store_after run) (world_after run)
  end.

End Repeated.

(** Two subjects that share face 1; subject 8 has no other face. *)
Definition shared_store : Store :=
  {| per := [ {| personaID := 7; nombre := Some "Ana";
                 apellido := Some "Ruiz" |};
              {| personaID := 8; nombre := Some "Luis"; apellido := None |} ];
     face := [ {| facialID := 1; templateData := None; activo := true |} ];
     perface := [ {| pf_personaID := 7; pf_facialID := 1 |};
                  {| pf_personaID := 8; pf_facialID := 1 |} ];
     face_seq := 2 |}.

End Histories.

(** ** Names for the texts the parser returns *)

Module Parsed.
Import Regex DigestHeader Node Challenge.

(** A key of the parsed object: a non-empty text of word characters. *)
Definition key_ok (k : string) : Prop :=
  k <> "" /\ all_chars is_word k = true.

(** A value of the parsed object: a non-empty text free of commas and of
    both quote characters. *)
Definition value_ok (v : string) : Prop :=
  v <> "" /\ all_chars is_value_char v = true.

(** Every entry of an object has such a key and such a value. *)
Definition entries_ok (m : gmap string string) : Prop :=
  forall k v, m !! k = Some v -> key_ok k /\ value_ok v.

(** Some directive of [later] bears the name of [d]. *)
Definition named_later (d : directive) (later : list directive) : Prop :=
  Exists (fun d' => d_name d' = d_name d) later.

Definition repeated_challenge : list directive :=
  [ {| d_name := word "nonce"; d_value := word "first";
       d_quoted := true; d_spaces := 1 |};
    {| d_name := word "realm"; d_value := word "DS-2CD";
       d_quoted := true; d_spaces := 1 |};
    {| d_name := word "nonce"; d_value := word "second";
       d_quoted := true; d_spaces := 0 |} ].

End Parsed.

(** ** Sample devices, stores and requests *)

Module Samples.
Import Node DigestHeader Hikvision Store Server App Call Workflow Histories.
Import Listing Challenge Parsed.

(** The store returns its rows in the order it holds them. *)
Definition stored_order (l : list Per) : list Per := l.

(** A text test for ASCII names: the search text occurs in the column,
    letter case apart; a null column does not match. *)
Definition to_lower (c : ascii) : ascii :=
  let n := nat_of_ascii c in
  if ((65 <=? n) && (n <=? 90))%nat then ascii_of_nat (n + 32) else c.

Fixpoint lower (s : string) : string :=
  match s with
  | EmptyString => EmptyString
  | String c t => String (to_lower c) (lower t)
  end.

Definition contains_insensitive (field : option string) (search : string)
    : bool :=
  match field with
  | Some v => Js.includes (lower search) (lower v)
  | None => false
  end.

Definition ok_response : HttpResponse :=
  {| status := 200; headers := ∅; data := "ok" |}.

Definition missing_response : HttpResponse :=
  {| status := 404; headers := ∅; data := "" |}.

Definition bare_challenge_response : HttpResponse :=
  {| status := 401; headers := {[ "www-authenticate" := "Digest" ]};
     data := "" |}.

(** The first request of the connection test on the sample
    configuration, and the calls of the client on scripted devices. *)
Definition info_request : Request :=
  initial_request sample_cfg "GET" "/ISAPI/System/deviceInfo" NoBody ∅.

Definition info_call (script : list WireOutcome)
    : Result HttpResponse * World (list WireOutcome) :=
  makeAuthenticatedRequest toy_hash (list WireOutcome) scripted sample_cfg
    "GET" "/ISAPI/System/deviceInfo" NoBody ∅ (sample_world script).

Definition enroll7_call (script : list WireOutcome)
    : Result Envelope * World (list WireOutcome) :=
  sample_enrollFace 7 (buffer jpeg_upload) "Ana Ruiz" (sample_world script).

(** Requests to the route for subject 7, against a device that refuses
    the connection. *)
Definition route7 (image : option Upload) (st : Store)
    : Run (World (list WireOutcome)) :=
  post_enroll _ sample_enrollFace 7 image st (sample_world []).

Definition two_uploads : list Upload := [jpeg_upload; png_upload].

Definition gif_upload : Upload :=
  {| mimetype := "image/gif"; buffer := buffer jpeg_upload |}.

Definition face1 : Face :=
  {| facialID := 1; templateData := None; activo := true |}.

Definition realm_directive : directive :=
  {| d_name := word "realm"; d_value := word "DS-2CD";
     d_quoted := true; d_spaces := 1 |}.

Definition second_nonce : directive :=
  {| d_name := word "nonce"; d_value := word "second";
     d_quoted := true; d_spaces := 0 |}.

End Samples.

(** * Properties *)

(** ** The matcher *)

Module RegexFacts.
Import Regex.

Lemma star_run {A} (p : ascii -> bool) (v rest : list ascii)
    (k : list ascii -> option A) (a : A) :
  Forall (fun c => p c = true) v ->
  k rest = Some a ->
  stops p rest ->
  star p (v ++ rest) k = Some a.
Proof.
  intros Hv Hk Hstop. induction Hv as [|c v Hc _ IH]; simpl.
  - destruct rest as [|c t]; simpl; [exact Hk|].
    simpl in Hstop. rewrite Hstop. exact Hk.
  - rewrite Hc, IH. reflexivity.
Qed.

Lemma plus_run {A} (p : ascii -> bool) (v rest : list ascii)
    (k : list ascii -> option A) (a : A) :
  v <> [] ->
  Forall (fun c => p c = true) v ->
  k rest = Some a ->
  stops p rest ->
  plus p (v ++ rest) k = Some a.
Proof.
  intros Hne Hv Hk Hstop. destruct v as [|c v]; [congruence|].
  inversion Hv as [|? ? Hc Hv']; subst. simpl. rewrite Hc.
  now apply star_run.
Qed.

Lemma plus_stops {A} (p : ascii -> bool) (s : list ascii)
    (k : list ascii -> option A) :
  stops p s -> plus p s k = None.
Proof.
  destruct s as [|c t]; simpl; [reflexivity|]. now intros ->.
Qed.

Lemma take_app_length_diff {A} (l1 l2 : list A) :
  take (length (l1 ++ l2) - length l2) (l1 ++ l2) = l1.
Proof.
  rewrite length_app.
  replace (length l1 + length l2 - length l2)%nat with (length l1) by lia.
  apply take_app_length.
Qed.

End RegexFacts.

Module ParserFacts.
Import Regex DigestHeader Challenge RegexFacts.

Lemma value_char_not_quote c : is_value_char c = true -> is_quote c = false.
Proof.
  unfold is_value_char. destruct (is_quote c); simpl; congruence.
Qed.

Lemma after_ok_stops_value rest :
  after_ok rest -> stops is_value_char rest.
Proof. destruct rest as [|c t]; simpl; [easy|]. now intros ->. Qed.

Lemma match_directive (d : directive) (rest : list ascii) :
  name_ok d -> value_plain d -> after_ok rest ->
  match_here digest_regex (render_directive d ++ rest)
  = Some (<[2%nat := d_value d]> (<[1%nat := d_name d]> ∅), rest).
Proof.
  intros [Hn1 Hn2] [Hv1 Hv2] Hrest.
  unfold match_here, digest_regex, render_directive.
  rewrite <- app_assoc. cbn [rmatch].
  apply plus_run; [assumption|assumption| |reflexivity].
  rewrite take_app_length_diff.
  destruct (d_quoted d); simpl.
  - rewrite <- app_assoc. simpl.
    erewrite plus_run; [reflexivity|assumption|assumption| |reflexivity].
    simpl. change (S (length rest)) with (length (Js.dq :: rest)).
    now rewrite take_app_length_diff.
  - destruct (d_value d) as [|c v] eqn:Ev; [congruence|].
    simpl. inversion Hv2 as [|? ? Hc Hv']; subst.
    rewrite (value_char_not_quote _ Hc), Hc.
    erewrite star_run;
      [reflexivity|assumption| |now apply after_ok_stops_value].
    change (S (length (v ++ rest))) with (length ((c :: v) ++ rest)).
    change (c :: (v ++ rest)%list) with ((c :: v) ++ rest)%list.
    rewrite take_app_length_diff.
    destruct rest as [|r rest']; [reflexivity|].
    simpl in Hrest. subst r. reflexivity.
Qed.

(** The search loop: skipping the characters of a match, recording a
    match, moving past a character that cannot start one. *)
Lemma exec_loop_skip (pre rest : list ascii) (digest : gmap string string) :
  exec_loop (length pre) (pre ++ rest) digest = exec_loop 0 rest digest.
Proof.
  induction pre as [|c pre IH]; simpl; [|exact IH].
  destruct rest; reflexivity.
Qed.

Lemma exec_loop_match (pre rest : list ascii) (caps : captures)
    (digest : gmap string string) :
  pre <> [] ->
  match_here digest_regex (pre ++ rest) = Some (caps, rest) ->
  exec_loop 0 (pre ++ rest) digest
  = exec_loop 0 rest (record_match digest caps).
Proof.
  intros Hne Hm. destruct pre as [|c pre]; [congruence|].
  change (exec_loop 0 ((c :: pre) ++ rest) digest) with
    (match match_here digest_regex ((c :: pre) ++ rest) with
     | Some (caps, rest') =>
         exec_loop (length ((c :: pre) ++ rest) - length rest' - 1)
                   (pre ++ rest) (record_match digest caps)
     | None => exec_loop 0 (pre ++ rest) digest
     end).
  rewrite Hm. rewrite length_app. simpl length.
  replace (S (length pre) + length rest - length rest - 1)%nat
    with (length pre) by lia.
  apply exec_loop_skip.
Qed.

Lemma exec_loop_no_start (c : ascii) (t : list ascii)
    (digest : gmap string string) :
  is_word c = false ->
  exec_loop 0 (c :: t) digest = exec_loop 0 t digest.
Proof.
  intros Hc. simpl. unfold match_here, digest_regex. cbn [rmatch].
  rewrite plus_stops by exact Hc. reflexivity.
Qed.

Lemma exec_loop_spaces (n : nat) (t : list ascii)
    (digest : gmap string string) :
  exec_loop 0 (repeat " "%char n ++ t) digest = exec_loop 0 t digest.
Proof.
  induction n as [|n IH]; [reflexivity|].
  simpl repeat. rewrite <- app_comm_cons.
  rewrite exec_loop_no_start by reflexivity. exact IH.
Qed.

Lemma render_directive_nonempty (d : directive) : render_directive d <> [].
Proof. unfold render_directive. destruct (d_name d); discriminate. Qed.

Lemma record_match_directive (digest : gmap string string) (d : directive) :
  record_match digest (<[2%nat := d_value d]> (<[1%nat := d_name d]> ∅))
  = record_directive digest d.
Proof.
  unfold record_match, record_directive.
  rewrite lookup_insert_ne by discriminate.
  now rewrite !lookup_insert_eq.
Qed.

Lemma exec_loop_directives (ds : list directive)
    (digest : gmap string string) :
  Forall name_ok ds -> Forall value_plain ds ->
  exec_loop 0 (render_directives ds) digest
  = foldl record_directive digest ds.
Proof.
  revert digest. induction ds as [|d ds IH]; intros digest Hn Hv.
  - reflexivity.
  - inversion Hn as [|? ? Hn1 Hn2]; inversion Hv as [|? ? Hv1 Hv2]; subst.
    simpl render_directives. simpl foldl.
    destruct ds as [|d' ds'].
    + rewrite (exec_loop_match _ [] _ digest (render_directive_nonempty d)
                 (match_directive d [] Hn1 Hv1 I)).
      rewrite record_match_directive. reflexivity.
    + set (more := render_directives (d' :: ds')) in *.
      rewrite (exec_loop_match _ _ _ digest (render_directive_nonempty d)
                 (match_directive d (","%char :: repeat " "%char (d_spaces d)
                                       ++ more) Hn1 Hv1 eq_refl)).
      rewrite record_match_directive.
      rewrite exec_loop_no_start by reflexivity.
      rewrite exec_loop_spaces.
      rewrite IH by assumption. reflexivity.
Qed.

Lemma list_ascii_of_string_app (s1 s2 : string) :
  list_ascii_of_string (s1 +:+ s2)
  = (list_ascii_of_string s1 ++ list_ascii_of_string s2)%list.
Proof. induction s1 as [|c s1 IH]; simpl; [reflexivity|]. now rewrite IH. Qed.

Lemma exec_loop_scheme (s : list ascii) (digest : gmap string string) :
  exec_loop 0 (list_ascii_of_string "Digest " ++ s) digest
  = exec_loop 0 s digest.
Proof. reflexivity. Qed.

Lemma parse_render_challenge (ds : list directive) :
  Forall name_ok ds -> Forall value_plain ds ->
  parseDigestHeader (render_challenge ds) = foldl record_directive ∅ ds.
Proof.
  intros Hn Hv. unfold parseDigestHeader, render_challenge.
  rewrite list_ascii_of_string_app, list_ascii_of_string_of_list_ascii.
  rewrite exec_loop_scheme. now apply exec_loop_directives.
Qed.

(** Reading a name back from the recorded directives. *)
Lemma foldl_record_lookup (ds : list directive) (digest : gmap string string)
    (d : directive) :
  d ∈ ds ->
  string_of_list_ascii (d_name d) <> "__proto__" ->
  NoDup (map d_name ds) ->
  foldl record_directive digest ds !! string_of_list_ascii (d_name d)
  = Some (string_of_list_ascii (d_value d)).
Proof.
  intros Hin Hproto Huniq.
  induction ds as [|d' ds IH] using rev_ind; [inversion Hin|].
  rewrite map_app in Huniq. apply NoDup_app in Huniq as (Hnd & Hfresh & _).
  rewrite foldl_app. simpl. unfold record_directive at 1, assign.
  apply elem_of_app in Hin as [Hin|Hin].
  - assert (Hname : d_name d' <> d_name d).
    { intros E. apply (Hfresh (d_name d)).
      - apply list_elem_of_fmap. now exists d.
      - rewrite <- E. simpl. apply list_elem_of_here. }
    assert (Hkey : string_of_list_ascii (d_name d')
                   <> string_of_list_ascii (d_name d)).
    { intros E. apply Hname.
      rewrite <- (list_ascii_of_string_of_list_ascii (d_name d')), E.
      apply list_ascii_of_string_of_list_ascii. }
    destruct (String.eqb _ "__proto__").
    + now apply IH.
    + rewrite lookup_insert_ne by exact Hkey. now apply IH.
  - apply list_elem_of_singleton in Hin. subst d'.
    rewrite (proj2 (String.eqb_neq _ _) Hproto). apply lookup_insert_eq.
Qed.

(** C5 (as amended): for a Digest challenge in the attribute-value grammar
    whose directive names are distinct tokens of letters, digits and
    underscores and whose values are not empty and hold no comma, no
    double quote and no single quote, whether written quoted or bare,
    [parseDigestHeader] returns every directive (realm, nonce and qop
    among them) with its exact value. *)
Theorem parseDigestHeader_plain_values (ds : list directive) (d : directive) :
  Forall name_ok ds ->
  Forall value_plain ds ->
  NoDup (map d_name ds) ->
  d ∈ ds ->
  string_of_list_ascii (d_name d) <> "__proto__" ->
  parseDigestHeader (render_challenge ds) !! string_of_list_ascii (d_name d)
  = Some (string_of_list_ascii (d_value d)).
Proof.
  intros Hn Hv Huniq Hin Hproto.
  rewrite parse_render_challenge by assumption.
  now apply foldl_record_lookup.
Qed.

Lemma plain_challenge_names : Forall name_ok plain_challenge.
Proof. repeat constructor; discriminate. Qed.

Lemma plain_challenge_values : Forall value_plain plain_challenge.
Proof. repeat constructor; discriminate. Qed.

Lemma plain_challenge_distinct : NoDup (map d_name plain_challenge).
Proof. apply (bool_decide_unpack _). vm_compute. exact I. Qed.

Lemma parseDigestHeader_plain_values_witness :
  parseDigestHeader (render_challenge plain_challenge) !! "realm"
    = Some "DS-2CD"
  /\ parseDigestHeader (render_challenge plain_challenge) !! "nonce"
    = Some "4e6a63304d6a=="
  /\ parseDigestHeader (render_challenge plain_challenge) !! "qop"
    = Some "auth".
Proof.
  split; [|split].
  - apply (parseDigestHeader_plain_values plain_challenge
             {| d_name := word "realm"; d_value := word "DS-2CD";
                d_quoted := true; d_spaces := 1 |});
      [exact plain_challenge_names | exact plain_challenge_values
      | exact plain_challenge_distinct | apply list_elem_of_here
      | discriminate].
  - apply (parseDigestHeader_plain_values plain_challenge
             {| d_name := word "nonce"; d_value := word "4e6a63304d6a==";
                d_quoted := true; d_spaces := 1 |});
      [exact plain_challenge_names | exact plain_challenge_values
      | exact plain_challenge_distinct
      | apply list_elem_of_further, list_elem_of_here
      | discriminate].
  - apply (parseDigestHeader_plain_values plain_challenge
             {| d_name := word "qop"; d_value := word "auth";
                d_quoted := false; d_spaces := 0 |});
      [exact plain_challenge_names | exact plain_challenge_values
      | exact plain_challenge_distinct
      | apply list_elem_of_further, list_elem_of_further, list_elem_of_here
      | discriminate].
Defined.

(** C5 (as stated) fails: in a well-formed challenge whose realm is the
    empty quoted string and whose qop is the quoted list of two options,
    the parser returns no realm at all and cuts qop at the comma; and in
    a challenge with an extension directive named proxy-realm, the value
    of that directive is returned as the realm. *)
Lemma parseDigestHeader_quoted_comma_counterexample :
  NoDup (map d_name comma_challenge)
  /\ parseDigestHeader (render_challenge comma_challenge) !! "realm" = None
  /\ parseDigestHeader (render_challenge comma_challenge) !! "qop"
     = Some "auth"
  /\ parseDigestHeader (render_challenge comma_challenge) !! "qop"
     <> Some "auth,auth-int"
  /\ NoDup (map d_name hyphen_challenge)
  /\ parseDigestHeader (render_challenge hyphen_challenge) !! "realm"
     = Some "gateway"
  /\ parseDigestHeader (render_challenge hyphen_challenge) !! "realm"
     <> Some "DS-2CD".
Proof.
  split; [apply (bool_decide_unpack _); vm_compute; exact I|].
  split; [vm_compute; reflexivity|].
  split; [vm_compute; reflexivity|].
  split; [vm_compute; discriminate|].
  split; [apply (bool_decide_unpack _); vm_compute; exact I|].
  split; [vm_compute; reflexivity|].
  vm_compute. discriminate.
Qed.

End ParserFacts.

(** ** The device client *)

Module ClientFacts.
Import Node DigestHeader Hikvision Call.

Lemma hex_digit_lower (n : N) :
  (n < 16)%N -> is_lower_hex (hex_digit n) = true.
Proof.
  intros Hn.
  assert (H : forallb (fun m => is_lower_hex (hex_digit m))
                      (map N.of_nat (seq 0 16)) = true)
    by (vm_compute; reflexivity).
  rewrite forallb_forall in H. apply H.
  apply in_map_iff. exists (N.to_nat n). split; [apply N2Nat.id|].
  apply in_seq. lia.
Qed.

Lemma toHex_lower (bs : list byte) : all_chars is_lower_hex (toHex bs) = true.
Proof.
  induction bs as [|b bs IH]; [reflexivity|].
  cbn [toHex all_chars]. pose proof (Byte.to_N_bounded b) as Hb.
  rewrite !hex_digit_lower, IH; [reflexivity| |].
  - apply N.mod_lt. discriminate.
  - apply N.Div0.div_lt_upper_bound. lia.
Qed.

Lemma toHex_length (bs : list byte) :
  String.length (toHex bs) = (2 * length bs)%nat.
Proof. induction bs as [|b bs IH]; simpl; [reflexivity|]. rewrite IH. lia. Qed.

Section Client.
Variable md5 : string -> string.
Variable Dev : Type.
Variable wire : Dev -> Request -> WireOutcome * Dev.
Variable cfg : Config.

Local Abbreviation request := (makeAuthenticatedRequest md5 Dev wire cfg).
Local Abbreviation first_of := (initial_request cfg).
Local Abbreviation second_of := (authenticated_request md5 cfg).

#[local] Arguments toHex : simpl never.
#[local] Arguments parseDigestHeader : simpl never.
#[local] Arguments digest_header : simpl never.
#[local] Arguments Js.includes : simpl never.
#[local] Arguments Js.int_toString : simpl never.
#[local] Arguments baseURL : simpl never.
#[local] Arguments sending : simpl never.
#[local] Arguments drawing : simpl never.
#[local] Arguments String.append : simpl never.

Ltac run_request :=
  unfold makeAuthenticatedRequest, generateDigestAuth, randomBytes,
    client_request, try_catch, bind, ret, throw.

Ltac sent_log := unfold sending, drawing; cbn [sent snd fst].

Ltac settle_catch :=
  unfold rethrown, status_error, transport_error, unsupported, Error;
  cbn [code]; repeat case_decide; try discriminate; reflexivity.

(** One call, step by step: the outcome and the world it leaves, by cases
    on what the device answers. *)
Lemma request_cases method endpoint data headers (w : World Dev) :
  request method endpoint data headers w =
  let req1 := first_of method endpoint data headers in
  match wire (dev w) req1 with
  | (Failure c msg, d1) =>
      (Throw (rethrown cfg (transport_error c msg)), sending Dev d1 req1 w)
  | (Answer r1, d1) =>
      let w1 := sending Dev d1 req1 w in
      if status r1 =? 401 then
        match Hikvision.headers r1 !! "www-authenticate" with
        | Some h =>
            if Js.includes "Digest" h then
              let req2 :=
                second_of method endpoint data headers h (next_cnonce Dev w1) in
              let w2 d2 := sending Dev d2 req2 (drawing Dev 16 w1) in
              match wire d1 req2 with
              | (Failure c msg, d2) =>
                  (Throw (rethrown cfg (transport_error c msg)), w2 d2)
              | (Answer r2, d2) =>
                  if validate_2xx (status r2) then (Ok r2, w2 d2)
                  else (Throw (rethrown cfg (status_error r2)), w2 d2)
              end
            else (Throw unsupported, w1)
        | None => (Throw unsupported, w1)
        end
      else if validate_2xx (status r1) then (Ok r1, w1)
      else (Throw (rethrown cfg (status_error r1)), w1)
  end.
Proof.
  run_request. cbv zeta.
  fold (first_of method endpoint data headers).
  destruct (wire (dev w) (first_of method endpoint data headers))
    as [[r1|c msg] d1].
  - unfold validate_401_or_2xx.
    destruct (status r1 =? 401) eqn:E401; cbn [orb].
    + rewrite E401.
      destruct (Hikvision.headers r1 !! "www-authenticate") as [h|] eqn:Eh;
        [|settle_catch].
      cbn [Js.template Js.truthy].
      destruct (Js.includes "Digest" h) eqn:Einc.
      * assert (String.eqb h "" = false) as ->.
        { destruct h; [discriminate Einc|reflexivity]. }
        cbn [negb orb].
        fold (next_cnonce Dev (sending Dev d1 (first_of method endpoint data headers) w)).
        fold (second_of method endpoint data headers h
                (next_cnonce Dev (sending Dev d1 (first_of method endpoint data headers) w))).
        change (dev (drawing Dev 16 (sending Dev d1 (first_of method endpoint data headers) w)))
          with d1.
        destruct (wire d1 _) as [[r2|c msg] d2].
        -- destruct (validate_2xx (status r2)); [reflexivity|settle_catch].
        -- settle_catch.
      * rewrite orb_true_r. settle_catch.
    + change (validate_2xx (status r1)) with
        ((200 <=? status r1) && (status r1 <? 300)).
      destruct ((200 <=? status r1) && (status r1 <? 300)).
      * rewrite E401. reflexivity.
      * settle_catch.
  - settle_catch.
Qed.

(** Every call sends the unauthenticated request first and at most one
    more request after it, for the same method, address and body. *)
Lemma request_sent method endpoint data headers (w : World Dev) :
  exists more,
    sent (snd (request method endpoint data headers w))
    = (sent w ++ first_of method endpoint data headers :: more)%list
    /\ (length more <= 1)%nat
    /\ Forall (fun r => Hikvision.method r = method
                        /\ url r = baseURL cfg +:+ endpoint
                        /\ body r = data) more.
Proof.
  rewrite request_cases. cbv zeta.
  destruct (wire (dev w) _) as [[r1|c msg] d1].
  - destruct (status r1 =? 401).
    + destruct (Hikvision.headers r1 !! "www-authenticate") as [h|].
      * destruct (Js.includes "Digest" h).
        -- destruct (wire d1 _) as [[r2|c msg] d2];
             [destruct (validate_2xx (status r2))|];
             (eexists [_]; split; [sent_log; now rewrite <- app_assoc|];
              split; [cbn; lia|repeat constructor]).
        -- exists []. repeat split; [cbn; lia|constructor].
      * exists []. repeat split; [cbn; lia|constructor].
    + destruct (validate_2xx (status r1));
        (exists []; repeat split; [cbn; lia|constructor]).
  - exists []. repeat split; [cbn; lia|constructor].
Qed.

Lemma rethrown_status_error (r : HttpResponse) :
  rethrown cfg (status_error r) = status_error r.
Proof.
  unfold rethrown, status_error, status_error_code. cbn [code].
  destruct (status r / 100 =? 4); [|destruct (status r / 100 =? 5)];
    repeat case_decide; try discriminate; reflexivity.
Qed.

Lemma validate_2xx_401 (s : Z) : s = 401 -> validate_2xx s = false.
Proof. intros ->. reflexivity. Qed.

(** C3: a call sends the unauthenticated request and at most one request
    more. When the first answer is a 401 with a Digest challenge, exactly
    one further request goes out, carrying the Authorization header
    computed from the challenge; when the answer to that request is again
    a 401, the call ends there, throwing the error of the rejected
    status. *)
Theorem makeAuthenticatedRequest_reauthenticates_once
    method endpoint data headers (w : World Dev) :
  let run := request method endpoint data headers w in
  let req1 := first_of method endpoint data headers in
  (exists more,
      sent (snd run) = (sent w ++ req1 :: more)%list
      /\ (length more <= 1)%nat)
  /\ (forall r1 d1 h,
        wire (dev w) req1 = (Answer r1, d1) ->
        digest_challenge_in r1 h ->
        let req2 :=
          second_of method endpoint data headers h (next_cnonce Dev w) in
        sent (snd run) = (sent w ++ [req1; req2])%list
        /\ (forall r2 d2,
              wire d1 req2 = (Answer r2, d2) ->
              status r2 = 401 ->
              fst run = Throw (status_error r2))).
Proof.
  cbv zeta. split.
  - destruct (request_sent method endpoint data headers w)
      as (more & Hsent & Hlen & _).
    now exists more.
  - rewrite request_cases. cbv zeta. intros r1 d1 h Hw (H401 & Hh & Hinc). rewrite Hw.
    apply Z.eqb_eq in H401. rewrite H401, Hh, Hinc.
    change (next_cnonce Dev (sending Dev d1 _ w)) with (next_cnonce Dev w).
    split.
    + destruct (wire d1 _) as [[r2|c msg] d2];
        [destruct (validate_2xx (status r2))|];
        sent_log; now rewrite <- app_assoc.
    + intros r2 d2 Hw2 H2. rewrite Hw2.
      rewrite (validate_2xx_401 _ H2). cbn [fst].
      now rewrite rethrown_status_error.
Qed.

(** C6 (as amended): when the first answer is a 401 without a
    WWW-Authenticate header, or with one in whose text Digest occurs
    nowhere, the call throws the unsupported-authentication error and the
    unauthenticated request is the only one sent. *)
Theorem makeAuthenticatedRequest_requires_digest
    method endpoint data headers (w : World Dev) r1 d1 :
  wire (dev w) (first_of method endpoint data headers) = (Answer r1, d1) ->
  no_digest_text r1 ->
  fst (request method endpoint data headers w) = Throw unsupported
  /\ sent (snd (request method endpoint data headers w))
     = (sent w ++ [first_of method endpoint data headers])%list.
Proof.
  intros Hw (H401 & Hh). rewrite request_cases. cbv zeta. rewrite Hw.
  apply Z.eqb_eq in H401. rewrite H401.
  destruct (Hikvision.headers r1 !! "www-authenticate") as [h|];
    [rewrite Hh|]; split; reflexivity.
Qed.

(** The hexadecimal text of bytes reads back as those bytes. *)
Lemma fromHex_toHex (bs : list byte) : fromHex (toHex bs) = Some bs.
Proof.
  induction bs as [|b bs IH]; [reflexivity|].
  change (toHex (b :: bs))
    with (String (hex_digit (Byte.to_N b / 16))
            (String (hex_digit (Byte.to_N b mod 16)) (toHex bs))).
  change (fromHex (String ?c1 (String ?c2 ?rest)))
    with (match hex_value c1, hex_value c2, fromHex rest with
          | Some hi, Some lo, Some l =>
              match Byte.of_N (hi * 16 + lo) with
              | Some x => Some (x :: l)
              | None => None
              end
          | _, _, _ => None
          end).
  rewrite IH. destruct b; vm_compute; reflexivity.
Qed.

(** C4: [generateDigestAuth] returns the Digest header whose response is
    md5(HA1:nonce:nc:cnonce:qop:HA2) with HA1 = md5(username:realm:password)
    and HA2 = md5(method:uri), where nc is 00000001 and cnonce is the
    hexadecimal form (32 digits, which read back as the bytes) of sixteen
    bytes drawn from the entropy for this call; the header is determined
    by those values: two calls that draw the same bytes return the same
    header. *)
Theorem generateDigestAuth_digest_response
    method uri (params : gmap string string) (w : World Dev) :
  let nc := "00000001" in
  let cnonce := toHex (map (fun i => entropy w (drawn w + i)%nat) (seq 0 16)) in
  let ha1 := md5 (Js.template (username cfg) +:+ ":"
                    +:+ Js.template (params !! "realm") +:+ ":"
                    +:+ Js.template (password cfg)) in
  let ha2 := md5 (method +:+ ":" +:+ uri) in
  let response :=
    md5 (ha1 +:+ ":" +:+ Js.template (params !! "nonce") +:+ ":" +:+ nc
           +:+ ":" +:+ cnonce +:+ ":" +:+ Js.template (params !! "qop")
           +:+ ":" +:+ ha2) in
  generateDigestAuth md5 Dev cfg method uri params w
  = (Ok ("Digest username=" +:+ Js.quoted (Js.template (username cfg))
           +:+ ", realm=" +:+ Js.quoted (Js.template (params !! "realm"))
           +:+ ", nonce=" +:+ Js.quoted (Js.template (params !! "nonce"))
           +:+ ", uri=" +:+ Js.quoted uri
           +:+ ", qop=" +:+ Js.template (params !! "qop")
           +:+ ", nc=" +:+ nc
           +:+ ", cnonce=" +:+ Js.quoted cnonce
           +:+ ", response=" +:+ Js.quoted response),
     drawing Dev 16 w)
  /\ String.length cnonce = 32%nat
  /\ all_chars is_lower_hex cnonce = true
  /\ (forall w2 : World Dev,
        next_cnonce Dev w2 = next_cnonce Dev w ->
        fst (generateDigestAuth md5 Dev cfg method uri params w2)
        = fst (generateDigestAuth md5 Dev cfg method uri params w))
  /\ fromHex cnonce
     = Some (map (fun i => entropy w (drawn w + i)%nat) (seq 0 16)).
Proof.
  cbv zeta. split; [reflexivity|]. split; [|split; [|split]].
  - rewrite toHex_length, length_map, length_seq. reflexivity.
  - apply toHex_lower.
  - intros w2 H. unfold generateDigestAuth, randomBytes, bind, ret.
    cbn [fst]. fold (next_cnonce Dev w2). fold (next_cnonce Dev w).
    now rewrite H.
  - apply fromHex_toHex.
Qed.

(** The outcome of a call: a response of status 2xx, or one of the
    device failures. *)
Lemma request_outcome method endpoint data headers (w : World Dev) :
  match fst (request method endpoint data headers w) with
  | Ok r => 200 <= status r < 300
  | Throw e => device_failure cfg e
  end.
Proof.
  rewrite request_cases. cbv zeta.
  assert (Hrange : forall s, validate_2xx s = true -> 200 <= s < 300).
  { intros s H. unfold validate_2xx in H.
    apply andb_true_iff in H as [H1 H2].
    apply Z.leb_le in H1. apply Z.ltb_lt in H2. lia. }
  assert (Hstatus : forall r,
             validate_2xx (status r) = false ->
             device_failure cfg (rethrown cfg (status_error r))).
  { intros r H. rewrite rethrown_status_error. right. left. now exists r. }
  assert (Htransport : forall c msg,
             device_failure cfg (rethrown cfg (transport_error c msg))).
  { intros c msg. right. right. now exists c, msg. }
  destruct (wire (dev w) _) as [[r1|c msg] d1]; [|apply Htransport].
  destruct (status r1 =? 401).
  - destruct (Hikvision.headers r1 !! "www-authenticate") as [h|];
      [|now left].
    destruct (Js.includes "Digest" h); [|now left].
    destruct (wire d1 _) as [[r2|c msg] d2]; [|apply Htransport].
    destruct (validate_2xx (status r2)) eqn:E; cbn [fst];
      [now apply Hrange|now apply Hstatus].
  - destruct (validate_2xx (status r1)) eqn:E; cbn [fst];
      [now apply Hrange|now apply Hstatus].
Qed.

(** An operation that wraps one call in its try block. *)
Ltac run_operation call :=
  unfold try_catch, bind, ret, now;
  pose proof call as Hout;
  match type of Hout with
  | context [fst ?c] => destruct c as [[r|e] w']
  end;
  cbn [fst snd] in *; eexists; (split; [reflexivity|]);
  cbn [success env_error env_data env_deviceInfo];
  (split; [exact Hout|]); repeat split; auto.

(** C7: each public operation returns its envelope, on every behaviour of
    the device and the network, and never throws. The envelope tells what
    became of the call of the operation: [success] is true exactly when
    the call returned a response, which is one of status 2xx and whose
    data the envelope carries; [success] is false exactly when the call
    threw, which it does for a 401 without the text Digest, for an answer
    of another status than 2xx (a second 401 among them) and for a
    transport that gave no answer, and the error of the envelope is then
    the message of what was thrown. *)
Theorem operations_return_envelopes :
  returns_envelope cfg
    (request "GET" "/ISAPI/System/deviceInfo" NoBody ∅)
    (testConnection md5 Dev wire cfg)
  /\ returns_envelope cfg
       (request "GET" "/ISAPI/Intelligent/FDLib" NoBody ∅)
       (getFaceDatabase md5 Dev wire cfg)
  /\ (forall personId imageBuffer personName,
        returns_envelope cfg
          (fun w =>
             request "POST" "/ISAPI/Intelligent/FDLib/FDSet"
               (JsonBody
                  (face_payload personId imageBuffer personName (clock w)))
               (<["Content-Type" := "application/json"]>
                  (<["Accept" := "application/json"]> ∅)) w)
          (enrollFace md5 Dev wire cfg personId imageBuffer personName))
  /\ (forall personId,
        returns_envelope cfg
          (request "DELETE"
             ("/ISAPI/Intelligent/FDLib/FDSet?FDID=1&FPID="
                +:+ Js.int_toString personId) NoBody ∅)
          (deleteFace md5 Dev wire cfg personId))
  /\ returns_envelope cfg
       (request "GET" "/ISAPI/Intelligent/FDLib/capabilities" NoBody ∅)
       (getDeviceCapabilities md5 Dev wire cfg).
Proof.
  split; [|split; [|split; [|split]]]; intros; intros w.
  - unfold testConnection.
    run_operation
      (request_outcome "GET" "/ISAPI/System/deviceInfo" NoBody ∅ w).
  - unfold getFaceDatabase.
    run_operation
      (request_outcome "GET" "/ISAPI/Intelligent/FDLib" NoBody ∅ w).
  - unfold enrollFace.
    run_operation
      (request_outcome "POST" "/ISAPI/Intelligent/FDLib/FDSet"
         (JsonBody (face_payload personId imageBuffer personName (clock w)))
         (<["Content-Type" := "application/json"]>
            (<["Accept" := "application/json"]> ∅)) w).
  - unfold deleteFace.
    run_operation
      (request_outcome "DELETE"
         ("/ISAPI/Intelligent/FDLib/FDSet?FDID=1&FPID="
            +:+ Js.int_toString personId) NoBody ∅ w).
  - unfold getDeviceCapabilities.
    run_operation
      (request_outcome "GET" "/ISAPI/Intelligent/FDLib/capabilities"
         NoBody ∅ w).
Qed.

End Client.
End ClientFacts.

(** ** Dates, decimal strings and the enrollment payload *)

Module PayloadFacts.
Import Node DigestHeader Hikvision Call ClientFacts.

Lemma split_head_app (sep : ascii) (a b : string) :
  lacks sep a = true ->
  split_head sep (a +:+ String sep b) = a.
Proof.
  induction a as [|c a IH]; simpl.
  - now rewrite Ascii.eqb_refl.
  - intros H. apply andb_true_iff in H as [Hc Ha].
    apply negb_true_iff in Hc. rewrite Hc. now rewrite IH.
Qed.

Lemma lacks_app (sep : ascii) (a b : string) :
  lacks sep a = true -> lacks sep b = true -> lacks sep (a +:+ b) = true.
Proof.
  induction a as [|c a IH]; simpl; [easy|].
  intros H Hb. apply andb_true_iff in H as [Hc Ha].
  rewrite Hc. now apply IH.
Qed.

Lemma digit_not_T (z : Z) : Ascii.eqb (digit z) "T" = false.
Proof.
  unfold digit. pose proof (Z.mod_pos_bound z 10 eq_refl) as H.
  set (m := z mod 10) in *.
  assert (m = 0 \/ m = 1 \/ m = 2 \/ m = 3 \/ m = 4 \/ m = 5 \/ m = 6
          \/ m = 7 \/ m = 8 \/ m = 9) as Hm by lia.
  repeat destruct Hm as [-> | Hm]; try reflexivity. now rewrite Hm.
Qed.

Lemma pad_lacks_T (n : nat) (z : Z) : lacks "T" (pad n z) = true.
Proof.
  revert z. induction n as [|n IH]; intros z; simpl; [reflexivity|].
  apply lacks_app; [apply IH|]. simpl. now rewrite digit_not_T.
Qed.

Lemma iso_date_lacks_T (d : Date) : lacks "T" (iso_date d) = true.
Proof.
  assert (Hy : lacks "T" (iso_year (year d)) = true).
  { unfold iso_year.
    destruct ((0 <=? year d) && (year d <=? 9999)); [apply pad_lacks_T|].
    destruct (year d <? 0); cbn [lacks]; rewrite pad_lacks_T; reflexivity. }
  unfold iso_date.
  apply lacks_app; [exact Hy|].
  apply lacks_app; [reflexivity|].
  apply lacks_app; [apply pad_lacks_T|].
  apply lacks_app; [reflexivity|apply pad_lacks_T].
Qed.

(** The date stamp of the payload is the day of the clock reading. *)
Lemma split_head_toISOString (d : Date) :
  split_head "T" (toISOString d) = iso_date d.
Proof.
  unfold toISOString.
  exact (split_head_app "T" (iso_date d) _ (iso_date_lacks_T d)).
Qed.

(** The decimal string of an integer reads back as that integer. *)
Lemma int_toString_reads_back (z : Z) :
  option_map Z.of_int (NilZero.int_of_string (Js.int_toString z)) = Some z.
Proof.
  unfold Js.int_toString. rewrite NilZero.isi.
  - simpl. now rewrite DecimalZ.of_to.
  - destruct z as [|p|p]; simpl; try discriminate.
    intros [= H]. now apply (DecimalPos.Unsigned.to_uint_nonnil p).
  - destruct z as [|p|p]; simpl; try discriminate.
    intros [= H]. now apply (DecimalPos.Unsigned.to_uint_nonnil p).
Qed.

(** The base64 text of a buffer reads back as the buffer. *)
(** Numbers written with leading zeros read back in decimal. *)
Lemma pad_reads (k : nat) (bound : Z) (z : Z) :
  forallb (fun n => match read_decimal (pad k (Z.of_nat n)) with
                    | Some r => r =? Z.of_nat n
                    | None => false
                    end) (seq 0 (Z.to_nat bound)) = true ->
  0 <= z < bound ->
  read_decimal (pad k z) = Some z.
Proof.
  intros H Hz. rewrite forallb_forall in H.
  specialize (H (Z.to_nat z)). rewrite Z2Nat.id in H by lia.
  destruct (read_decimal (pad k z)) as [r|].
  - f_equal. apply Z.eqb_eq, H, in_seq. lia.
  - discriminate H. apply in_seq. lia.
Qed.

Lemma pad4_reads (z : Z) : 0 <= z <= 9999 -> read_decimal (pad 4 z) = Some z.
Proof.
  intros Hz. apply (pad_reads 4 10000); [vm_compute; reflexivity|lia].
Qed.

Lemma pad2_reads (z : Z) : 0 <= z <= 99 -> read_decimal (pad 2 z) = Some z.
Proof.
  intros Hz. apply (pad_reads 2 100); [vm_compute; reflexivity|lia].
Qed.

(** The date part of a timestamp has the shape YYYY-MM-DD and reads back
    as the date of the clock. *)
Lemma read_iso_date (d : Date) :
  0 <= year d <= 9999 -> 0 <= month d <= 99 -> 0 <= day d <= 99 ->
  read_date (iso_date d) = Some (year d, month d, day d).
Proof.
  intros Hy Hm Hd. unfold iso_date, iso_year.
  assert ((0 <=? year d) && (year d <=? 9999) = true) as ->
    by (apply andb_true_iff; split; apply Z.leb_le; lia).
  pose proof (pad4_reads (year d) Hy) as Ry.
  pose proof (pad2_reads (month d) Hm) as Rm.
  pose proof (pad2_reads (day d) Hd) as Rd.
  cbv -[read_decimal digit Z.div year month day] in Ry, Rm, Rd |- *.
  now rewrite Ry, Rm, Rd.
Qed.

Lemma base64_char_index (n : N) :
  (n < 64)%N ->
  base64_index (base64_char n) = Some n
  /\ Ascii.eqb (base64_char n) "=" = false.
Proof.
  intros Hn.
  assert (H : forallb base64_char_ok (map N.of_nat (seq 0 64)) = true)
    by (vm_compute; reflexivity).
  rewrite forallb_forall in H.
  specialize (H n). unfold base64_char_ok in H.
  assert (Hin : In n (map N.of_nat (seq 0 64))).
  { apply in_map_iff. exists (N.to_nat n). split; [apply N2Nat.id|].
    apply in_seq. lia. }
  apply H in Hin. apply andb_true_iff in Hin as [H1 H2].
  destruct (base64_index (base64_char n)) as [m|]; [|discriminate].
  apply N.eqb_eq in H1. subst m. split; [reflexivity|].
  now apply negb_true_iff.
Qed.

Lemma div_combine (a b m : N) : (b < m -> (a * m + b) / m = a)%N.
Proof.
  intros Hb. rewrite N.add_comm, N.div_add by lia.
  rewrite N.div_small by exact Hb. reflexivity.
Qed.

Lemma mod_combine (a b m : N) : (b < m -> (a * m + b) mod m = b)%N.
Proof.
  intros Hb. rewrite N.add_comm, N.Div0.mod_add.
  now apply N.mod_small.
Qed.

Lemma recombine (x m : N) : (m <> 0 -> (x / m) * m + x mod m = x)%N.
Proof. intros Hm. rewrite N.mul_comm. symmetry. now apply N.div_mod. Qed.

Lemma sextet_bounds (a b c : byte) :
  let x := Byte.to_N a in let y := Byte.to_N b in let z := Byte.to_N c in
  (x / 4 < 64 /\ x mod 4 < 4 /\ y / 16 < 16 /\ y mod 16 < 16
   /\ z / 64 < 4 /\ z mod 64 < 64)%N.
Proof.
  cbv zeta.
  pose proof (Byte.to_N_bounded a). pose proof (Byte.to_N_bounded b).
  pose proof (Byte.to_N_bounded c).
  repeat split; try (apply N.mod_lt; discriminate);
    apply N.Div0.div_lt_upper_bound; lia.
Qed.

Lemma list_by_threes {A} (P : list A -> Prop) :
  P [] -> (forall a, P [a]) -> (forall a b, P [a; b]) ->
  (forall a b c rest, P rest -> P (a :: b :: c :: rest)) ->
  forall l, P l.
Proof.
  intros H0 H1 H2 H3.
  fix IH 1. intros [|a [|b [|c rest]]];
    [exact H0 | apply H1 | apply H2 | apply H3, IH].
Qed.

Lemma fromBase64_toBase64 (bs : list byte) :
  fromBase64 (toBase64 bs) = Some bs.
Proof.
  induction bs as [|a|a b|a b c rest IH] using list_by_threes.
  - reflexivity.
  - destruct (sextet_bounds a a a) as (H1 & H2 & _).
    cbn [toBase64 fromBase64].
    destruct (base64_char_index (to_N a / 4)) as [-> _]; [lia|].
    destruct (base64_char_index (to_N a mod 4 * 16)) as [-> _]; [lia|].
    rewrite N.div_mul by discriminate.
    rewrite recombine by discriminate. unfold byte_of. rewrite Byte.of_to_N.
    reflexivity.
  - destruct (sextet_bounds a b b) as (H1 & H2 & H3 & H4 & _).
    cbn [toBase64 fromBase64].
    destruct (base64_char_index (to_N a / 4)) as [-> _]; [lia|].
    destruct (base64_char_index (to_N a mod 4 * 16 + to_N b / 16))
      as [-> _]; [lia|].
    destruct (base64_char_index (to_N b mod 16 * 4)) as [-> ->]; [lia|].
    rewrite div_combine, mod_combine by assumption.
    rewrite N.div_mul by discriminate.
    rewrite !recombine by discriminate. unfold byte_of. rewrite !Byte.of_to_N.
    reflexivity.
  - destruct (sextet_bounds a b c) as (H1 & H2 & H3 & H4 & H5 & H6).
    cbn [toBase64 fromBase64].
    destruct (base64_char_index (to_N a / 4)) as [-> _]; [lia|].
    destruct (base64_char_index (to_N a mod 4 * 16 + to_N b / 16))
      as [-> _]; [lia|].
    destruct (base64_char_index (to_N b mod 16 * 4 + to_N c / 64))
      as [-> ->]; [lia|].
    destruct (base64_char_index (to_N c mod 64)) as [-> ->]; [lia|].
    rewrite !div_combine, !mod_combine by assumption.
    rewrite !recombine by discriminate. unfold byte_of. rewrite !Byte.of_to_N.
    now rewrite IH.
Qed.

Section Enroll.
Variable md5 : string -> string.
Variable Dev : Type.
Variable wire : Dev -> Request -> WireOutcome * Dev.
Variable cfg : Config.

Local Abbreviation enroll := (enrollFace md5 Dev wire cfg).

(** [enrollFace] leaves the world as its one call leaves it. *)
Lemma enrollFace_world personId imageBuffer personName (w : World Dev) :
  snd (enroll personId imageBuffer personName w)
  = snd (makeAuthenticatedRequest md5 Dev wire cfg
           "POST" "/ISAPI/Intelligent/FDLib/FDSet"
           (JsonBody (face_payload personId imageBuffer personName (clock w)))
           (<["Content-Type" := "application/json"]>
              (<["Accept" := "application/json"]> ∅)) w).
Proof.
  unfold enrollFace, try_catch, bind, now, ret.
  destruct (makeAuthenticatedRequest _ _ _ _ _ _ _ _ w) as [[r|e] w'];
    reflexivity.
Qed.

(** The requests of one [enrollFace]: the POST of the payload to the
    library-set endpoint, and at most one repetition of it. *)
Lemma enrollFace_sent personId imageBuffer personName (w : World Dev) :
  let fd := face_payload personId imageBuffer personName (clock w) in
  exists more,
    sent (snd (enroll personId imageBuffer personName w))
    = (sent w ++ enroll_request cfg fd :: more)%list
    /\ (length more <= 1)%nat
    /\ Forall (fun r => method r = "POST"
                        /\ url r = baseURL cfg
                                     +:+ "/ISAPI/Intelligent/FDLib/FDSet"
                        /\ body r = JsonBody fd) more.
Proof.
  cbv zeta. rewrite enrollFace_world.
  apply (request_sent md5 Dev wire cfg).
Qed.

(** C9: every [enrollFace] POSTs to the library-set endpoint a payload
    with the fields faceLibType, FDID, FPID, name, bornTime, sex and
    faceURL, where FPID is the decimal string of the subject id, name is
    the given name or Person_ followed by the id when the given name is
    empty, bornTime is the date of the clock reading (of the shape
    YYYY-MM-DD, and reading back as that date, for a year of four
    digits), sex is the word unknown, and faceURL is the data URL of the
    base64 text of the image bytes. *)
Theorem enrollFace_payload personId imageBuffer personName (w : World Dev) :
  exists fd more,
    sent (snd (enroll personId imageBuffer personName w))
    = (sent w ++ enroll_request cfg fd :: more)%list
    /\ Forall (fun r => method r = "POST"
                        /\ url r = baseURL cfg
                                     +:+ "/ISAPI/Intelligent/FDLib/FDSet"
                        /\ body r = JsonBody fd) more
    /\ faceLibType fd = "blackFD"
    /\ FDID fd = "1"
    /\ FPID fd = Js.int_toString personId
    /\ option_map Z.of_int (NilZero.int_of_string (FPID fd)) = Some personId
    /\ name fd = (if String.eqb personName "" then
                    "Person_" +:+ Js.int_toString personId
                  else personName)
    /\ bornTime fd = iso_date (clock w)
    /\ sex fd = "unknown"
    /\ faceURL fd = "data:image/jpeg;base64," +:+ toBase64 imageBuffer
    /\ fromBase64 (toBase64 imageBuffer) = Some imageBuffer
    /\ (0 <= year (clock w) <= 9999 ->
        1 <= month (clock w) <= 12 ->
        1 <= day (clock w) <= 31 ->
        read_date (bornTime fd)
        = Some (year (clock w), month (clock w), day (clock w))).
Proof.
  destruct (enrollFace_sent personId imageBuffer personName w)
    as (more & Hsent & _ & Hmore).
  exists (face_payload personId imageBuffer personName (clock w)), more.
  split; [exact Hsent|]. split; [exact Hmore|].
  cbn [face_payload faceLibType FDID FPID name bornTime sex faceURL].
  rewrite split_head_toISOString, int_toString_reads_back.
  rewrite fromBase64_toBase64.
  repeat split; try reflexivity.
  intros Hy Hm Hd. apply read_iso_date; lia.
Qed.

End Enroll.

End PayloadFacts.

(** ** The store *)

Module StoreFacts.
Import Hikvision Store Server Workflow.

Lemma deactivate_key (ids : list Z) (f : Face) :
  facialID (deactivate ids f) = facialID f.
Proof. unfold deactivate. now destruct (existsb _ ids). Qed.

Lemma deactivate_none (l : list Face) : map (deactivate []) l = l.
Proof. induction l as [|f l IH]; simpl; [reflexivity|]. now rewrite IH. Qed.

Lemma find_deactivate (ids : list Z) (id : Z) (l : list Face) :
  find (fun f => facialID f =? id) (map (deactivate ids) l)
  = option_map (deactivate ids) (find (fun f => facialID f =? id) l).
Proof.
  induction l as [|f l IH]; simpl; [reflexivity|].
  rewrite deactivate_key. now destruct (facialID f =? id).
Qed.

Lemma find_append {A} (p : A -> bool) (l1 l2 : list A) :
  find p (l1 ++ l2)
  = match find p l1 with
    | Some x => Some x
    | None => find p l2
    end.
Proof.
  induction l1 as [|x l1 IH]; simpl; [reflexivity|]. now destruct (p x).
Qed.

Lemma find_key_fresh (l : list Face) (next : Z) :
  Forall (fun f => facialID f < next) l ->
  find (fun f => facialID f =? next) l = None.
Proof.
  induction 1 as [|f l Hf _ IH]; simpl; [reflexivity|].
  destruct (Z.eqb_spec (facialID f) next); [lia|exact IH].
Qed.

Lemma find_key_some (l : list Face) (id : Z) (f : Face) :
  find (fun f => facialID f =? id) l = Some f ->
  f ∈ l /\ facialID f = id.
Proof.
  induction l as [|g l IH]; simpl; [discriminate|].
  destruct (Z.eqb_spec (facialID g) id) as [E|E].
  - intros [= ->]. split; [apply list_elem_of_here|exact E].
  - intros H. destruct (IH H) as [Hin Hid].
    split; [now apply list_elem_of_further|exact Hid].
Qed.

Lemma find_key_unique (l : list Face) (f : Face) :
  NoDup (map facialID l) -> f ∈ l ->
  find (fun g => facialID g =? facialID f) l = Some f.
Proof.
  induction l as [|g l IH]; simpl; intros Hnd Hin; [inversion Hin|].
  apply NoDup_cons in Hnd as [Hg Hnd].
  destruct (Z.eqb_spec (facialID g) (facialID f)) as [E|E].
  - apply elem_of_cons in Hin as [->|Hin]; [reflexivity|].
    exfalso. apply Hg. rewrite E. apply list_elem_of_fmap. now exists f.
  - apply elem_of_cons in Hin as [->|Hin]; [congruence|].
    now apply IH.
Qed.

(** The link rows of a subject, under the constraints of the schema. *)
Lemma links_of_subject (pid : Z) (st : Store) (pf : Perface) :
  pf ∈ perface_findMany pid st <-> pf ∈ perface st /\ pf_personaID pf = pid.
Proof. unfold perface_findMany. rewrite list_elem_of_filter. tauto. Qed.

Lemma link_key_fresh (pid : Z) (st : Store) :
  wf_store st ->
  existsb (fun pf => (pf_personaID pf =? pid) && (pf_facialID pf =? face_seq st))
          (perface st) = false.
Proof.
  intros Hwf. apply not_true_is_false. intros H.
  apply existsb_exists in H as (pf & Hin & Hpf).
  apply andb_true_iff in Hpf as [_ Hid]. apply Z.eqb_eq in Hid.
  pose proof (wf_link_face st Hwf) as Hfk.
  rewrite Forall_forall in Hfk.
  apply list_elem_of_In in Hin.
  destruct (Hfk pf Hin) as [f Hf].
  apply find_key_some in Hf as [Hfin Hfid].
  pose proof (wf_seq st Hwf) as Hseq. rewrite Forall_forall in Hseq.
  specialize (Hseq f Hfin). lia.
Qed.

(** Under the constraints of the schema the persist step commits, and what
    it commits is the store [committed]. *)
Lemma transaction_commits (pid : Z) (buf : list byte) (st : Store)
    (persona : Per) :
  wf_store st ->
  per_findUnique pid st = Some persona ->
  transaction pid buf st = (Ok (new_face buf st), committed pid buf st).
Proof.
  intros Hwf Hper. unfold transaction.
  set (st1 := if (0 <? length (perface_findMany pid st))%nat
              then face_updateMany (map pf_facialID (perface_findMany pid st)) st
              else st).
  assert (Hst1 : st1 = face_updateMany (subject_face_ids pid st) st).
  { subst st1. unfold subject_face_ids.
    destruct (perface_findMany pid st) as [|pf l] eqn:E; [|reflexivity].
    simpl. unfold face_updateMany. simpl. rewrite deactivate_none.
    now destruct st. }
  rewrite Hst1. clear st1 Hst1.
  unfold face_create, perface_create, per_findUnique, face_find,
    face_updateMany in *.
  cbn [per face perface face_seq].
  rewrite find_deactivate, (find_key_fresh _ _ (wf_seq st Hwf)).
  cbn [option_map per face perface face_seq facialID].
  rewrite (link_key_fresh pid st Hwf), Hper.
  rewrite find_append, find_deactivate, (find_key_fresh _ _ (wf_seq st Hwf)).
  cbn [option_map find facialID]. rewrite Z.eqb_refl. reflexivity.
Qed.

(** Reading the committed store. *)
Lemma face_find_committed_old (pid x : Z) (buf : list byte) (st : Store)
    (f : Face) :
  face_find x st = Some f ->
  face_find x (committed pid buf st)
  = Some (deactivate (subject_face_ids pid st) f).
Proof.
  unfold face_find, committed. cbn [face]. intros H.
  now rewrite find_append, find_deactivate, H.
Qed.

Lemma face_find_committed_new (pid : Z) (buf : list byte) (st : Store) :
  wf_store st ->
  face_find (face_seq st) (committed pid buf st) = Some (new_face buf st).
Proof.
  intros Hwf. unfold face_find, committed. cbn [face].
  rewrite find_append, find_deactivate, (find_key_fresh _ _ (wf_seq st Hwf)).
  cbn [option_map find new_face facialID]. now rewrite Z.eqb_refl.
Qed.

Lemma deactivate_member (ids : list Z) (f : Face) :
  facialID f ∈ ids -> activo (deactivate ids f) = false.
Proof.
  intros Hin. unfold deactivate.
  assert (existsb (Z.eqb (facialID f)) ids = true) as ->; [|reflexivity].
  apply existsb_exists. exists (facialID f).
  split; [now apply list_elem_of_In|apply Z.eqb_refl].
Qed.

Lemma deactivate_other (ids : list Z) (f : Face) :
  facialID f ∉ ids -> deactivate ids f = f.
Proof.
  intros Hin. unfold deactivate.
  assert (existsb (Z.eqb (facialID f)) ids = false) as ->; [|reflexivity].
  apply not_true_is_false. intros H.
  apply existsb_exists in H as (x & Hx & E). apply Z.eqb_eq in E. subst x.
  now apply Hin, list_elem_of_In.
Qed.

Lemma subject_face_id (pid : Z) (st : Store) (pf : Perface) :
  pf ∈ perface_findMany pid st -> pf_facialID pf ∈ subject_face_ids pid st.
Proof.
  intros H. unfold subject_face_ids. apply list_elem_of_fmap. now exists pf.
Qed.

Lemma links_committed (pid : Z) (buf : list byte) (st : Store) :
  perface_findMany pid (committed pid buf st)
  = (perface_findMany pid st
       ++ [{| pf_personaID := pid; pf_facialID := face_seq st |}])%list.
Proof.
  unfold perface_findMany, committed. cbn [perface].
  rewrite filter_app. f_equal.
  now rewrite filter_cons_True by reflexivity.
Qed.

(** Counting by a filter. *)
Lemma filter_all {A} (P : A -> Prop) `{forall x, Decision (P x)} (l : list A) :
  Forall P l -> filter P l = l.
Proof.
  induction 1 as [|x l Hx _ IH]; [reflexivity|].
  rewrite filter_cons_True by exact Hx. now rewrite IH.
Qed.

Lemma filter_nothing {A} (P : A -> Prop) `{forall x, Decision (P x)}
    (l : list A) :
  Forall (fun x => ~ P x) l -> filter P l = [].
Proof.
  induction 1 as [|x l Hx _ IH]; [reflexivity|].
  now rewrite filter_cons_False by exact Hx.
Qed.

Lemma filter_split_length {A} (P Q : A -> Prop)
    `{forall x, Decision (P x)} `{forall x, Decision (Q x)} (l : list A) :
  Forall (fun x => (P x /\ ~ Q x) \/ (~ P x /\ Q x)) l ->
  (length (filter P l) + length (filter Q l))%nat = length l.
Proof.
  induction 1 as [|x l Hx _ IH]; [reflexivity|].
  destruct Hx as [[HP HQ]|[HP HQ]].
  - rewrite (filter_cons_True P) by exact HP.
    rewrite (filter_cons_False Q) by exact HQ. simpl. lia.
  - rewrite (filter_cons_False P) by exact HP.
    rewrite (filter_cons_True Q) by exact HQ. simpl. lia.
Qed.

(** Every link of the subject points at a face that is active or
    inactive, never both. *)
Lemma links_split (pid : Z) (st : Store) :
  wf_store st ->
  perface_count pid true st + perface_count pid false st
  = Z.of_nat (length (perface_findMany pid st)).
Proof.
  intros Hwf. unfold perface_count.
  rewrite <- Nat2Z.inj_add. f_equal.
  apply filter_split_length. apply Forall_forall. intros pf Hpf.
  apply links_of_subject in Hpf as [Hin _].
  pose proof (wf_link_face st Hwf) as Hfk. rewrite Forall_forall in Hfk.
  destruct (Hfk pf Hin) as [f Hf]. unfold linked_face_is. rewrite Hf.
  destruct (activo f); simpl; [left|right]; split; congruence.
Qed.

(** After the commit every earlier link of the subject points at an
    inactive face and the new link at the one active face. *)
Lemma committed_counts (pid : Z) (buf : list byte) (st : Store) :
  wf_store st ->
  perface_count pid false (committed pid buf st)
    = Z.of_nat (length (perface_findMany pid st))
  /\ perface_count pid true (committed pid buf st) = 1.
Proof.
  intros Hwf. unfold perface_count. rewrite links_committed, !filter_app.
  pose proof (wf_link_face st Hwf) as Hfk. rewrite Forall_forall in Hfk.
  assert (Hold : forall pf, pf ∈ perface_findMany pid st ->
            linked_face_is false (committed pid buf st) pf = true
            /\ linked_face_is true (committed pid buf st) pf = false).
  { intros pf Hpf. pose proof (subject_face_id _ _ _ Hpf) as Hid.
    apply links_of_subject in Hpf as [Hin _].
    destruct (Hfk pf Hin) as [f Hf]. unfold linked_face_is.
    rewrite (face_find_committed_old _ _ _ _ _ Hf).
    apply find_key_some in Hf as [_ Hkey].
    rewrite deactivate_member by (now rewrite Hkey). split; reflexivity. }
  assert (Hnew : forall b,
            linked_face_is b (committed pid buf st)
              {| pf_personaID := pid; pf_facialID := face_seq st |}
            = Bool.eqb true b).
  { intros b. unfold linked_face_is. cbn [pf_facialID].
    now rewrite face_find_committed_new. }
  split.
  - rewrite filter_all by (apply Forall_forall; intros pf Hpf;
                           now apply Hold).
    rewrite filter_cons_False by (rewrite Hnew; discriminate).
    rewrite filter_nil. now rewrite app_nil_r.
  - rewrite filter_nothing by (apply Forall_forall; intros pf Hpf;
                               destruct (Hold pf Hpf) as [_ ->]; discriminate).
    rewrite filter_cons_True by (now rewrite Hnew).
    reflexivity.
Qed.

(** Keys stay distinct under a filter. *)
Lemma NoDup_map_filter {A B} (g : A -> B) (P : A -> Prop)
    `{forall x, Decision (P x)} (l : list A) :
  NoDup (map g l) -> NoDup (map g (filter P l)).
Proof.
  induction l as [|x l IH]; simpl; intros Hnd; [constructor|].
  apply NoDup_cons in Hnd as [Hx Hnd].
  destruct (decide (P x)) as [HP|HP].
  - rewrite filter_cons_True by exact HP. simpl. apply NoDup_cons.
    split; [|now apply IH].
    intros Hin. apply Hx.
    apply list_elem_of_fmap in Hin as (y & Hy & Hin).
    apply list_elem_of_filter in Hin as [_ Hin].
    apply list_elem_of_fmap. now exists y.
  - rewrite filter_cons_False by exact HP. now apply IH.
Qed.

Lemma subject_face_ids_distinct (pid : Z) (st : Store) :
  wf_store st -> NoDup (subject_face_ids pid st).
Proof.
  intros Hwf. pose proof (wf_link_key st Hwf) as Hnd.
  unfold subject_face_ids, perface_findMany.
  induction (perface st) as [|pf l IH]; simpl in *; [constructor|].
  apply NoDup_cons in Hnd as [Hpf Hnd].
  destruct (decide (pf_personaID pf = pid)) as [E|E].
  - rewrite filter_cons_True by exact E. simpl. apply NoDup_cons.
    split; [|now apply IH].
    intros Hin. apply Hpf.
    apply list_elem_of_fmap in Hin as (pf' & Hid & Hin).
    apply list_elem_of_filter in Hin as [Hpid Hin].
    apply list_elem_of_fmap. exists pf'. split; [|exact Hin].
    now rewrite Hid, Hpid, E.
  - rewrite filter_cons_False by exact E. now apply IH.
Qed.

Lemma turned_off_committed (pid : Z) (buf : list byte) (st : Store)
    (f : Face) :
  wf_store st -> f ∈ face st ->
  turned_off st (committed pid buf st) f
  = activo f && bool_decide (facialID f ∈ subject_face_ids pid st).
Proof.
  intros Hwf Hin. unfold turned_off.
  rewrite (face_find_committed_old pid _ buf st f)
    by (apply find_key_unique; [apply (wf_face_key st Hwf)|exact Hin]).
  destruct (decide (facialID f ∈ subject_face_ids pid st)) as [Hid|Hid].
  - rewrite deactivate_member by exact Hid.
    now rewrite bool_decide_eq_true_2 by exact Hid.
  - rewrite deactivate_other by exact Hid.
    rewrite bool_decide_eq_false_2 by exact Hid.
    now destruct (activo f).
Qed.

(** The faces that the commit turns off are the active faces of the
    subject, one for each link that pointed at an active face. *)
Lemma turned_off_count (pid : Z) (buf : list byte) (st : Store) :
  wf_store st ->
  count_turned_off st (committed pid buf st) = perface_count pid true st.
Proof.
  intros Hwf. unfold count_turned_off, perface_count. f_equal.
  set (A := filter (fun f => turned_off st (committed pid buf st) f = true)
                   (face st)).
  set (B := filter (fun pf => linked_face_is true st pf = true)
                   (perface_findMany pid st)).
  rewrite <- (length_map facialID A), <- (length_map pf_facialID B).
  apply Permutation_length, NoDup_Permutation.
  - apply NoDup_map_filter, (wf_face_key st Hwf).
  - apply NoDup_map_filter, (subject_face_ids_distinct pid st Hwf).
  - intros x. split.
    + intros Hx. apply list_elem_of_fmap in Hx as (f & -> & Hf).
      apply list_elem_of_filter in Hf as [Hoff Hin].
      rewrite turned_off_committed in Hoff by assumption.
      apply andb_true_iff in Hoff as [Hact Hid].
      apply bool_decide_eq_true_1 in Hid.
      apply list_elem_of_fmap in Hid as (pf & Hkey & Hpf).
      apply list_elem_of_fmap. exists pf. split; [exact Hkey|].
      apply list_elem_of_filter. split; [|exact Hpf].
      unfold linked_face_is. rewrite <- Hkey.
      rewrite (find_key_unique _ _ (wf_face_key st Hwf) Hin : face_find _ st = _).
      now rewrite Hact.
    + intros Hx. apply list_elem_of_fmap in Hx as (pf & -> & Hpf).
      apply list_elem_of_filter in Hpf as [Hact Hpf].
      unfold linked_face_is in Hact.
      destruct (face_find (pf_facialID pf) st) as [f|] eqn:Hf;
        [|discriminate].
      apply find_key_some in Hf as [Hin Hkey].
      apply list_elem_of_fmap. exists f. split; [now rewrite Hkey|].
      apply list_elem_of_filter. split; [|exact Hin].
      rewrite turned_off_committed by assumption.
      apply andb_true_iff. split; [now destruct (activo f)|].
      apply bool_decide_eq_true_2. rewrite Hkey.
      now apply subject_face_id.
Qed.

(** The persist step keeps the constraints of the schema. *)
Lemma committed_wf (pid : Z) (buf : list byte) (st : Store) (persona : Per) :
  wf_store st ->
  per_findUnique pid st = Some persona ->
  wf_store (committed pid buf st).
Proof.
  intros Hwf Hper.
  pose proof (wf_seq st Hwf) as Hseq. rewrite Forall_forall in Hseq.
  pose proof (wf_link_face st Hwf) as Hfk. rewrite Forall_forall in Hfk.
  pose proof (wf_link_per st Hwf) as Hpk. rewrite Forall_forall in Hpk.
  assert (Hlink : forall pf, pf ∈ perface st -> pf_facialID pf < face_seq st).
  { intros pf Hin. destruct (Hfk pf Hin) as [f Hf].
    apply find_key_some in Hf as [Hfin <-]. now apply Hseq. }
  constructor; unfold committed; cbn [per face perface face_seq].
  - rewrite map_app, map_map. cbn [map new_face facialID].
    rewrite (map_ext _ facialID) by (intros; apply deactivate_key).
    apply NoDup_app. split; [apply (wf_face_key st Hwf)|].
    split; [|apply NoDup_singleton].
    intros x Hx Hnew. apply list_elem_of_singleton in Hnew. subst x.
    apply list_elem_of_fmap in Hx as (f & Hkey & Hin).
    specialize (Hseq f Hin). lia.
  - rewrite map_app. cbn [map pf_personaID pf_facialID].
    apply NoDup_app. split; [apply (wf_link_key st Hwf)|].
    split; [|apply NoDup_singleton].
    intros x Hx Hnew. apply list_elem_of_singleton in Hnew. subst x.
    apply list_elem_of_fmap in Hx as (pf & [= _ Hkey] & Hin).
    specialize (Hlink pf Hin). lia.
  - apply Forall_app. split.
    + apply Forall_forall. intros pf Hin. destruct (Hfk pf Hin) as [f Hf].
      eexists. apply (face_find_committed_old pid _ buf st f Hf).
    + constructor; [|constructor]. eexists.
      apply (face_find_committed_new pid buf st Hwf).
  - apply Forall_app. split.
    + apply Forall_forall. intros pf Hin. exact (Hpk pf Hin).
    + constructor; [|constructor]. now exists persona.
  - apply Forall_app. split.
    + apply Forall_forall. intros f Hin.
      apply list_elem_of_fmap in Hin as (g & -> & Hin).
      rewrite deactivate_key. specialize (Hseq g Hin). lia.
    + constructor; [|constructor]. cbn. lia.
Qed.

Lemma store7_wf : wf_store store7.
Proof.
  constructor.
  - apply (bool_decide_unpack _). vm_compute. exact I.
  - apply (bool_decide_unpack _). vm_compute. exact I.
  - repeat constructor; eexists; reflexivity.
  - repeat constructor; eexists; reflexivity.
  - repeat constructor.
Qed.

Lemma store7_enrolled_wf : wf_store store7_enrolled.
Proof. eapply committed_wf; [apply store7_wf|reflexivity]. Qed.

End StoreFacts.

(** ** The enrollment route *)

Module RouteFacts.
Import Node Hikvision Store Server App Call Workflow StoreFacts.

Section AnyClient.
Variable W : Type.
Variable svc_enrollFace : Z -> list byte -> string -> W -> Result Envelope * W.

Local Abbreviation handler := (enroll_handler W svc_enrollFace).

(** C1: once the persist step has committed, a failure of the mirror step
    (an envelope whose success is false, whatever the device-level cause,
    or an error thrown by the client) leaves the committed store as it
    is, and the response is the 200 response of a successful enrollment:
    success is true, and the outcome of the device is reported apart, in
    the hikvision object, with its own success flag (false), message and
    error. *)
Theorem mirror_failure_keeps_enrollment
    (personaID : Z) (file : Upload) (st : Store) (w : W)
    (persona : Per) (result : Face) (st' : Store) :
  per_findUnique personaID st = Some persona ->
  transaction personaID (buffer file) st = (Ok result, st') ->
  let outcome :=
    fst (svc_enrollFace personaID (buffer file)
           (mirror_name personaID persona) w) in
  mirror_failed outcome ->
  let run := handler personaID (Some file) st w in
  store_after run = st'
  /\ reply run
     = {| reply_status := 200;
          reply_body :=
            EnrollReply true "Face enrolled successfully to database"
              (facialID result) (perface_count personaID false st')
              {| hk_success := false;
                 hk_message :=
                   Js.or_default
                     (Js.or_else (mirror_message outcome)
                                 (mirror_error outcome))
                     "Device enrollment failed";
                 hk_error := mirror_error outcome |} |}.
Proof.
  intros Hper Htx outcome Hfail run. subst run outcome.
  unfold enroll_handler. rewrite Hper, Htx.
  fold (mirror_name personaID persona).
  destruct (svc_enrollFace personaID (buffer file)
              (mirror_name personaID persona) w) as [[r|e] w'];
    cbn [fst] in Hfail; unfold mirror_failed in Hfail.
  - split; [reflexivity|]. cbn [reply json mirror_error mirror_message].
    now rewrite Hfail.
  - split; reflexivity.
Qed.

(** C8: a request for a subject that the store does not hold leaves the
    store and the world of the device client as they were and makes no
    call to the client; when it carries an image that the upload
    middleware accepts (a JPEG or PNG of fewer bytes than the limit), the
    response is the 404 with the not-found error. *)
Theorem unknown_subject_changes_nothing
    (personaID : Z) (image : option Upload) (st : Store) (w : W) :
  per_findUnique personaID st = None ->
  let run := post_enroll W svc_enrollFace personaID image st w in
  store_after run = st
  /\ world_after run = w
  /\ mirror_calls run = []
  /\ (forall file,
        image = Some file ->
        fileFilter file = true ->
        Z.of_nat (length (buffer file)) < fileSize_limit ->
        reply run = {| reply_status := 404;
                       reply_body := ErrorReply "Person not found" |}).
Proof.
  intros Hper run. subst run. unfold post_enroll, enroll_handler.
  rewrite Hper.
  destruct image as [file|].
  - destruct (fileFilter file) eqn:Hf; cbn [negb].
    + destruct (fileSize_limit <=? Z.of_nat (length (buffer file))) eqn:Hs.
      * repeat split. intros f [= <-] _ Hlt. apply Z.leb_le in Hs. lia.
      * repeat split.
    + repeat split. intros f [= <-] Hf'. congruence.
  - repeat split. discriminate.
Qed.

(** C2 (as amended): for a subject of a well-formed store with N links to
    active faces and M links to inactive faces, an enrollment commits,
    turns off exactly N face rows (the active faces of the subject),
    appends exactly one face row (active, holding the image, keyed by the
    sequence) and one link from the subject to it, after which the
    subject has exactly one active face; the response is the 200 response
    with that face key, and its deactivatedFaces field is the number of
    all inactive faces linked to the subject after the commit, N + M
    (which is N when no face of the subject was inactive before). *)
Theorem enrollment_deactivates_and_links
    (personaID : Z) (file : Upload) (st : Store) (w : W) (persona : Per) :
  wf_store st ->
  per_findUnique personaID st = Some persona ->
  let N := perface_count personaID true st in
  let M := perface_count personaID false st in
  let run := handler personaID (Some file) st w in
  let st' := store_after run in
  (exists report,
      reply run
      = {| reply_status := 200;
           reply_body :=
             EnrollReply true "Face enrolled successfully to database"
               (face_seq st) (N + M) report |})
  /\ count_turned_off st st' = N
  /\ face st'
     = (map (deactivate (subject_face_ids personaID st)) (face st)
          ++ [{| facialID := face_seq st;
                 templateData := Some (buffer file);
                 activo := true |}])%list
  /\ perface st'
     = (perface st ++ [{| pf_personaID := personaID;
                          pf_facialID := face_seq st |}])%list
  /\ per st' = per st
  /\ perface_count personaID true st' = 1
  /\ perface_count personaID false st' = N + M
  /\ (M = 0 -> perface_count personaID false st' = N).
Proof.
  intros Hwf Hper N M run st'. subst st' run N M.
  unfold enroll_handler.
  rewrite Hper, (transaction_commits _ _ _ _ Hwf Hper).
  destruct (svc_enrollFace _ _ _ w) as [outcome w'].
  cbn [reply store_after json].
  destruct (committed_counts personaID (buffer file) st Hwf) as [Hoff Hon].
  rewrite Hoff, Hon, (links_split personaID st Hwf).
  split; [eexists; reflexivity|].
  split; [apply (turned_off_count personaID _ st Hwf)|].
  repeat split. intros HM. rewrite <- (links_split personaID st Hwf). lia.
Qed.

End AnyClient.

Section Device.
Variable md5 : string -> string.
Variable Dev : Type.
Variable wire : Dev -> Request -> WireOutcome * Dev.
Variable cfg : Config.

(** C10: every call of [enrollFace], whatever the bytes of the image,
    sends the device a payload that labels the image as JPEG: the first
    request of the call, and the authenticated one if there is one,
    carry a faceURL that is the prefix data:image/jpeg;base64, followed
    by the base64 text of the bytes. In particular a PNG upload of fewer
    bytes than the limit passes the upload middleware of the route and,
    for a subject of a well-formed store, reaches the device in a request
    whose faceURL carries that JPEG prefix. *)
Theorem png_is_mirrored_as_jpeg
    (personaID : Z) (buf : list byte) (st : Store) (w : World Dev)
    (persona : Per) :
  wf_store st ->
  per_findUnique personaID st = Some persona ->
  Z.of_nat (length buf) < fileSize_limit ->
  let file := {| mimetype := "image/png"; buffer := buf |} in
  (forall personId imageBuffer personName (w0 : World Dev),
      exists fd more,
        sent (snd (enrollFace md5 Dev wire cfg
                     personId imageBuffer personName w0))
        = (sent w0 ++ enroll_request cfg fd :: more)%list
        /\ Forall (fun r => body r = JsonBody fd) more
        /\ faceURL fd = "data:image/jpeg;base64," +:+ toBase64 imageBuffer)
  /\ fileFilter file = true
  /\ exists fd more,
       sent (world_after (enroll_route md5 Dev wire cfg personaID
                            (Some file) st w))
       = (sent w ++ enroll_request cfg fd :: more)%list
       /\ Forall (fun r => body r = JsonBody fd) more
       /\ faceURL fd = "data:image/jpeg;base64," +:+ toBase64 buf.
Proof.
  intros Hwf Hper Hsize file.
  split.
  { intros personId imageBuffer personName w0.
    destruct (PayloadFacts.enrollFace_sent md5 Dev wire cfg
                personId imageBuffer personName w0)
      as (more & Hsent & _ & Hmore).
    eexists _, more. split; [exact Hsent|]. split; [|reflexivity].
    eapply Forall_impl; [exact Hmore|].
    intros r (_ & _ & Hbody). exact Hbody. }
  split; [reflexivity|].
  unfold enroll_route, post_enroll.
  change (fileFilter file) with true. cbn [negb buffer file].
  assert ((fileSize_limit <=? Z.of_nat (length buf)) = false) as ->
    by (apply Z.leb_gt; exact Hsize).
  unfold enroll_handler. subst file. cbn [buffer].
  rewrite Hper, (transaction_commits _ _ _ _ Hwf Hper).
  set (personName := Js.or_default _ _).
  destruct (PayloadFacts.enrollFace_sent md5 Dev wire cfg
              personaID buf personName w) as (more & Hsent & _ & Hmore).
  destruct (enrollFace md5 Dev wire cfg personaID buf personName w)
    as [outcome w'] eqn:Hrun.
  cbn [world_after json]. cbn [snd] in Hsent.
  eexists _, more. split; [exact Hsent|]. split; [|reflexivity].
  eapply Forall_impl; [exact Hmore|]. intros r (_ & _ & Hbody). exact Hbody.
Qed.

End Device.

End RouteFacts.

(** ** The theorems at concrete inputs *)

Module Witnesses.
Import Node DigestHeader Hikvision Store Server App Call Workflow.
Import ClientFacts PayloadFacts StoreFacts RouteFacts.

Local Abbreviation device_info :=
  (makeAuthenticatedRequest toy_hash (list WireOutcome) scripted sample_cfg
     "GET" "/ISAPI/System/deviceInfo" NoBody ∅).

(** A device that challenges and then answers 401 again: two requests,
    and the error of the second 401. *)
Lemma makeAuthenticatedRequest_reauthenticates_once_witness :
  length (sent (snd (device_info (sample_world refusing_device)))) = 2%nat
  /\ fst (device_info (sample_world refusing_device))
     = Throw (status_error bare_401).
Proof.
  destruct (makeAuthenticatedRequest_reauthenticates_once
              toy_hash (list WireOutcome) scripted sample_cfg
              "GET" "/ISAPI/System/deviceInfo" NoBody ∅
              (sample_world refusing_device)) as [_ H].
  destruct (H challenge_response [Answer bare_401] digest_challenge
              eq_refl (conj eq_refl (conj eq_refl eq_refl))) as [Hsent Hfail].
  split.
  - rewrite Hsent. reflexivity.
  - exact (Hfail bare_401 [] eq_refl eq_refl).
Defined.

(** A device that answers 401 without a challenge: one request, and the
    unsupported-authentication error. *)
Lemma makeAuthenticatedRequest_requires_digest_witness :
  fst (device_info (sample_world [Answer bare_401])) = Throw unsupported
  /\ length (sent (snd (device_info (sample_world [Answer bare_401]))))
     = 1%nat.
Proof.
  destruct (makeAuthenticatedRequest_requires_digest
              toy_hash (list WireOutcome) scripted sample_cfg
              "GET" "/ISAPI/System/deviceInfo" NoBody ∅
              (sample_world [Answer bare_401]) bare_401 []
              eq_refl (conj eq_refl I)) as [Hres Hsent].
  split; [exact Hres|]. rewrite Hsent. reflexivity.
Defined.

(** Two worlds with the same entropy and different devices give the same
    header. *)
Lemma generateDigestAuth_digest_response_witness :
  fst (generateDigestAuth toy_hash (list WireOutcome) sample_cfg
         "GET" "/ISAPI/System/deviceInfo"
         (parseDigestHeader digest_challenge) (sample_world refusing_device))
  = fst (generateDigestAuth toy_hash (list WireOutcome) sample_cfg
           "GET" "/ISAPI/System/deviceInfo"
           (parseDigestHeader digest_challenge) (sample_world [])).
Proof.
  destruct (generateDigestAuth_digest_response
              toy_hash (list WireOutcome) sample_cfg
              "GET" "/ISAPI/System/deviceInfo"
              (parseDigestHeader digest_challenge) (sample_world []))
    as (_ & _ & _ & H & _).
  exact (H (sample_world refusing_device) eq_refl).
Defined.

(** The scenario of the specification: subject 7 with two active faces,
    a JPEG upload, the device unreachable. *)
Lemma mirror_failure_keeps_enrollment_witness :
  store_after scenario_run = store7_enrolled
  /\ reply scenario_run
     = {| reply_status := 200;
          reply_body :=
            EnrollReply true "Face enrolled successfully to database" 3 2
              {| hk_success := false;
                 hk_message :=
                   "Cannot connect to Hikvision device at 192.168.1.64";
                 hk_error :=
                   Some "Cannot connect to Hikvision device at 192.168.1.64"
              |} |}.
Proof.
  exact (mirror_failure_keeps_enrollment _ sample_enrollFace
           7 jpeg_upload store7 (sample_world []) persona7
           (new_face (buffer jpeg_upload) store7) store7_enrolled
           eq_refl eq_refl eq_refl).
Defined.

(** The payload on the seventh of March 2024. *)
Lemma enrollFace_payload_witness :
  exists fd more,
    sent (snd (sample_enrollFace 7 (buffer png_upload) "Ana Ruiz"
                 (sample_world [])))
    = enroll_request sample_cfg fd :: more
    /\ faceURL fd = "data:image/jpeg;base64,iVBORw=="
    /\ read_date (bornTime fd) = Some (2024, 3, 7).
Proof.
  destruct (enrollFace_payload toy_hash (list WireOutcome) scripted
              sample_cfg 7 (buffer png_upload) "Ana Ruiz" (sample_world []))
    as (fd & more & Hsent & _ & _ & _ & _ & _ & _ & _ & _ & Hurl & _ & Hdate).
  exists fd, more. split; [exact Hsent|]. split; [exact Hurl|].
  apply Hdate; vm_compute; split; discriminate.
Defined.

Lemma unknown_subject_changes_nothing_witness :
  store_after unknown_run = store7
  /\ sent (world_after unknown_run) = []
  /\ mirror_calls unknown_run = []
  /\ reply unknown_run = {| reply_status := 404;
                            reply_body := ErrorReply "Person not found" |}.
Proof.
  destruct (unknown_subject_changes_nothing _ sample_enrollFace
              99 (Some jpeg_upload) store7 (sample_world []) eq_refl)
    as (Hst & Hw & Hcalls & Hreply).
  split; [exact Hst|].
  split; [unfold unknown_run; now rewrite Hw|]. split; [exact Hcalls|].
  apply (Hreply jpeg_upload eq_refl eq_refl). vm_compute. reflexivity.
Defined.

Lemma enrollment_deactivates_and_links_witness :
  count_turned_off store7 (store_after scenario_run) = 2
  /\ perface_count 7 true (store_after scenario_run) = 1
  /\ perface_count 7 false (store_after scenario_run) = 2.
Proof.
  destruct (enrollment_deactivates_and_links _ sample_enrollFace
              7 jpeg_upload store7 (sample_world []) persona7
              store7_wf eq_refl)
    as (_ & Hoff & _ & _ & _ & Hon & _ & Hcount).
  split; [exact Hoff|]. split; [exact Hon|]. exact (Hcount eq_refl).
Defined.

Lemma png_is_mirrored_as_jpeg_witness :
  exists fd more,
    sent (world_after (sample_route 7 (Some png_upload) store7 []))
    = enroll_request sample_cfg fd :: more
    /\ faceURL fd = "data:image/jpeg;base64,iVBORw==".
Proof.
  destruct (png_is_mirrored_as_jpeg toy_hash (list WireOutcome) scripted
              sample_cfg 7 (buffer png_upload) store7 (sample_world [])
              persona7 store7_wf eq_refl)
    as (_ & _ & fd & more & Hsent & _ & Hurl).
  - vm_compute. reflexivity.
  - exists fd, more. split; [exact Hsent|exact Hurl].
Defined.

(** C6 (as stated) fails: a 401 whose only challenge is of the Basic
    scheme, in a realm named Digest, holds no Digest challenge; the call
    does not throw, but sends a second request, with an Authorization
    header of the Digest scheme, and returns the answer to it. *)
Lemma makeAuthenticatedRequest_basic_realm_counterexample :
  other_scheme_challenge basic_401 basic_challenge
  /\ challenge_scheme basic_challenge = "Basic"
  /\ fst (device_info (sample_world basic_device))
     = Ok {| status := 200; headers := ∅; data := "ok" |}
  /\ fst (device_info (sample_world basic_device)) <> Throw unsupported
  /\ exists second auth,
       sent (snd (device_info (sample_world basic_device)))
       = [initial_request sample_cfg "GET" "/ISAPI/System/deviceInfo"
            NoBody ∅; second]
       /\ req_headers second !! "Authorization" = Some auth
       /\ String.prefix "Digest username=" auth = true.
Proof.
  split.
  { split; [reflexivity|]. split; [reflexivity|].
    split; [vm_compute; discriminate|vm_compute; reflexivity]. }
  split; [vm_compute; reflexivity|].
  split; [vm_compute; reflexivity|].
  split; [vm_compute; discriminate|].
  eexists _, _. split; [vm_compute; reflexivity|].
  split; vm_compute; reflexivity.
Qed.

(** C2 (as stated) fails: after one enrollment subject 7 has one active
    face and two inactive ones; the next enrollment turns off one face,
    and the response reports three. *)
Lemma deactivatedFaces_counterexample :
  wf_store store7_enrolled
  /\ perface_count 7 true store7_enrolled = 1
  /\ count_turned_off store7_enrolled (store_after second_run) = 1
  /\ (exists report,
        reply second_run
        = {| reply_status := 200;
             reply_body :=
               EnrollReply true "Face enrolled successfully to database"
                 4 3 report |})
  /\ 3 <> perface_count 7 true store7_enrolled.
Proof.
  split; [exact store7_enrolled_wf|].
  split; [vm_compute; reflexivity|].
  split; [vm_compute; reflexivity|].
  split; [eexists; vm_compute; reflexivity|].
  vm_compute. discriminate.
Qed.

End Witnesses.

(** ** More on the device client *)

Module ClientMore.
Import Node DigestHeader Hikvision Call ClientFacts.

#[local] Arguments toHex : simpl never.
#[local] Arguments parseDigestHeader : simpl never.
#[local] Arguments digest_header : simpl never.
#[local] Arguments Js.includes : simpl never.
#[local] Arguments Js.int_toString : simpl never.
#[local] Arguments baseURL : simpl never.
#[local] Arguments String.append : simpl never.

Section Client.
Variable md5 : string -> string.
Variable Dev : Type.
Variable wire : Dev -> Request -> WireOutcome * Dev.
Variable cfg : Config.

Local Abbreviation request := (makeAuthenticatedRequest md5 Dev wire cfg).
Local Abbreviation first_of := (initial_request cfg).
Local Abbreviation second_of := (authenticated_request md5 cfg).

Lemma validate_2xx_not_401 (s : Z) :
  validate_2xx s = true -> (s =? 401) = false.
Proof.
  unfold validate_2xx. intros H. apply andb_true_iff in H as [_ H].
  apply Z.ltb_lt in H. apply Z.eqb_neq. lia.
Qed.

(** X4: a first answer of status 2xx is the result of the call: one request
    went out, without an Authorization header of the client's making, and
    no client nonce was drawn. *)
Theorem success_needs_no_digest
    method endpoint data headers (w : World Dev) r1 d1 :
  wire (dev w) (first_of method endpoint data headers) = (Answer r1, d1) ->
  validate_2xx (status r1) = true ->
  fst (request method endpoint data headers w) = Ok r1
  /\ sent (snd (request method endpoint data headers w))
     = (sent w ++ [first_of method endpoint data headers])%list
  /\ drawn (snd (request method endpoint data headers w)) = drawn w.
Proof.
  intros Hw Hok. rewrite request_cases. cbv zeta. rewrite Hw.
  rewrite (validate_2xx_not_401 _ Hok), Hok. repeat split.
Qed.

(** X5: a first answer that is neither a 401 nor a 2xx ends the call: the
    error of the rejected status is thrown with the response attached,
    and nothing more is sent. *)
Theorem other_status_is_final
    method endpoint data headers (w : World Dev) r1 d1 :
  wire (dev w) (first_of method endpoint data headers) = (Answer r1, d1) ->
  status r1 <> 401 ->
  validate_2xx (status r1) = false ->
  fst (request method endpoint data headers w) = Throw (status_error r1)
  /\ response (status_error r1) = Some r1
  /\ sent (snd (request method endpoint data headers w))
     = (sent w ++ [first_of method endpoint data headers])%list.
Proof.
  intros Hw H401 Hbad. rewrite request_cases. cbv zeta. rewrite Hw.
  apply Z.eqb_neq in H401. rewrite H401, Hbad, rethrown_status_error.
  repeat split.
Qed.

Lemma request_ok_2xx method endpoint data headers (w : World Dev) r :
  fst (request method endpoint data headers w) = Ok r ->
  200 <= status r < 300.
Proof.
  rewrite request_cases. cbv zeta.
  assert (Hrange : forall s, validate_2xx s = true -> 200 <= s < 300).
  { intros s H. unfold validate_2xx in H.
    apply andb_true_iff in H as [H1 H2].
    apply Z.leb_le in H1. apply Z.ltb_lt in H2. lia. }
  destruct (wire (dev w) _) as [[r1|c msg] d1]; [|discriminate].
  destruct (status r1 =? 401).
  - destruct (Hikvision.headers r1 !! "www-authenticate") as [h|];
      [|discriminate].
    destruct (Js.includes "Digest" h); [|discriminate].
    destruct (wire d1 _) as [[r2|c msg] d2]; [|discriminate].
    destruct (validate_2xx (status r2)) eqn:E; [|discriminate].
    intros [= <-]. now apply Hrange.
  - destruct (validate_2xx (status r1)) eqn:E; [|discriminate].
    intros [= <-]. now apply Hrange.
Qed.

(** X6: a call returns a response only when its status is 2xx: a 401 is never
    handed to the caller as a result. *)
Theorem returned_status_is_2xx
    method endpoint data headers (w : World Dev) r :
  fst (request method endpoint data headers w) = Ok r ->
  200 <= status r < 300.
Proof. apply request_ok_2xx. Qed.

(** X7: after a Digest challenge the call has drawn sixteen bytes of entropy,
    so the client nonce of the next call comes from the sixteen bytes
    that follow: no byte serves two client nonces. *)
Theorem challenge_consumes_entropy
    method endpoint data headers (w : World Dev) r1 d1 h :
  wire (dev w) (first_of method endpoint data headers) = (Answer r1, d1) ->
  digest_challenge_in r1 h ->
  let w' := snd (request method endpoint data headers w) in
  drawn w' = (drawn w + 16)%nat
  /\ entropy w' = entropy w
  /\ next_cnonce Dev w'
     = toHex (map (fun i => entropy w (drawn w + 16 + i)%nat) (seq 0 16)).
Proof.
  intros Hw (H401 & Hh & Hinc). cbv zeta. rewrite request_cases. cbv zeta.
  rewrite Hw. apply Z.eqb_eq in H401. rewrite H401, Hh, Hinc.
  destruct (wire d1 _) as [[r2|c msg] d2];
    [destruct (validate_2xx (status r2))|]; repeat split.
Qed.

End Client.
End ClientMore.

(** ** The public operations of the client *)

Module OperationFacts.
Import Node DigestHeader Hikvision Call ClientFacts ClientMore.

#[local] Arguments toHex : simpl never.
#[local] Arguments parseDigestHeader : simpl never.
#[local] Arguments digest_header : simpl never.
#[local] Arguments Js.includes : simpl never.
#[local] Arguments Js.int_toString : simpl never.
#[local] Arguments baseURL : simpl never.
#[local] Arguments String.append : simpl never.
#[local] Arguments makeAuthenticatedRequest : simpl never.
#[local] Arguments face_payload : simpl never.

Section Operations.
Variable md5 : string -> string.
Variable Dev : Type.
Variable wire : Dev -> Request -> WireOutcome * Dev.
Variable cfg : Config.

Local Abbreviation request := (makeAuthenticatedRequest md5 Dev wire cfg).
Local Abbreviation enroll := (enrollFace md5 Dev wire cfg).

Local Abbreviation enroll_call personId imageBuffer personName w :=
  (request "POST" "/ISAPI/Intelligent/FDLib/FDSet"
     (JsonBody (face_payload personId imageBuffer personName (clock w)))
     (<["Content-Type" := "application/json"]>
        (<["Accept" := "application/json"]> ∅)) w).

(** [enrollFace] by the outcome of its call. *)
Lemma enrollFace_ok personId imageBuffer personName (w : World Dev) r w' :
  enroll_call personId imageBuffer personName w = (Ok r, w') ->
  enroll personId imageBuffer personName w
  = (Ok {| success := true; env_data := Some (data r);
           env_deviceInfo := None; env_status := Some (status r);
           env_message :=
             Some "Face enrolled successfully to Hikvision device";
           env_error := None; env_details := None |}, w').
Proof.
  intros H. unfold enrollFace, try_catch, bind, now, ret. now rewrite H.
Qed.

Lemma enrollFace_thrown personId imageBuffer personName (w : World Dev) e w' :
  enroll_call personId imageBuffer personName w = (Throw e, w') ->
  enroll personId imageBuffer personName w
  = (Ok {| success := false; env_data := None; env_deviceInfo := None;
           env_status := error_status e; env_message := None;
           env_error := Some (message e);
           env_details := error_details e |}, w').
Proof.
  intros H. unfold enrollFace, try_catch, bind, now, ret. now rewrite H.
Qed.

(** X9: the envelope of [enrollFace] reports success exactly for a final
    answer of status 2xx, with that status and the success message; a
    failure carries no data and no message, the message of the error that
    ended the call, and the status of the rejected answer when there was
    one. *)
Theorem enrollFace_envelope personId imageBuffer personName (w : World Dev) :
  exists env w',
    enroll personId imageBuffer personName w = (Ok env, w')
    /\ if success env then
         (exists r,
             fst (enroll_call personId imageBuffer personName w) = Ok r
             /\ 200 <= status r < 300
             /\ env_status env = Some (status r)
             /\ env_data env = Some (data r))
         /\ env_message env
            = Some "Face enrolled successfully to Hikvision device"
         /\ env_error env = None
       else
         (exists e,
             fst (enroll_call personId imageBuffer personName w) = Throw e
             /\ env_error env = Some (message e)
             /\ env_status env = error_status e)
         /\ env_data env = None /\ env_message env = None.
Proof.
  destruct (enroll_call personId imageBuffer personName w) as [[r|e] w']
    eqn:Hcall.
  - rewrite (enrollFace_ok _ _ _ _ _ _ Hcall). eexists _, _.
    split; [reflexivity|]. cbn [success].
    assert (Hs : 200 <= status r < 300).
    { eapply (request_ok_2xx md5 Dev wire cfg).
      rewrite Hcall. reflexivity. }
    split; [exists r|]; repeat split; apply Hs.
  - rewrite (enrollFace_thrown _ _ _ _ _ _ Hcall). eexists _, _.
    split; [reflexivity|]. cbn [success].
    split; [exists e|]; repeat split.
Qed.

(** X10: a device that cannot be reached is told apart in the envelope: a
    refused connection and a timed-out connection are reported with the
    client's own two messages, which name the device address; any other
    transport failure is reported with the message of the transport. In
    each case one request was sent and the envelope has neither status
    nor details. *)
Theorem enrollFace_unreachable
    personId imageBuffer personName (w : World Dev) c msg d1 :
  wire (dev w)
       (enroll_request cfg
          (face_payload personId imageBuffer personName (clock w)))
  = (Failure c msg, d1) ->
  exists env w',
    enroll personId imageBuffer personName w = (Ok env, w')
    /\ success env = false
    /\ length (sent w') = S (length (sent w))
    /\ env_error env
       = Some (if decide (c = "ECONNREFUSED") then
                 "Cannot connect to Hikvision device at "
                   +:+ Js.template (deviceIP cfg)
               else if decide (c = "ETIMEDOUT") then
                 "Connection timeout to Hikvision device at "
                   +:+ Js.template (deviceIP cfg)
               else msg)
    /\ env_status env = None
    /\ env_details env = None.
Proof.
  intros Hw.
  assert (Hcall : enroll_call personId imageBuffer personName w
                  = (Throw (rethrown cfg (transport_error c msg)),
                     sending Dev d1
                       (enroll_request cfg
                          (face_payload personId imageBuffer personName
                             (clock w))) w)).
  { rewrite request_cases. cbv zeta.
    change (initial_request cfg "POST" "/ISAPI/Intelligent/FDLib/FDSet" _ _)
      with (enroll_request cfg
              (face_payload personId imageBuffer personName (clock w))).
    now rewrite Hw. }
  rewrite (enrollFace_thrown _ _ _ _ _ _ Hcall). eexists _, _.
  split; [reflexivity|]. split; [reflexivity|].
  split; [unfold sending; cbn [sent]; rewrite length_app; cbn; lia|].
  unfold rethrown, transport_error, error_status, error_details.
  cbn [code success env_error env_status env_details].
  repeat case_decide; try congruence; repeat split.
Qed.

(** The other operations leave the world as their one call leaves it, and
    always return. *)
Ltac op_world :=
  unfold testConnection, getFaceDatabase, deleteFace, getDeviceCapabilities,
    try_catch, bind, ret;
  match goal with
  | |- context [makeAuthenticatedRequest ?a ?b ?c ?d ?e ?f ?g ?h ?w] =>
      destruct (makeAuthenticatedRequest a b c d e f g h w) as [[r|e'] w']
  end.

Lemma testConnection_world (w : World Dev) :
  snd (testConnection md5 Dev wire cfg w)
  = snd (request "GET" "/ISAPI/System/deviceInfo" NoBody ∅ w)
  /\ exists env, fst (testConnection md5 Dev wire cfg w) = Ok env.
Proof. op_world; split; try reflexivity; eexists; reflexivity. Qed.

Lemma getFaceDatabase_world (w : World Dev) :
  snd (getFaceDatabase md5 Dev wire cfg w)
  = snd (request "GET" "/ISAPI/Intelligent/FDLib" NoBody ∅ w)
  /\ exists env, fst (getFaceDatabase md5 Dev wire cfg w) = Ok env.
Proof. op_world; split; try reflexivity; eexists; reflexivity. Qed.

Lemma getDeviceCapabilities_world (w : World Dev) :
  snd (getDeviceCapabilities md5 Dev wire cfg w)
  = snd (request "GET" "/ISAPI/Intelligent/FDLib/capabilities" NoBody ∅ w)
  /\ exists env, fst (getDeviceCapabilities md5 Dev wire cfg w) = Ok env.
Proof. op_world; split; try reflexivity; eexists; reflexivity. Qed.

Lemma deleteFace_world personId (w : World Dev) :
  snd (deleteFace md5 Dev wire cfg personId w)
  = snd (request "DELETE"
           ("/ISAPI/Intelligent/FDLib/FDSet?FDID=1&FPID="
              +:+ Js.int_toString personId) NoBody ∅ w).
Proof. op_world; reflexivity. Qed.

(** X11: [deleteFace] sends a DELETE without body to the library-set endpoint
    with the query FDID=1 and FPID set to the decimal subject id, and at
    most one repetition of it (the authenticated one); the id reads back
    from the query. *)
Theorem deleteFace_request personId (w : World Dev) :
  let endpoint := "/ISAPI/Intelligent/FDLib/FDSet?FDID=1&FPID="
                    +:+ Js.int_toString personId in
  (exists more,
      sent (snd (deleteFace md5 Dev wire cfg personId w))
      = (sent w ++ {| method := "DELETE"; url := baseURL cfg +:+ endpoint;
                      body := NoBody; req_headers := ∅ |} :: more)%list
      /\ (length more <= 1)%nat
      /\ Forall (fun r => method r = "DELETE"
                          /\ url r = baseURL cfg +:+ endpoint
                          /\ body r = NoBody) more)
  /\ option_map Z.of_int (NilZero.int_of_string (Js.int_toString personId))
     = Some personId.
Proof.
  cbv zeta. split.
  - rewrite deleteFace_world. apply (request_sent md5 Dev wire cfg).
  - apply PayloadFacts.int_toString_reads_back.
Qed.

End Operations.
End OperationFacts.

(** ** The device and health routes *)

Module PortalFacts.
Import Node DigestHeader Hikvision Call ClientFacts OperationFacts Portal.

Section Routes.
Variable md5 : string -> string.
Variable Dev : Type.
Variable wire : Dev -> Request -> WireOutcome * Dev.
Variable cfg : Config.

Ltac run_route call :=
  cbv zeta;
  unfold get_hikvision_status, get_hikvision_capabilities,
    get_hikvision_database, device_route, testConnection,
    getDeviceCapabilities, getFaceDatabase, try_catch, bind, ret;
  pose proof call as H2xx;
  match type of H2xx with
  | context [fst ?c] => destruct c as [[r|e] w']
  end;
  cbn [fst snd dr_status dr_body success env_error env_data env_deviceInfo]
    in *;
  (split; [reflexivity|]); (split; [reflexivity|]);
  [split; [now eapply H2xx|]; repeat split; auto|repeat split].

(** X12: the three device routes answer 200 whatever the device does,
    after the one call of their operation, and the 500 of the routes is
    never sent. The body tells what became of the call: its success is
    true exactly when the call returned a response, of status 2xx, whose
    data it carries; when the call threw, the failure is in the body, with
    success false, the message of the error, and no data. *)
Theorem device_routes_answer_200 :
  hands_on Dev
    (makeAuthenticatedRequest md5 Dev wire cfg
       "GET" "/ISAPI/System/deviceInfo" NoBody ∅)
    (get_hikvision_status md5 Dev wire cfg)
  /\ hands_on Dev
       (makeAuthenticatedRequest md5 Dev wire cfg
          "GET" "/ISAPI/Intelligent/FDLib/capabilities" NoBody ∅)
       (get_hikvision_capabilities md5 Dev wire cfg)
  /\ hands_on Dev
       (makeAuthenticatedRequest md5 Dev wire cfg
          "GET" "/ISAPI/Intelligent/FDLib" NoBody ∅)
       (get_hikvision_database md5 Dev wire cfg).
Proof.
  split; [|split]; intros w.
  - run_route (ClientMore.request_ok_2xx md5 Dev wire cfg
                 "GET" "/ISAPI/System/deviceInfo" NoBody ∅ w).
  - run_route (ClientMore.request_ok_2xx md5 Dev wire cfg
                 "GET" "/ISAPI/Intelligent/FDLib/capabilities" NoBody ∅ w).
  - run_route (ClientMore.request_ok_2xx md5 Dev wire cfg
                 "GET" "/ISAPI/Intelligent/FDLib" NoBody ∅ w).
Qed.

(** X13: the health route: when the store does not answer its probe, the reply
    is the 500 unhealthy one and the device is not contacted; when it
    does, the reply is 200 and healthy whatever the device does, with
    connected telling whether the device answered the probe with a 2xx,
    after one or two requests. *)
Theorem health_reports (w : World Dev) :
  get_health md5 Dev wire cfg false w = (unhealthy cfg, w)
  /\ (let '(reply, w') := get_health md5 Dev wire cfg true w in
      health_code reply = 200
      /\ health_status reply = "healthy"
      /\ health_database reply = "connected"
      /\ (exists more,
            sent w'
            = (sent w ++ initial_request cfg "GET" "/ISAPI/System/deviceInfo"
                           NoBody ∅ :: more)%list
            /\ (length more <= 1)%nat)
      /\ (if health_connected reply then
            exists r,
              fst (makeAuthenticatedRequest md5 Dev wire cfg
                     "GET" "/ISAPI/System/deviceInfo" NoBody ∅ w) = Ok r
              /\ 200 <= status r < 300
          else
            exists e,
              fst (makeAuthenticatedRequest md5 Dev wire cfg
                     "GET" "/ISAPI/System/deviceInfo" NoBody ∅ w) = Throw e)).
Proof.
  split; [reflexivity|].
  unfold get_health, testConnection, try_catch, bind, ret.
  pose proof (request_sent md5 Dev wire cfg "GET" "/ISAPI/System/deviceInfo"
                NoBody ∅ w) as (more & Hsent & Hlen & _).
  pose proof (ClientMore.request_ok_2xx md5 Dev wire cfg
                "GET" "/ISAPI/System/deviceInfo" NoBody ∅ w) as H2xx.
  destruct (makeAuthenticatedRequest md5 Dev wire cfg
              "GET" "/ISAPI/System/deviceInfo" NoBody ∅ w) as [[r|e] w'].
  - cbn [snd fst] in *. repeat split.
    + now exists more.
    + cbn. exists r. split; [reflexivity|now apply H2xx].
  - cbn [snd fst] in *. repeat split.
    + now exists more.
    + cbn. now exists e.
Qed.

End Routes.
End PortalFacts.

(** ** What the parser returns on any text *)

Module ParsedFacts.
Import Regex DigestHeader Node Challenge Parsed RegexFacts ParserFacts.

Lemma star_inv {A} (p : ascii -> bool) (s : list ascii)
    (k : list ascii -> option A) (a : A) :
  star p s k = Some a ->
  exists v rest,
    s = (v ++ rest)%list /\ Forall (fun c => p c = true) v
    /\ k rest = Some a.
Proof.
  induction s as [|c t IH]; simpl.
  - intros H. exists [], []. now repeat split.
  - destruct (p c) eqn:Hc.
    + destruct (star p t k) as [a'|] eqn:Hs.
      * intros [= ->]. destruct (IH eq_refl) as (v & rest & -> & Hv & Hk).
        exists (c :: v), rest. repeat split; [now constructor|exact Hk].
      * intros H. exists [], (c :: t). now repeat split.
    + intros H. exists [], (c :: t). now repeat split.
Qed.

Lemma plus_inv {A} (p : ascii -> bool) (s : list ascii)
    (k : list ascii -> option A) (a : A) :
  plus p s k = Some a ->
  exists v rest,
    s = (v ++ rest)%list /\ v <> [] /\ Forall (fun c => p c = true) v
    /\ k rest = Some a.
Proof.
  destruct s as [|c t]; simpl; [discriminate|].
  destruct (p c) eqn:Hc; [|discriminate].
  intros H. apply star_inv in H as (v & rest & -> & Hv & Hk).
  exists (c :: v), rest. repeat split; [discriminate|now constructor|exact Hk].
Qed.

(** A match of the pattern, read backwards: the text starts with a name of
    word characters and an equals sign, and the two groups are the name
    and a non-empty run of value characters. *)
Lemma match_here_inv (s : list ascii) (caps : captures) (rest : list ascii) :
  match_here digest_regex s = Some (caps, rest) ->
  exists key val after,
    s = (key ++ "="%char :: after)%list
    /\ key <> [] /\ Forall (fun c => is_word c = true) key
    /\ val <> [] /\ Forall (fun c => is_value_char c = true) val
    /\ caps = <[2%nat := val]> (<[1%nat := key]> ∅).
Proof.
  unfold match_here, digest_regex. cbn [rmatch]. intros H.
  apply plus_inv in H as (key & r1 & -> & Hne & Hkey & H).
  rewrite take_app_length_diff in H.
  destruct r1 as [|x t]; [discriminate|].
  destruct (Ascii.eqb_spec x "="%char) as [->|]; [|discriminate].
  exists key.
  assert (Hclose : forall (C : captures) (r2 : list ascii),
            match match r2 with
                  | [] => None
                  | x1 :: t1 => if is_quote x1 then Some (C, t1) else None
                  end with
            | Some a => Some a
            | None => Some (C, r2)
            end = Some (caps, rest) -> caps = C).
  { intros C r2. destruct r2 as [|x1 t1]; [now intros [= <- _]|].
    destruct (is_quote x1); now intros [= <- _]. }
  assert (Hbare : plus is_value_char t
            (fun s' =>
               match match s' with
                     | [] => None
                     | x0 :: t0 =>
                         if is_quote x0 then
                           Some (<[2%nat := take (length t - length s') t]>
                                   (<[1%nat := key]> ∅), t0)
                         else None
                     end with
               | Some a => Some a
               | None => Some (<[2%nat := take (length t - length s') t]>
                                 (<[1%nat := key]> ∅), s')
               end) = Some (caps, rest) ->
          exists val after,
            (key ++ "="%char :: t)%list = (key ++ "="%char :: after)%list
            /\ key <> [] /\ Forall (fun c => is_word c = true) key
            /\ val <> [] /\ Forall (fun c => is_value_char c = true) val
            /\ caps = <[2%nat := val]> (<[1%nat := key]> ∅)).
  { intros P. apply plus_inv in P as (val & r2 & -> & Hvne & Hval & P).
    rewrite take_app_length_diff in P. apply Hclose in P.
    exists val, (val ++ r2)%list. now repeat split. }
  destruct t as [|x0 t0]; [discriminate|].
  destruct (is_quote x0) eqn:Q; [|exact (Hbare H)].
  destruct (plus is_value_char t0 _) as [p|] eqn:P1; [|exact (Hbare H)].
  injection H as ->.
  apply plus_inv in P1 as (val & r2 & -> & Hvne & Hval & P).
  rewrite take_app_length_diff in P. apply Hclose in P.
  exists val, (x0 :: val ++ r2)%list. now repeat split.
Qed.

Lemma all_chars_of_list (p : ascii -> bool) (l : list ascii) :
  Forall (fun c => p c = true) l ->
  all_chars p (string_of_list_ascii l) = true.
Proof.
  induction 1 as [|c l Hc _ IH]; simpl; [reflexivity|]. now rewrite Hc, IH.
Qed.

Lemma string_of_list_nonempty (l : list ascii) :
  l <> [] -> string_of_list_ascii l <> "".
Proof. destruct l; [congruence|discriminate]. Qed.

Lemma record_match_ok (m : gmap string string) (key val : list ascii) :
  entries_ok m ->
  key <> [] -> Forall (fun c => is_word c = true) key ->
  val <> [] -> Forall (fun c => is_value_char c = true) val ->
  entries_ok (record_match m (<[2%nat := val]> (<[1%nat := key]> ∅))).
Proof.
  intros Hm Hk1 Hk2 Hv1 Hv2. unfold record_match.
  rewrite lookup_insert_ne by discriminate. rewrite !lookup_insert_eq.
  cbn [default]. unfold assign.
  destruct (String.eqb _ "__proto__"); [exact Hm|].
  intros k v. rewrite lookup_insert. case_decide as E.
  - intros [= <-]. subst k. split; split;
      auto using string_of_list_nonempty, all_chars_of_list.
  - apply Hm.
Qed.

Lemma exec_loop_ok (s : list ascii) :
  forall (skip : nat) (m : gmap string string),
    entries_ok m -> entries_ok (exec_loop skip s m).
Proof.
  induction s as [|c t IH]; intros skip m Hm; [exact Hm|].
  destruct skip as [|n]; [|now apply IH].
  cbn [exec_loop].
  destruct (match_here digest_regex (c :: t)) as [[caps rest]|] eqn:Hmatch;
    [|now apply IH].
  apply match_here_inv in Hmatch
    as (key & val & after & _ & Hk1 & Hk2 & Hv1 & Hv2 & ->).
  apply IH. now apply record_match_ok.
Qed.

(** X1: whatever the text of the header, every entry of the object that
    [parseDigestHeader] returns has a non-empty key made of word
    characters and a non-empty value free of commas and quote
    characters. *)
Theorem parseDigestHeader_entries (authHeader k v : string) :
  parseDigestHeader authHeader !! k = Some v ->
  key_ok k /\ value_ok v.
Proof.
  unfold parseDigestHeader. apply exec_loop_ok.
  intros k' v'. rewrite lookup_empty. discriminate.
Qed.

(** Without an equals sign nothing matches. *)
Lemma exec_loop_no_equals (s : list ascii) :
  forall (skip : nat) (m : gmap string string),
    ~ In "="%char s -> exec_loop skip s m = m.
Proof.
  induction s as [|c t IH]; intros skip m Hno; [reflexivity|].
  assert (Ht : ~ In "="%char t) by (intros H; apply Hno; now right).
  destruct skip as [|n]; [|now apply IH].
  cbn [exec_loop].
  destruct (match_here digest_regex (c :: t)) as [[caps rest]|] eqn:Hmatch;
    [|now apply IH].
  exfalso. apply match_here_inv in Hmatch as (key & val & after & E & _).
  apply Hno. rewrite E. apply in_or_app. right. now left.
Qed.

Lemma lacks_not_in (sep : ascii) (s : string) :
  lacks sep s = true -> ~ In sep (list_ascii_of_string s).
Proof.
  induction s as [|c s IH]; simpl; [tauto|].
  intros H. apply andb_true_iff in H as [Hc Hs].
  apply negb_true_iff in Hc. intros [->|Hin].
  - now rewrite Ascii.eqb_refl in Hc.
  - now apply IH.
Qed.

(** X2: a header without an equals sign parses to the empty object: no
    directive is found, and none is reported as missing. *)
Theorem parseDigestHeader_no_directive (authHeader : string) :
  lacks "="%char authHeader = true ->
  parseDigestHeader authHeader = ∅.
Proof.
  intros H. apply exec_loop_no_equals. now apply lacks_not_in.
Qed.

(** Recording directives one after the other keeps, under a name, the
    value of the last directive of that name. *)
Lemma foldl_record_last (before later : list directive) (d : directive)
    (m : gmap string string) :
  ~ named_later d later ->
  string_of_list_ascii (d_name d) <> "__proto__" ->
  foldl record_directive m (before ++ d :: later)
    !! string_of_list_ascii (d_name d)
  = Some (string_of_list_ascii (d_value d)).
Proof.
  intros Hlater Hproto. unfold named_later in Hlater.
  induction later as [|x later IH] using rev_ind.
  - rewrite foldl_app. simpl. unfold record_directive at 1, assign.
    rewrite (proj2 (String.eqb_neq _ _) Hproto). apply lookup_insert_eq.
  - rewrite app_comm_cons, app_assoc, foldl_app. simpl.
    assert (Hx : d_name x <> d_name d).
    { intros E. apply Hlater. apply Exists_app. right. now constructor. }
    assert (Hkey : string_of_list_ascii (d_name x)
                   <> string_of_list_ascii (d_name d)).
    { intros E. apply Hx.
      rewrite <- (list_ascii_of_string_of_list_ascii (d_name x)), E.
      apply list_ascii_of_string_of_list_ascii. }
    assert (IH' : foldl record_directive m (before ++ d :: later)
                    !! string_of_list_ascii (d_name d)
                  = Some (string_of_list_ascii (d_value d))).
    { apply IH. intros E. apply Hlater. apply Exists_app. now left. }
    unfold record_directive at 1, assign.
    destruct (String.eqb _ "__proto__"); [exact IH'|].
    now rewrite lookup_insert_ne.
Qed.

(** X3: when a directive name occurs more than once in a challenge of plain
    values, the object holds the value of its last occurrence: an earlier
    nonce or realm is overwritten. *)
Theorem parseDigestHeader_last_wins (before later : list directive)
    (d : directive) :
  Forall name_ok (before ++ d :: later) ->
  Forall value_plain (before ++ d :: later) ->
  ~ named_later d later ->
  string_of_list_ascii (d_name d) <> "__proto__" ->
  parseDigestHeader (render_challenge (before ++ d :: later))
    !! string_of_list_ascii (d_name d)
  = Some (string_of_list_ascii (d_value d)).
Proof.
  intros Hn Hv Hlater Hproto.
  rewrite parse_render_challenge by assumption.
  now apply foldl_record_last.
Qed.

End ParsedFacts.

(** ** The enrollment route over the states of the store *)

Module HistoryFacts.
Import Node Hikvision Store Server App Call Workflow StoreFacts Histories.

Lemma transaction_first_step (pid : Z) (st : Store) :
  (if (0 <? length (perface_findMany pid st))%nat
   then face_updateMany (map pf_facialID (perface_findMany pid st)) st
   else st)
  = face_updateMany (subject_face_ids pid st) st.
Proof.
  unfold subject_face_ids.
  destruct (perface_findMany pid st) as [|pf l] eqn:E; [|reflexivity].
  simpl. unfold face_updateMany. simpl. rewrite deactivate_none.
  now destruct st.
Qed.

(** The persist step on any store: it commits the store [committed], or
    throws and leaves every row as it was. *)
Lemma transaction_inv (pid : Z) (buf : list byte) (st : Store) :
  match transaction pid buf st with
  | (Ok r, st') => r = new_face buf st /\ st' = committed pid buf st
  | (Throw _, st') => same_rows st' st
  end.
Proof.
  unfold transaction. rewrite transaction_first_step.
  unfold face_create, perface_create, per_findUnique, face_find,
    face_updateMany, rollback, same_rows.
  cbn [per face perface face_seq].
  destruct (find _ (map _ (face st))); [now repeat split|].
  cbn [per face perface face_seq facialID].
  destruct (existsb _ (perface st)); [now repeat split|].
  destruct (find _ (per st)); [|now repeat split].
  destruct (find _ (_ ++ _)); now repeat split.
Qed.

Section AnyClient.
Variable W : Type.
Variable svc_enrollFace : Z -> list byte -> string -> W -> Result Envelope * W.

Local Abbreviation route := (post_enroll W svc_enrollFace).
Local Abbreviation handler := (enroll_handler W svc_enrollFace).

(** The handler by cases: a reply other than the 200 with the rows
    untouched and no call to the client, or the 200 with the committed
    store and one call. *)
Lemma handler_cases (personaID : Z) (file : option Upload) (st : Store)
    (w : W) :
  (reply_status (reply (handler personaID file st w)) <> 200
   /\ same_rows (store_after (handler personaID file st w)) st
   /\ world_after (handler personaID file st w) = w
   /\ mirror_calls (handler personaID file st w) = [])
  \/ (reply_status (reply (handler personaID file st w)) = 200
      /\ exists f persona,
           file = Some f
           /\ per_findUnique personaID st = Some persona
           /\ store_after (handler personaID file st w)
              = committed personaID (buffer f) st
           /\ mirror_calls (handler personaID file st w)
              = [{| call_personId := personaID; call_image := buffer f;
                    call_name := mirror_name personaID persona |}]).
Proof.
  unfold enroll_handler.
  destruct file as [f|]; [|left; now repeat split].
  destruct (per_findUnique personaID st) as [persona|] eqn:Hper;
    [|left; now repeat split].
  pose proof (transaction_inv personaID (buffer f) st) as Htx.
  destruct (transaction personaID (buffer f) st) as [[r|e] st'].
  - destruct Htx as [-> ->].
    destruct (svc_enrollFace _ _ _ w) as [outcome w'].
    right. split; [reflexivity|]. exists f, persona. now repeat split.
  - left. split; [discriminate|]. split; [exact Htx|]. now split.
Qed.

(** X14: all or nothing: the route answers 200 exactly when the enrollment is
    committed, and then the client is called once, with the subject id
    and the bytes of the upload; with every other answer (a missing or
    refused upload, an unknown subject, a failed write) no row of the
    store has changed and the client has not been called. *)
Theorem enrollment_is_all_or_nothing
    (personaID : Z) (image : option Upload) (st : Store) (w : W) :
  if reply_status (reply (route personaID image st w)) =? 200 then
    exists file,
      image = Some file
      /\ fileFilter file = true
      /\ store_after (route personaID image st w)
         = committed personaID (buffer file) st
      /\ map (fun c => (call_personId c, call_image c))
             (mirror_calls (route personaID image st w))
         = [(personaID, buffer file)]
  else
    same_rows (store_after (route personaID image st w)) st
    /\ world_after (route personaID image st w) = w
    /\ mirror_calls (route personaID image st w) = [].
Proof.
  unfold post_enroll.
  assert (Hh : forall file,
            if reply_status (reply (handler personaID file st w)) =? 200 then
              exists f,
                file = Some f
                /\ store_after (handler personaID file st w)
                   = committed personaID (buffer f) st
                /\ map (fun c => (call_personId c, call_image c))
                       (mirror_calls (handler personaID file st w))
                   = [(personaID, buffer f)]
            else
              same_rows (store_after (handler personaID file st w)) st
              /\ world_after (handler personaID file st w) = w
              /\ mirror_calls (handler personaID file st w) = []).
  { intros file.
    destruct (handler_cases personaID file st w)
      as [(Hne & H)|(He & f & persona & -> & _ & Hst & Hcalls)].
    - apply Z.eqb_neq in Hne. now rewrite Hne.
    - rewrite He. change (200 =? 200) with true. cbv iota.
      exists f. rewrite Hcalls. now repeat split. }
  destruct image as [file|]; [|exact (Hh None)].
  destruct (fileFilter file) eqn:Hf; cbn [negb].
  - destruct (fileSize_limit <=? Z.of_nat (length (buffer file)));
      [cbn; now repeat split|].
    specialize (Hh (Some file)).
    destruct (reply_status _ =? 200); [|exact Hh].
    destruct Hh as (f & [= <-] & Hst & Hcalls). exists file. now repeat split.
  - cbn [reply store_after world_after mirror_calls json reply_status].
    now repeat split.
Qed.

(** X15: the route keeps the constraints of the schema, whatever the request
    and whatever the device does. *)
Theorem route_keeps_schema
    (personaID : Z) (image : option Upload) (st : Store) (w : W) :
  wf_store st ->
  wf_store (store_after (route personaID image st w)).
Proof.
  intros Hwf. unfold post_enroll.
  assert (Hh : forall file,
            wf_store (store_after (handler personaID file st w))).
  { intros file. unfold enroll_handler.
    destruct file as [f|]; [|exact Hwf].
    destruct (per_findUnique personaID st) as [persona|] eqn:Hper;
      [|exact Hwf].
    rewrite (transaction_commits _ _ _ _ Hwf Hper).
    destruct (svc_enrollFace _ _ _ w) as [outcome w'].
    cbn [store_after json]. now apply (committed_wf _ _ _ persona). }
  destruct image as [file|]; [|apply Hh].
  destruct (negb (fileFilter file)); [exact Hwf|].
  destruct (fileSize_limit <=? _); [exact Hwf|apply Hh].
Qed.

End AnyClient.
End HistoryFacts.

(** ** What an enrollment does to the rest of the store *)

Module InvariantFacts.
Import Node Hikvision Store Server App Call Workflow StoreFacts Histories.
Import HistoryFacts.

Lemma filter_length_mono {A} (P Q : A -> Prop)
    `{forall x, Decision (P x)} `{forall x, Decision (Q x)} (l : list A) :
  (forall x, x ∈ l -> P x -> Q x) ->
  (length (filter P l) <= length (filter Q l))%nat.
Proof.
  induction l as [|x l IH]; intros Himp; [reflexivity|].
  assert (IH' : (length (filter P l) <= length (filter Q l))%nat).
  { apply IH. intros y Hy. apply Himp. now apply list_elem_of_further. }
  destruct (decide (P x)) as [HP|HP].
  - rewrite (filter_cons_True P) by exact HP.
    rewrite (filter_cons_True Q)
      by (apply Himp; [apply list_elem_of_here|exact HP]).
    simpl. lia.
  - rewrite (filter_cons_False P) by exact HP.
    destruct (decide (Q x)) as [HQ|HQ].
    + rewrite (filter_cons_True Q) by exact HQ. simpl. lia.
    + now rewrite (filter_cons_False Q) by exact HQ.
Qed.

Lemma filter_agree {A} (P Q : A -> Prop)
    `{forall x, Decision (P x)} `{forall x, Decision (Q x)} (l : list A) :
  (forall x, x ∈ l -> (P x <-> Q x)) -> filter P l = filter Q l.
Proof.
  induction l as [|x l IH]; intros Hiff; [reflexivity|].
  assert (IH' : filter P l = filter Q l).
  { apply IH. intros y Hy. apply Hiff. now apply list_elem_of_further. }
  destruct (decide (P x)) as [HP|HP].
  - rewrite (filter_cons_True P) by exact HP.
    rewrite (filter_cons_True Q)
      by (apply Hiff; [apply list_elem_of_here|exact HP]).
    now rewrite IH'.
  - rewrite (filter_cons_False P) by exact HP.
    rewrite (filter_cons_False Q)
      by (intros HQ; apply HP, Hiff; [apply list_elem_of_here|exact HQ]).
    exact IH'.
Qed.

Lemma links_other (pid q : Z) (buf : list byte) (st : Store) :
  q <> pid ->
  perface_findMany q (committed pid buf st) = perface_findMany q st.
Proof.
  intros Hq. unfold perface_findMany, committed. cbn [perface].
  rewrite filter_app, filter_cons_False by (cbn; congruence).
  rewrite filter_nil. apply app_nil_r.
Qed.

(** A link row of the store before the commit, read after it. *)
Lemma linked_after_commit (pid : Z) (buf : list byte) (st : Store)
    (pf : Perface) (b : bool) :
  wf_store st -> pf ∈ perface st ->
  linked_face_is b (committed pid buf st) pf
  = if bool_decide (pf_facialID pf ∈ subject_face_ids pid st)
    then Bool.eqb false b
    else linked_face_is b st pf.
Proof.
  intros Hwf Hin.
  pose proof (wf_link_face st Hwf) as Hfk. rewrite Forall_forall in Hfk.
  destruct (Hfk pf Hin) as [f Hf]. unfold linked_face_is.
  rewrite (face_find_committed_old pid _ buf st f Hf), Hf.
  apply find_key_some in Hf as [_ Hkey].
  destruct (decide (pf_facialID pf ∈ subject_face_ids pid st)) as [Hid|Hid].
  - rewrite bool_decide_eq_true_2 by exact Hid.
    now rewrite deactivate_member by (now rewrite Hkey).
  - rewrite bool_decide_eq_false_2 by exact Hid.
    now rewrite deactivate_other by (now rewrite Hkey).
Qed.

Lemma count_other_subject (pid q : Z) (buf : list byte) (st : Store) :
  wf_store st -> q <> pid ->
  perface_count q true (committed pid buf st) <= perface_count q true st
  /\ link_count q (committed pid buf st) = link_count q st.
Proof.
  intros Hwf Hq. unfold perface_count, link_count.
  rewrite (links_other pid q buf st Hq). split; [|reflexivity].
  apply Nat2Z.inj_le, filter_length_mono. intros pf Hpf.
  apply links_of_subject in Hpf as [Hin _].
  rewrite (linked_after_commit pid buf st pf true Hwf Hin).
  now destruct (bool_decide _).
Qed.

Lemma count_same_rows (a b : Store) (q : Z) (flag : bool) :
  same_rows a b -> perface_count q flag a = perface_count q flag b.
Proof.
  intros (_ & Hface & Hlink).
  unfold perface_count, perface_findMany, linked_face_is, face_find.
  now rewrite Hface, Hlink.
Qed.

Section AnyClient.
Variable W : Type.
Variable svc_enrollFace : Z -> list byte -> string -> W -> Result Envelope * W.

Local Abbreviation route := (post_enroll W svc_enrollFace).
Local Abbreviation handler := (enroll_handler W svc_enrollFace).

(** What the route leaves in the store: the store it was given, rows
    untouched, or the committed store of an accepted upload. *)
Lemma route_store (personaID : Z) (image : option Upload) (st : Store)
    (w : W) :
  same_rows (store_after (route personaID image st w)) st
  \/ exists file persona,
       per_findUnique personaID st = Some persona
       /\ store_after (route personaID image st w)
          = committed personaID (buffer file) st.
Proof.
  assert (Hh : forall file,
            same_rows (store_after (handler personaID file st w)) st
            \/ exists f persona,
                 per_findUnique personaID st = Some persona
                 /\ store_after (handler personaID file st w)
                    = committed personaID (buffer f) st).
  { intros file.
    destruct (handler_cases W svc_enrollFace personaID file st w)
      as [(_ & H & _)|(_ & f & persona & _ & Hper & Hst & _)].
    - now left.
    - right. now exists f, persona. }
  unfold post_enroll. destruct image as [file|]; [|apply Hh].
  destruct (negb (fileFilter file)); [left; now repeat split|].
  destruct (fileSize_limit <=? _); [left; now repeat split|apply Hh].
Qed.

(** X16: an enrollment never activates a face of another subject and never
    changes how many faces another subject has: for every other subject
    the number of active faces stays or falls, and the number of links
    stays. *)
Theorem other_subjects_never_gain
    (personaID q : Z) (image : option Upload) (st : Store) (w : W) :
  wf_store st ->
  q <> personaID ->
  perface_count q true (store_after (route personaID image st w))
    <= perface_count q true st
  /\ link_count q (store_after (route personaID image st w))
     = link_count q st.
Proof.
  intros Hwf Hq.
  destruct (route_store personaID image st w)
    as [Hsame|(file & persona & _ & ->)].
  - rewrite (count_same_rows _ _ q true Hsame).
    destruct Hsame as (_ & _ & Hlink).
    unfold link_count, perface_findMany. rewrite Hlink. split; [lia|easy].
  - now apply count_other_subject.
Qed.

(** X17: a store in which no subject has more than one active face stays so
    under every request to the route. *)
Theorem one_active_face_is_kept
    (personaID : Z) (image : option Upload) (st : Store) (w : W) :
  wf_store st ->
  one_active_each st ->
  one_active_each (store_after (route personaID image st w)).
Proof.
  intros Hwf Hone q.
  destruct (route_store personaID image st w)
    as [Hsame|(file & persona & _ & Hst)].
  - rewrite (count_same_rows _ _ q true Hsame). apply Hone.
  - rewrite Hst. destruct (decide (q = personaID)) as [->|Hq].
    + destruct (committed_counts personaID (buffer file) st Hwf) as [_ ->].
      lia.
    + pose proof (count_other_subject personaID q (buffer file) st Hwf Hq)
        as [Hle _].
      specialize (Hone q). lia.
Qed.

(** X18: no request deletes a face row or rewrites a stored template: every
    face row of the store is still there afterwards, under the same key
    and with the same template, active only if it was active before; and
    the link table grows by at most one row at its end. *)
Theorem stored_faces_are_kept
    (personaID : Z) (image : option Upload) (st : Store) (w : W) (f : Face) :
  f ∈ face st ->
  (exists f',
      f' ∈ face (store_after (route personaID image st w))
      /\ facialID f' = facialID f
      /\ templateData f' = templateData f
      /\ (activo f' = activo f \/ activo f' = false))
  /\ exists added,
       perface (store_after (route personaID image st w))
       = (perface st ++ added)%list
       /\ (length added <= 1)%nat.
Proof.
  intros Hin.
  destruct (route_store personaID image st w)
    as [(_ & Hface & Hlink)|(file & persona & _ & ->)].
  - rewrite Hface, Hlink. split.
    + exists f. repeat split; [exact Hin|now left].
    + exists []. rewrite app_nil_r. split; [reflexivity|cbn; lia].
  - unfold committed. cbn [face perface]. split.
    + exists (deactivate (subject_face_ids personaID st) f).
      split; [apply elem_of_app; left; now apply list_elem_of_fmap_2|].
      split; [apply deactivate_key|].
      unfold deactivate. destruct (existsb _ _); cbn; auto.
    + eexists [_]. split; [reflexivity|cbn; lia].
Qed.

End AnyClient.
End InvariantFacts.

(** ** Enrollments one after the other *)

Module RepeatFacts.
Import Node Hikvision Store Server App Call Workflow StoreFacts Histories.
Import HistoryFacts.

Lemma link_count_committed (pid : Z) (buf : list byte) (st : Store) :
  link_count pid (committed pid buf st) = link_count pid st + 1.
Proof.
  unfold link_count. rewrite links_committed, length_app. cbn. lia.
Qed.

Section AnyClient.
Variable W : Type.
Variable svc_enrollFace : Z -> list byte -> string -> W -> Result Envelope * W.

Local Abbreviation handler := (enroll_handler W svc_enrollFace).

Lemma handler_commits (pid : Z) (file : Upload) (st : Store) (w : W)
    (persona : Per) :
  wf_store st ->
  per_findUnique pid st = Some persona ->
  store_after (handler pid (Some file) st w) = committed pid (buffer file) st
  /\ reported_deactivated (reply (handler pid (Some file) st w))
     = Some (link_count pid st).
Proof.
  intros Hwf Hper. unfold enroll_handler.
  rewrite Hper, (transaction_commits _ _ _ _ Hwf Hper).
  destruct (svc_enrollFace _ _ _ w) as [outcome w'].
  cbn [store_after reply json reported_deactivated reply_body].
  destruct (committed_counts pid (buffer file) st Hwf) as [-> _].
  now split.
Qed.

(** X19: enrolling the uploads of a list for one subject, whatever the device
    does each time: the constraints of the schema hold at the end, the
    subject has one more face per upload and, once anything was enrolled,
    exactly one active face; and the response to the next enrollment
    reports as deactivated all the faces linked so far. *)
Theorem repeated_enrollments (pid : Z) (uploads : list Upload)
    (persona : Per) :
  forall (st : Store) (w : W),
    wf_store st ->
    per_findUnique pid st = Some persona ->
    let st' := fst (enroll_many W svc_enrollFace pid uploads st w) in
    let w' := snd (enroll_many W svc_enrollFace pid uploads st w) in
    wf_store st'
    /\ link_count pid st' = link_count pid st + Z.of_nat (length uploads)
    /\ perface_count pid true st'
       = match uploads with
         | [] => perface_count pid true st
         | _ :: _ => 1
         end
    /\ forall next,
         reported_deactivated (reply (handler pid (Some next) st' w'))
         = Some (link_count pid st + Z.of_nat (length uploads)).
Proof.
  induction uploads as [|file rest IH]; intros st w Hwf Hper; cbv zeta.
  - cbn [enroll_many fst snd length]. rewrite Z.add_0_r.
    split; [exact Hwf|]. split; [reflexivity|]. split; [reflexivity|].
    intros next. now destruct (handler_commits pid next st w persona Hwf Hper).
  - cbn [enroll_many].
    destruct (handler_commits pid file st w persona Hwf Hper) as [Hst _].
    rewrite Hst.
    set (w1 := world_after (handler pid (Some file) st w)).
    assert (Hwf1 : wf_store (committed pid (buffer file) st))
      by now apply (committed_wf _ _ _ persona).
    assert (Hper1 : per_findUnique pid (committed pid (buffer file) st)
                    = Some persona) by exact Hper.
    destruct (IH (committed pid (buffer file) st) w1 Hwf1 Hper1)
      as (Hwfn & Hlinks & Hactive & Hnext).
    rewrite link_count_committed in Hlinks, Hnext.
    replace (link_count pid st + Z.of_nat (length (file :: rest)))
      with (link_count pid st + 1 + Z.of_nat (length rest))
      by (cbn [length]; lia).
    split; [exact Hwfn|]. split; [exact Hlinks|]. split; [|exact Hnext].
    rewrite Hactive. destruct rest; [|reflexivity].
    now destruct (committed_counts pid (buffer file) st Hwf) as [_ ->].
Qed.

End AnyClient.
End RepeatFacts.

(** ** The list route *)

Module ListingFacts.
Import Node Hikvision Store Server Workflow StoreFacts Histories Listing Ui.
Import RepeatFacts.

Lemma ceil_pages (n p : Z) :
  0 <= n -> ((p <= (n + limit - 1) / limit) <-> (p - 1) * limit < n).
Proof.
  unfold limit. intros Hn.
  pose proof (Z.div_mod (n + 18 - 1) 18 ltac:(lia)).
  pose proof (Z.mod_pos_bound (n + 18 - 1) 18 ltac:(lia)). lia.
Qed.

Lemma ceil_covers (n : Z) : 0 <= n -> n <= limit * ((n + limit - 1) / limit).
Proof.
  unfold limit. intros Hn.
  pose proof (Z.div_mod (n + 18 - 1) 18 ltac:(lia)).
  pose proof (Z.mod_pos_bound (n + 18 - 1) 18 ltac:(lia)). lia.
Qed.

Lemma ceil_nonneg (n : Z) : 0 <= n -> 0 <= (n + limit - 1) / limit.
Proof.
  unfold limit. intros Hn.
  pose proof (Z.div_mod (n + 18 - 1) 18 ltac:(lia)).
  pose proof (Z.mod_pos_bound (n + 18 - 1) 18 ltac:(lia)). lia.
Qed.

Section Ordered.
Variable contains : option string -> string -> bool.
Variable order : list Per -> list Per.
Hypothesis order_permutes : forall l, order l ≡ₚ l.

Local Abbreviation listing := (get_personas contains order).

Lemma order_length (l : list Per) : length (order l) = length l.
Proof. apply Permutation_length, order_permutes. Qed.

(** The response of the route, spelled out for a page from 1 on. *)
Lemma listing_page (page : Z) (sp : option string) (st : Store) :
  1 <= page ->
  let found :=
    filter (fun p => where_matches contains (Js.or_default sp "") p = true)
           (per st) in
  let total := Z.of_nat (length found) in
  listing (Some page) sp st
  = ListOk (map (persona_row st)
              (take 18 (drop (Z.to_nat ((page - 1) * 18)) (order found))))
           {| currentPage := page;
              totalPages := (total + limit - 1) / limit;
              totalItems := total;
              hasNext := page <? (total + limit - 1) / limit;
              hasPrev := 1 <? page |}.
Proof.
  intros Hp. cbv zeta. unfold get_personas, page_of.
  assert ((page =? 0) = false) as -> by (apply Z.eqb_neq; lia).
  assert (((page - 1) * limit <? 0) = false) as ->
    by (apply Z.ltb_ge; unfold limit; lia).
  reflexivity.
Qed.

(** The length of a page. *)
Lemma page_length (page : Z) (l : list Per) (st : Store) :
  1 <= page ->
  Z.of_nat (length (map (persona_row st)
                      (take 18 (drop (Z.to_nat ((page - 1) * 18)) l))))
  = Z.max 0 (Z.min 18 (Z.of_nat (length l) - (page - 1) * 18)).
Proof.
  intros Hp. rewrite length_map, length_take, length_drop. lia.
Qed.

(** X21: a page holds at most 18 rows. For a page from 1 to the number of
    pages it is not empty and holds exactly the rows that the footer of
    the user interface announces (from (page-1)*18+1 to the smaller of
    page*18 and the total); a page past the last one is empty. *)
Theorem page_matches_footer
    (page : Z) (sp : option string) (st : Store)
    (rows : list PersonaRow) (pg : Pagination) :
  1 <= page ->
  listing (Some page) sp st = ListOk rows pg ->
  (length rows <= 18)%nat
  /\ if page <=? totalPages pg then
       rows <> []
       /\ Z.of_nat (length rows) = showing_to pg - showing_from pg + 1
     else rows = [].
Proof.
  intros Hp H. rewrite (listing_page page sp st Hp) in H. cbv zeta in H.
  injection H as <- <-.
  set (found := filter _ (per st)).
  pose proof (page_length page (order found) st Hp) as Hlen.
  rewrite order_length in Hlen.
  pose proof (ceil_pages (Z.of_nat (length found)) page ltac:(lia)) as Hceil.
  unfold showing_to, showing_from. cbn [totalPages currentPage totalItems].
  split; [rewrite length_map, length_take; lia|].
  destruct (Z.leb_spec page ((Z.of_nat (length found) + limit - 1) / limit))
    as [Hle|Hgt].
  - apply Hceil in Hle. unfold limit in Hle. split; [|lia].
    intros E. rewrite E in Hlen. cbn [length] in Hlen. lia.
  - assert (~ (page - 1) * limit < Z.of_nat (length found))
      by (intros Hlt; apply Hceil in Hlt; lia).
    unfold limit in *. apply nil_length_inv. lia.
Qed.

(** X22: the next-page flag is set exactly when the next page has rows. *)
Theorem next_flag_iff_next_page
    (page : Z) (sp : option string) (st : Store)
    (rows next : list PersonaRow) (pg pg' : Pagination) :
  1 <= page ->
  listing (Some page) sp st = ListOk rows pg ->
  listing (Some (page + 1)) sp st = ListOk next pg' ->
  hasNext pg = match next with [] => false | _ :: _ => true end
  /\ hasPrev pg' = true.
Proof.
  intros Hp H H'.
  rewrite (listing_page page sp st Hp) in H.
  rewrite (listing_page (page + 1) sp st ltac:(lia)) in H'.
  cbv zeta in H, H'. injection H as <- <-. injection H' as <- <-.
  set (found := filter _ (per st)).
  pose proof (page_length (page + 1) (order found) st ltac:(lia)) as Hlen.
  rewrite order_length in Hlen.
  pose proof (ceil_pages (Z.of_nat (length found)) (page + 1) ltac:(lia))
    as Hceil.
  cbn [hasNext hasPrev]. split; [|apply Z.ltb_lt; lia].
  destruct (Z.ltb_spec page ((Z.of_nat (length found) + limit - 1) / limit))
    as [Hlt|Hge].
  - assert (Hmore : (page + 1 - 1) * limit < Z.of_nat (length found))
      by (apply Hceil; lia).
    unfold limit in Hmore.
    destruct (map _ _); [cbn [length] in Hlen; lia|reflexivity].
  - assert (Hnone : ~ (page + 1 - 1) * limit < Z.of_nat (length found))
      by (intros Hlt; apply Hceil in Hlt; lia).
    unfold limit in Hnone.
    destruct (map _ _); [reflexivity|cbn [length] in Hlen; lia].
Qed.

(** X23: the user interface draws the footer, with its buttons for the
    previous and the next page, exactly when more than 18 subjects match:
    a list that fits on one page has no footer. *)
Theorem footer_iff_more_than_a_page
    (pp : option Z) (sp : option string) (st : Store)
    (rows : list PersonaRow) (pg : Pagination) :
  listing pp sp st = ListOk rows pg ->
  footer_shown pg = true <-> 18 < totalItems pg.
Proof.
  unfold get_personas. destruct (_ <? 0); [discriminate|]. intros [= _ <-].
  unfold footer_shown. cbn [totalPages totalItems].
  set (n := Z.of_nat (length _)).
  pose proof (ceil_pages n 2 ltac:(lia)) as Hceil. unfold limit in Hceil.
  rewrite Z.ltb_lt. unfold limit. lia.
Qed.

Lemma pages_upto_take (n : nat) (sp : option string) (st : Store) :
  pages_upto contains order n sp st
  = map (persona_row st)
      (take (18 * n)
         (order (filter
                   (fun p =>
                      where_matches contains (Js.or_default sp "") p = true)
                        (per st)))).
Proof.
  induction n as [|k IH]; [now rewrite Nat.mul_0_r|].
  cbn [pages_upto]. rewrite IH.
  rewrite (listing_page (Z.of_nat (S k)) sp st ltac:(lia)). cbv zeta.
  replace (Z.to_nat ((Z.of_nat (S k) - 1) * 18)) with (18 * k)%nat by lia.
  rewrite <- map_app, take_take_drop. f_equal. f_equal. lia.
Qed.

(** X24: the pages from 1 to the number of pages, one after the other, are the
    matching subjects in the order of the store: each matching subject is
    on exactly one page. *)
Theorem pages_cover_matches
    (sp : option string) (st : Store)
    (rows : list PersonaRow) (pg : Pagination) :
  listing None sp st = ListOk rows pg ->
  let found :=
    filter (fun p => where_matches contains (Js.or_default sp "") p = true)
           (per st) in
  pages_upto contains order (Z.to_nat (totalPages pg)) sp st
    = map (persona_row st) (order found)
  /\ pages_upto contains order (Z.to_nat (totalPages pg)) sp st
       ≡ₚ map (persona_row st) found.
Proof.
  intros H. cbv zeta.
  change (listing None sp st) with (listing (Some 1) sp st) in H.
  rewrite (listing_page 1 sp st ltac:(lia)) in H. cbv zeta in H.
  injection H as _ <-. cbn [totalPages].
  set (found := filter _ (per st)).
  assert (E : pages_upto contains order
                (Z.to_nat ((Z.of_nat (length found) + limit - 1) / limit))
                sp st
              = map (persona_row st) (order found)).
  { rewrite pages_upto_take. fold found. f_equal. apply take_ge.
    rewrite order_length.
    pose proof (ceil_covers (Z.of_nat (length found)) ltac:(lia)).
    pose proof (ceil_nonneg (Z.of_nat (length found)) ltac:(lia)).
    unfold limit in *. lia. }
  split; [exact E|]. rewrite E. apply Permutation_map, order_permutes.
Qed.

(** X25: a search that matches no subject: the first page is the empty list,
    with no items, no pages, and neither a next nor a previous page. *)
Theorem listing_without_match (sp : option string) (st : Store) :
  Forall (fun p => where_matches contains (Js.or_default sp "") p = false)
         (per st) ->
  listing None sp st
  = ListOk [] {| currentPage := 1; totalPages := 0; totalItems := 0;
                 hasNext := false; hasPrev := false |}.
Proof.
  intros Hnone.
  change (listing None sp st) with (listing (Some 1) sp st).
  rewrite (listing_page 1 sp st ltac:(lia)). cbv zeta.
  rewrite filter_nothing
    by (eapply Forall_impl; [exact Hnone|]; cbn; intros p ->; discriminate).
  assert (order [] = []) as -> by (apply Permutation_nil_r, order_permutes).
  reflexivity.
Qed.

(** X26: every row of a response is a subject of the store that matches the
    search, with its number of links as the total and a number of active
    faces between zero and the total. *)
Theorem listing_rows
    (pp : option Z) (sp : option string) (st : Store)
    (rows : list PersonaRow) (pg : Pagination) :
  listing pp sp st = ListOk rows pg ->
  Forall (fun row =>
            row_persona row ∈ per st
            /\ where_matches contains (Js.or_default sp "") (row_persona row)
               = true
            /\ totalFaces row = link_count (personaID (row_persona row)) st
            /\ 0 <= activeFaces row <= totalFaces row) rows.
Proof.
  unfold get_personas.
  destruct (_ <? 0); [discriminate|]. intros [= <- _].
  apply Forall_forall. intros row Hrow.
  apply list_elem_of_fmap in Hrow as (p & -> & Hp).
  assert (Hin : p ∈ filter
                  (fun p =>
                     where_matches contains (Js.or_default sp "") p = true)
                  (per st)).
  { rewrite <- (order_permutes _).
    eapply subseteq_drop, subseteq_take. exact Hp. }
  apply list_elem_of_filter in Hin as [Hmatch Hin].
  cbn [row_persona totalFaces activeFaces persona_row].
  repeat split; try assumption.
  - unfold perface_count. lia.
  - unfold perface_count. apply Nat2Z.inj_le, length_filter.
Qed.

End Ordered.
End ListingFacts.

(** ** From the upload to the list and to the message on the screen *)

Module EndToEndFacts.
Import Node DigestHeader Hikvision Store Server App Call Workflow StoreFacts.
Import Histories HistoryFacts InvariantFacts RepeatFacts Listing Ui.
Import ClientFacts ParsedFacts.

#[local] Arguments toHex : simpl never.
#[local] Arguments parseDigestHeader : simpl never.
#[local] Arguments Js.includes : simpl never.
#[local] Arguments Js.int_toString : simpl never.
#[local] Arguments baseURL : simpl never.
#[local] Arguments String.append : simpl never.

Section AnyClient.
Variable W : Type.
Variable svc_enrollFace : Z -> list byte -> string -> W -> Result Envelope * W.
Variable contains : option string -> string -> bool.
Variable order : list Per -> list Per.
Hypothesis order_permutes : forall l, order l ≡ₚ l.

Local Abbreviation route := (post_enroll W svc_enrollFace).
Local Abbreviation handler := (enroll_handler W svc_enrollFace).

(** X27: the list after an enrollment: every row of the enrolled subject shows
    one active face and one face more than before; every other row shows
    the total it had and no more active faces than it had. *)
Theorem listing_after_enrollment
    (pid : Z) (file : Upload) (st : Store) (w : W) (persona : Per)
    (pp : option Z) (sp : option string)
    (rows : list PersonaRow) (pg : Pagination) :
  wf_store st ->
  per_findUnique pid st = Some persona ->
  get_personas contains order pp sp (store_after (handler pid (Some file) st w))
  = ListOk rows pg ->
  Forall (fun row =>
            let q := personaID (row_persona row) in
            if decide (q = pid) then
              activeFaces row = 1 /\ totalFaces row = link_count pid st + 1
            else
              activeFaces row <= perface_count q true st
              /\ totalFaces row = link_count q st) rows.
Proof.
  intros Hwf Hper.
  destruct (handler_commits W svc_enrollFace pid file st w persona Hwf Hper)
    as [-> _].
  unfold get_personas. destruct (_ <? 0); [discriminate|]. intros [= <- _].
  apply Forall_forall. intros row Hrow.
  apply list_elem_of_fmap in Hrow as (p & -> & _).
  cbv zeta. cbn [row_persona activeFaces totalFaces persona_row].
  destruct (decide (personaID p = pid)) as [->|Hq].
  - destruct (committed_counts pid (buffer file) st Hwf) as [_ ->].
    split; [reflexivity|]. apply link_count_committed.
  - apply (count_other_subject pid _ (buffer file) st Hwf Hq).
Qed.

(** X28: the message of the upload form tells the three outcomes apart: an
    error is shown only when no row of the store has changed and the
    device was not called; a warning, which ends with the device message,
    exactly when the enrollment is committed and the mirror step failed;
    a success only when the enrollment is committed and the mirror step
    succeeded. *)
Theorem upload_message_tells_outcome
    (personaID : Z) (image : option Upload) (st : Store) (w : W) :
  let run := route personaID image st w in
  let shown := upload_message (Some (reply run)) in
  match msg_type shown with
  | msg_error =>
      same_rows (store_after run) st /\ mirror_calls run = []
      /\ reply_status (reply run) <> 200
  | msg_warning =>
      (exists file, store_after run = committed personaID (buffer file) st)
      /\ exists ok text id n hk,
           reply_body (reply run) = EnrollReply ok text id n hk
           /\ hk_success hk = false
           /\ msg_text shown
              = ("Face enrolled to database successfully! Deactivated "
                   +:+ Js.int_toString n +:+ " previous faces.")
                  +:+ " Warning: Device enrollment failed - "
                  +:+ hk_message hk
  | msg_success =>
      (exists file, store_after run = committed personaID (buffer file) st)
      /\ exists ok text id n hk,
           reply_body (reply run) = EnrollReply ok text id n hk
           /\ hk_success hk = true
  end.
Proof.
  cbv zeta.
  assert (Hh : forall file,
    match msg_type (upload_message
                      (Some (reply (handler personaID file st w)))) with
    | msg_error =>
        same_rows (store_after (handler personaID file st w)) st
        /\ mirror_calls (handler personaID file st w) = []
        /\ reply_status (reply (handler personaID file st w)) <> 200
    | msg_warning =>
        (exists f, store_after (handler personaID file st w)
                   = committed personaID (buffer f) st)
        /\ exists ok text id n hk,
             reply_body (reply (handler personaID file st w))
             = EnrollReply ok text id n hk
             /\ hk_success hk = false
             /\ msg_text (upload_message
                            (Some (reply (handler personaID file st w))))
                = ("Face enrolled to database successfully! Deactivated "
                     +:+ Js.int_toString n +:+ " previous faces.")
                    +:+ " Warning: Device enrollment failed - "
                    +:+ hk_message hk
    | msg_success =>
        (exists f, store_after (handler personaID file st w)
                   = committed personaID (buffer f) st)
        /\ exists ok text id n hk,
             reply_body (reply (handler personaID file st w))
             = EnrollReply ok text id n hk
             /\ hk_success hk = true
    end).
  { intros file. unfold enroll_handler.
    destruct file as [f|]; [|cbn; now repeat split].
    destruct (per_findUnique personaID st) as [persona|];
      [|cbn; now repeat split].
    pose proof (transaction_inv personaID (buffer f) st) as Htx.
    destruct (transaction personaID (buffer f) st) as [[r|e] st'].
    - destruct Htx as [-> ->].
      destruct (svc_enrollFace _ _ _ w) as [[env|err] w'].
      + unfold upload_message, response_ok.
        cbn [reply json reply_status reply_body store_after hk_success
             msg_type msg_text].
        change ((200 <=? 200) && (200 <? 300)) with true. cbv iota.
        destruct (success env) eqn:Hs; cbn [msg_type msg_text].
        * split; [now exists f|]. eexists _, _, _, _, _.
          split; reflexivity.
        * split; [now exists f|]. eexists _, _, _, _, _.
          split; [reflexivity|]. split; reflexivity.
      + unfold upload_message, response_ok.
        cbn [reply json reply_status reply_body store_after hk_success
             msg_type msg_text].
        change ((200 <=? 200) && (200 <? 300)) with true. cbv iota.
        cbn [msg_type msg_text].
        split; [now exists f|]. eexists _, _, _, _, _.
        split; [reflexivity|]. split; reflexivity.
    - cbn. split; [exact Htx|]. now split. }
  unfold post_enroll. destruct image as [file|]; [|exact (Hh None)].
  destruct (negb (fileFilter file)); [cbn; now repeat split|].
  destruct (fileSize_limit <=? _);
    [cbn; now repeat split|exact (Hh (Some file))].
Qed.

(** X20: an upload that the middleware refuses never reaches the route: the
    store and the device client are left as they were and no enrollment is
    attempted. A file that is neither JPEG nor PNG is answered with the 500
    and the text Internal server error, a JPEG or PNG of 5 MB (5242880
    bytes) or more with the 400, and the user interface shows the text of
    the answer as an error. *)
Theorem refused_upload_is_reported
    (personaID : Z) (file : Upload) (st : Store) (w : W) :
  fileFilter file = false
  \/ fileSize_limit <= Z.of_nat (length (buffer file)) ->
  let run := route personaID (Some file) st w in
  store_after run = st /\ world_after run = w /\ mirror_calls run = []
  /\ reply run
     = (if fileFilter file then
          {| reply_status := 400;
             reply_body := ErrorReply "File too large. Maximum size is 5MB." |}
        else
          {| reply_status := 500;
             reply_body := ErrorReply "Internal server error" |})
  /\ upload_message (Some (reply run))
     = {| msg_type := msg_error;
          msg_text := if fileFilter file
                      then "File too large. Maximum size is 5MB."
                      else "Internal server error" |}.
Proof.
  intros H. cbv zeta. unfold post_enroll.
  destruct (fileFilter file).
  - destruct H as [H|H]; [discriminate|].
    apply Z.leb_le in H. cbn [negb]. rewrite H.
    split; [reflexivity|]. split; [reflexivity|]. split; [reflexivity|].
    split; reflexivity.
  - cbn [negb].
    split; [reflexivity|]. split; [reflexivity|]. split; [reflexivity|].
    split; reflexivity.
Qed.

End AnyClient.

Section Device.
Variable md5 : string -> string.
Variable Dev : Type.
Variable wire : Dev -> Request -> WireOutcome * Dev.
Variable cfg : Config.

(** X8: a challenge that names Digest and gives no directive is not refused
    by the client: it is answered with the one authenticated request, in
    which realm, nonce and qop are the word undefined. *)
Theorem bare_challenge_is_answered
    method endpoint data headers (w : World Dev) r1 d1 h :
  wire (dev w) (initial_request cfg method endpoint data headers)
  = (Answer r1, d1) ->
  digest_challenge_in r1 h ->
  lacks "="%char h = true ->
  let cnonce := next_cnonce Dev w in
  let ha1 := md5 (Js.template (username cfg) +:+ ":undefined:"
                    +:+ Js.template (password cfg)) in
  let ha2 := md5 (method +:+ ":" +:+ endpoint) in
  let response :=
    md5 (ha1 +:+ ":undefined:00000001:" +:+ cnonce +:+ ":undefined:"
           +:+ ha2) in
  sent (snd (makeAuthenticatedRequest md5 Dev wire cfg
               method endpoint data headers w))
  = (sent w ++
       [ initial_request cfg method endpoint data headers;
         {| method := method; url := baseURL cfg +:+ endpoint; body := data;
            req_headers :=
              <["Authorization" :=
                  "Digest username=" +:+ Js.quoted (Js.template (username cfg))
                    +:+ ", realm=" +:+ Js.quoted "undefined"
                    +:+ ", nonce=" +:+ Js.quoted "undefined"
                    +:+ ", uri=" +:+ Js.quoted endpoint
                    +:+ ", qop=undefined, nc=00000001, cnonce="
                    +:+ Js.quoted cnonce
                    +:+ ", response=" +:+ Js.quoted response]>
                headers |} ])%list.
Proof.
  intros Hw (H401 & Hh & Hinc) Hbare. cbv zeta.
  rewrite request_cases. cbv zeta. rewrite Hw.
  apply Z.eqb_eq in H401. rewrite H401, Hh, Hinc.
  unfold authenticated_request.
  assert (Hparse : parseDigestHeader h = ∅)
    by (apply exec_loop_no_equals; now apply lacks_not_in).
  rewrite Hparse.
  assert (Hsent : forall d2 req2 w1,
            sent (sending Dev d2 req2
                    (drawing Dev 16
                       (sending Dev d1
                          (initial_request cfg method endpoint data headers)
                          w1)))
            = (sent w1 ++ [initial_request cfg method endpoint data headers;
                           req2])%list).
  { intros. unfold sending, drawing. cbn [sent]. now rewrite <- app_assoc. }
  destruct (wire d1 _) as [[r2|c msg] d2];
    [destruct (validate_2xx (status r2))|];
    cbn [snd]; rewrite Hsent; reflexivity.
Qed.

End Device.
End EndToEndFacts.

(** ** The further theorems at concrete inputs *)

Module MoreWitnesses.
Import Node DigestHeader Hikvision Store Server App Call Workflow Histories.
Import Listing Ui Challenge Parsed Samples.
Import ClientFacts ClientMore OperationFacts ParsedFacts StoreFacts.
Import HistoryFacts InvariantFacts RepeatFacts ListingFacts EndToEndFacts.

Lemma stored_order_permutes (l : list Per) : stored_order l ≡ₚ l.
Proof. reflexivity. Qed.

Lemma success_needs_no_digest_witness :
  fst (info_call [Answer ok_response]) = Ok ok_response
  /\ sent (snd (info_call [Answer ok_response])) = [info_request]
  /\ drawn (snd (info_call [Answer ok_response])) = 0%nat.
Proof.
  exact (success_needs_no_digest toy_hash (list WireOutcome) scripted
           sample_cfg "GET" "/ISAPI/System/deviceInfo" NoBody ∅
           (sample_world [Answer ok_response]) ok_response []
           eq_refl eq_refl).
Defined.

Lemma other_status_is_final_witness :
  fst (info_call [Answer missing_response])
    = Throw (status_error missing_response)
  /\ response (status_error missing_response) = Some missing_response
  /\ sent (snd (info_call [Answer missing_response])) = [info_request].
Proof.
  apply (other_status_is_final toy_hash (list WireOutcome) scripted
           sample_cfg "GET" "/ISAPI/System/deviceInfo" NoBody ∅
           (sample_world [Answer missing_response]) missing_response []
           eq_refl); [discriminate|reflexivity].
Defined.

Lemma returned_status_is_2xx_witness : 200 <= status ok_response < 300.
Proof.
  exact (returned_status_is_2xx toy_hash (list WireOutcome) scripted
           sample_cfg "GET" "/ISAPI/System/deviceInfo" NoBody ∅
           (sample_world [Answer ok_response]) ok_response eq_refl).
Defined.

Lemma challenge_consumes_entropy_witness :
  drawn (snd (info_call refusing_device)) = 16%nat
  /\ entropy (snd (info_call refusing_device))
     = entropy (sample_world refusing_device)
  /\ next_cnonce _ (snd (info_call refusing_device))
     = toHex (map (fun i => entropy (sample_world refusing_device)
                              (0 + 16 + i)%nat) (seq 0 16)).
Proof.
  exact (challenge_consumes_entropy toy_hash (list WireOutcome) scripted
           sample_cfg "GET" "/ISAPI/System/deviceInfo" NoBody ∅
           (sample_world refusing_device) challenge_response
           [Answer bare_401] digest_challenge
           eq_refl (conj eq_refl (conj eq_refl eq_refl))).
Defined.

Lemma enrollFace_unreachable_witness :
  exists env w',
    enroll7_call [] = (Ok env, w')
    /\ success env = false
    /\ env_error env
       = Some "Cannot connect to Hikvision device at 192.168.1.64".
Proof.
  destruct (enrollFace_unreachable toy_hash (list WireOutcome) scripted
              sample_cfg 7 (buffer jpeg_upload) "Ana Ruiz" (sample_world [])
              "ECONNREFUSED" "connect ECONNREFUSED" [] eq_refl)
    as (env & w' & Hrun & Hfail & _ & Herr & _).
  exists env, w'. split; [exact Hrun|]. split; [exact Hfail|exact Herr].
Defined.

Lemma parseDigestHeader_entries_witness :
  key_ok "realm" /\ value_ok "DS-2CD".
Proof.
  apply (parseDigestHeader_entries (render_challenge plain_challenge)).
  vm_compute. reflexivity.
Defined.

Lemma parseDigestHeader_no_directive_witness :
  parseDigestHeader "Digest" = ∅.
Proof. apply parseDigestHeader_no_directive. reflexivity. Defined.

Lemma parseDigestHeader_last_wins_witness :
  parseDigestHeader (render_challenge repeated_challenge) !! "nonce"
  = Some "second".
Proof.
  apply (parseDigestHeader_last_wins
           [ {| d_name := word "nonce"; d_value := word "first";
                d_quoted := true; d_spaces := 1 |}; realm_directive ]
           [] second_nonce).
  - repeat constructor; discriminate.
  - repeat constructor; discriminate.
  - unfold named_later. intros H. inversion H.
  - discriminate.
Defined.

Lemma bare_challenge_is_answered_witness :
  length (sent (snd (info_call [Answer bare_challenge_response;
                                Answer ok_response]))) = 2%nat.
Proof.
  unfold info_call.
  rewrite (bare_challenge_is_answered toy_hash (list WireOutcome) scripted
             sample_cfg "GET" "/ISAPI/System/deviceInfo" NoBody ∅
             (sample_world [Answer bare_challenge_response;
                            Answer ok_response])
             bare_challenge_response [Answer ok_response] "Digest"
             eq_refl (conj eq_refl (conj eq_refl eq_refl)) eq_refl).
  reflexivity.
Defined.

Lemma route_keeps_schema_witness :
  wf_store (store_after (route7 (Some jpeg_upload) store7)).
Proof.
  exact (route_keeps_schema _ sample_enrollFace 7 (Some jpeg_upload) store7
           (sample_world []) store7_wf).
Defined.

Lemma shared_store_wf : wf_store shared_store.
Proof.
  constructor.
  - apply (bool_decide_unpack _). vm_compute. exact I.
  - apply (bool_decide_unpack _). vm_compute. exact I.
  - repeat constructor; eexists; reflexivity.
  - repeat constructor; eexists; reflexivity.
  - repeat constructor.
Qed.

Lemma shared_store_one_active : one_active_each shared_store.
Proof.
  intros q. unfold perface_count, perface_findMany, shared_store.
  cbn [perface].
  rewrite !filter_cons, filter_nil. cbn [pf_personaID].
  repeat case_decide; try lia; vm_compute; discriminate.
Qed.

Lemma other_subjects_never_gain_witness :
  perface_count 8 true (store_after (route7 (Some jpeg_upload) shared_store))
    <= perface_count 8 true shared_store
  /\ link_count 8 (store_after (route7 (Some jpeg_upload) shared_store))
     = link_count 8 shared_store.
Proof.
  apply (other_subjects_never_gain _ sample_enrollFace 7 8
           (Some jpeg_upload) shared_store (sample_world []) shared_store_wf).
  discriminate.
Defined.

Lemma one_active_face_is_kept_witness :
  one_active_each (store_after (route7 (Some jpeg_upload) shared_store)).
Proof.
  exact (one_active_face_is_kept _ sample_enrollFace 7 (Some jpeg_upload)
           shared_store (sample_world []) shared_store_wf
           shared_store_one_active).
Defined.

Lemma stored_faces_are_kept_witness :
  (exists f',
      f' ∈ face (store_after (route7 (Some jpeg_upload) store7))
      /\ facialID f' = 1
      /\ templateData f' = None
      /\ (activo f' = true \/ activo f' = false))
  /\ exists added,
       perface (store_after (route7 (Some jpeg_upload) store7))
       = (perface store7 ++ added)%list
       /\ (length added <= 1)%nat.
Proof.
  apply (stored_faces_are_kept _ sample_enrollFace 7 (Some jpeg_upload)
           store7 (sample_world []) face1).
  apply list_elem_of_here.
Defined.

Lemma repeated_enrollments_witness :
  wf_store (fst (enroll_many _ sample_enrollFace 7 two_uploads store7
                   (sample_world [])))
  /\ link_count 7 (fst (enroll_many _ sample_enrollFace 7 two_uploads store7
                          (sample_world []))) = 4
  /\ perface_count 7 true
       (fst (enroll_many _ sample_enrollFace 7 two_uploads store7
               (sample_world []))) = 1.
Proof.
  destruct (repeated_enrollments _ sample_enrollFace 7 two_uploads persona7
              store7 (sample_world []) store7_wf eq_refl)
    as (Hwf & Hlinks & Hactive & _).
  split; [exact Hwf|]. split; [exact Hlinks|exact Hactive].
Defined.

Lemma page_matches_footer_witness :
  exists rows pg,
    get_personas contains_insensitive stored_order (Some 1) None
      shared_store = ListOk rows pg
    /\ (length rows <= 18)%nat.
Proof.
  eexists _, _. split; [reflexivity|].
  apply (page_matches_footer contains_insensitive stored_order
           stored_order_permutes 1 None
           shared_store _ _ ltac:(lia) eq_refl).
Defined.

Lemma next_flag_iff_next_page_witness :
  exists pg,
    get_personas contains_insensitive stored_order (Some 1) None shared_store
    = ListOk (map (persona_row shared_store) (per shared_store)) pg
    /\ hasNext pg = false.
Proof.
  eexists. split; [reflexivity|].
  apply (next_flag_iff_next_page contains_insensitive stored_order
           stored_order_permutes 1 None
           shared_store _ [] _ _ ltac:(lia) eq_refl eq_refl).
Defined.

Lemma footer_iff_more_than_a_page_witness :
  footer_shown {| currentPage := 1; totalPages := 1; totalItems := 2;
                  hasNext := false; hasPrev := false |} = true
  <-> 18 < 2.
Proof.
  exact (footer_iff_more_than_a_page contains_insensitive stored_order
           None None shared_store _ _ eq_refl).
Defined.

Lemma pages_cover_matches_witness :
  pages_upto contains_insensitive stored_order 1 None shared_store
  = map (persona_row shared_store) (per shared_store).
Proof.
  exact (proj1 (pages_cover_matches contains_insensitive stored_order
                  stored_order_permutes None
                  shared_store _ _ eq_refl)).
Defined.

Lemma listing_without_match_witness :
  get_personas contains_insensitive stored_order None (Some "zz") shared_store
  = ListOk [] {| currentPage := 1; totalPages := 0; totalItems := 0;
                 hasNext := false; hasPrev := false |}.
Proof.
  apply (listing_without_match contains_insensitive stored_order
           stored_order_permutes).
  repeat constructor.
Defined.

Lemma listing_rows_witness :
  Forall (fun row =>
            row_persona row ∈ per shared_store
            /\ where_matches contains_insensitive "an" (row_persona row) = true
            /\ totalFaces row
               = link_count (personaID (row_persona row)) shared_store
            /\ 0 <= activeFaces row <= totalFaces row)
         [persona_row shared_store persona7].
Proof.
  exact (listing_rows contains_insensitive stored_order
           stored_order_permutes None (Some "an")
           shared_store _ _ eq_refl).
Defined.

Lemma listing_after_enrollment_witness :
  exists rows pg,
    get_personas contains_insensitive stored_order None None
      (store_after (enroll_handler _ sample_enrollFace 7 (Some jpeg_upload)
                      shared_store (sample_world [])))
    = ListOk rows pg
    /\ Forall (fun row =>
                 if decide (personaID (row_persona row) = 7) then
                   activeFaces row = 1 /\ totalFaces row = 2
                 else
                   activeFaces row
                   <= perface_count (personaID (row_persona row)) true
                        shared_store
                   /\ totalFaces row
                      = link_count (personaID (row_persona row)) shared_store)
              rows.
Proof.
  eexists _, _. split; [reflexivity|].
  exact (listing_after_enrollment _ sample_enrollFace contains_insensitive
           stored_order
           7 jpeg_upload shared_store (sample_world []) persona7
           None None _ _ shared_store_wf eq_refl eq_refl).
Defined.

Lemma refused_upload_is_reported_witness :
  store_after (route7 (Some gif_upload) store7) = store7
  /\ mirror_calls (route7 (Some gif_upload) store7) = []
  /\ reply (route7 (Some gif_upload) store7)
     = {| reply_status := 500;
          reply_body := ErrorReply "Internal server error" |}.
Proof.
  destruct (refused_upload_is_reported _ sample_enrollFace 7 gif_upload
              store7 (sample_world []) (or_introl eq_refl))
    as (Hst & _ & Hcalls & Hreply & _).
  split; [exact Hst|]. split; [exact Hcalls|exact Hreply].
Defined.

End MoreWitnesses.
